(** * Solana transaction manager, instruction builder and Merkle-tree decoder

    A shallow embedding of
      - components/brave_wallet/browser/solana_tx_manager.cc
      - components/brave_wallet/browser/solana_instruction_builder.cc
      - components/brave_wallet/browser/simple_hash_client.h
    and the properties stated about them.

    Conventions.  Unsigned machine integers are values of [Z] and every C++
    operation that can wrap is written with its modulus ([wrap32], [wrap64]);
    [size_t] is 64 bits wide.  A [std::vector<uint8_t>] is a [list byte], a
    [std::string] a [string], [std::optional<T>] an [option T].  A function
    taking [size_t& offset] takes the offset and returns the new one. *)

From Stdlib Require Import ZArith List String Ascii Bool Lia.
From Stdlib Require Import Init.Byte.
From Stdlib Require Import Reals Lra.
From stdpp Require Import gmap strings.
Import ListNotations.

Local Open Scope string_scope.
Local Open Scope list_scope.
Local Open Scope Z_scope.

(** ** Machine integers and byte vectors *)

Definition wrap32 (z : Z) : Z := z mod 2 ^ 32.
Definition wrap64 (z : Z) : Z := z mod 2 ^ 64.

(** [v.size()] of a vector. *)
Definition vsize {A} (v : list A) : Z := Z.of_nat (length v).

(** [v[i]] for an index known to be in range; [None] marks an access outside
    the vector. *)
Definition at_index {A} (v : list A) (i : Z) : option A :=
  if i <? 0 then None else nth_error v (Z.to_nat i).

Definition byte_val (b : byte) : Z := Z.of_N (Byte.to_N b).

Definition byte_of_Z (z : Z) : byte :=
  match Byte.of_N (Z.to_N (z mod 256)) with
  | Some b => b
  | None => x00
  end.

(** [std::vector<uint8_t>(first, last)]: the bytes at positions
    [first <= i < last]. *)
Definition slice (v : list byte) (first last : Z) : list byte :=
  firstn (Z.to_nat (last - first)) (skipn (Z.to_nat first) v).

(** The unsigned value of bytes in little-endian order. *)
Definition le_value (s : list byte) : Z :=
  fold_right (fun b acc => byte_val b + 256 * acc) 0 s.

(** [std::string::empty()]. *)
Definition empty (s : string) : bool :=
  match s with
  | EmptyString => true
  | String _ _ => false
  end.

(** ** Base58 *)

Module Base58.

Definition alphabet : list ascii :=
  list_ascii_of_string
    "123456789ABCDEFGHJKLMNPQRSTUVWXYZabcdefghijkmnopqrstuvwxyz".

Fixpoint index_of (c : ascii) (l : list ascii) (i : Z) : option Z :=
  match l with
  | [] => None
  | d :: l' => if Ascii.eqb c d then Some i else index_of c l' (i + 1)
  end.

Definition digit_value (c : ascii) : option Z := index_of c alphabet 0.

Definition digit_char (d : Z) : ascii :=
  nth (Z.to_nat d) alphabet "1"%char.

(** The number written by the digits [ds] in base [base], most significant
    digit first. *)
Definition value (base : Z) (ds : list Z) : Z :=
  fold_left (fun acc d => acc * base + d) ds 0.

(** Big-endian value of a byte string. *)
Definition be_value (bs : list byte) : Z := value 256 (map byte_val bs).

Fixpoint leading {A} (is_zero : A -> bool) (l : list A) : nat :=
  match l with
  | x :: l' => if is_zero x then S (leading is_zero l') else O
  | [] => O
  end.

(** The digits of [n] in base [base], most significant first; no digit
    for 0. *)
Fixpoint digits (fuel : nat) (base n : Z) (acc : list Z) : list Z :=
  match fuel with
  | O => acc
  | S fuel' =>
      if n <=? 0 then acc
      else digits fuel' base (n / base) (n mod base :: acc)
  end.

Definition is_zero_byte (b : byte) : bool := byte_val b =? 0.
Definition is_one_char (c : ascii) : bool := Ascii.eqb c "1"%char.

(** Modelled from the spec: [Base58Encode] of
    components/brave_wallet/common/encoding_utils.h is not among the
    sources.  The usual base-58 encoding of the Solana wire format: one
    ['1'] per leading zero byte, then the base-58 digits of the big-endian
    value of the bytes. *)
Definition Base58Encode (bs : list byte) : string :=
  let zeros := leading is_zero_byte bs in
  let n := be_value bs in
  string_of_list_ascii
    (repeat "1"%char zeros
     ++ map digit_char (digits (2 * length bs) 58 n [])).

Fixpoint digit_values (cs : list ascii) : option (list Z) :=
  match cs with
  | [] => Some []
  | c :: cs' =>
      match digit_value c, digit_values cs' with
      | Some d, Some ds => Some (d :: ds)
      | _, _ => None
      end
  end.

(** Modelled from the spec: [Base58Decode(str, &ret, len)] of
    components/brave_wallet/common/encoding_utils.h is not among the
    sources.  The spec has each field "base58-decoded to exactly 32 bytes
    (decode failure on any => build failure)": the decoder fails on a
    character outside the alphabet and on a decoded length other than
    [len]. *)
Definition Base58Decode (s : string) (len : Z) : option (list byte) :=
  let cs := list_ascii_of_string s in
  match digit_values cs with
  | None => None
  | Some ds =>
      let zeros := leading is_one_char cs in
      let n := value 58 ds in
      let bytes :=
        repeat x00 zeros
        ++ map byte_of_Z (digits (length cs) 256 n []) in
      if vsize bytes =? len then Some bytes else None
  end.

End Base58.

(** [kSolanaPubkeySize]. *)
Definition kSolanaPubkeySize : Z := 32.

(** A [SolanaAddress] holds the 32 bytes of a public key. *)
Definition SolanaAddress : Type := list byte.

(** Modelled from the spec: [SolanaAddress::FromBase58] of
    components/brave_wallet/common/solana_address.h is not among the
    sources.  The spec has the authority "re-parsed as an address type; fail
    on any decode error": the base-58 text must decode to exactly
    [kSolanaPubkeySize] bytes. *)
Definition FromBase58 (s : string) : option SolanaAddress :=
  Base58.Base58Decode s kSolanaPubkeySize.

Definition ToBase58 (a : SolanaAddress) : string := Base58.Base58Encode a.

(** ** MerkleProofDecoder: solana_tx_manager.cc, lines 40-101 and 777-921 *)

Module Decoder.

(** [DecodeUint8(input, offset)]: the value read and the new offset. *)
Definition DecodeUint8 (input : list byte) (offset : Z) : option (Z * Z) :=
  if (offset >=? vsize input) || (wrap64 (vsize input - offset) <? 1)
  then None
  else
    let offset' := wrap64 (offset + 1) in
    match at_index input (wrap64 (offset' - 1)) with
    | Some b => Some (byte_val b, offset')
    | None => None
    end.

(** The four bytes at [offset], read in little-endian order. *)
Definition le_uint32 (s : list byte) : Z := le_value s.

Definition DecodeUint32 (input : list byte) (offset : Z) : option (Z * Z) :=
  if (offset >=? vsize input) || (wrap64 (vsize input - offset) <? 4)
  then None
  else Some (le_uint32 (slice input offset (offset + 4)),
             wrap64 (offset + 4)).

Definition DecodePublicKey (input : list byte) (offset : Z)
  : option (string * Z) :=
  if (offset >=? vsize input)
     || (wrap64 (vsize input - offset) <? kSolanaPubkeySize)
  then None
  else
    let offset' := wrap64 (offset + kSolanaPubkeySize) in
    Some (Base58.Base58Encode
            (slice input (offset' - kSolanaPubkeySize) offset'),
          offset').

(** Size in bytes of one change-log entry, computed in [uint32_t]:
    [32 + 32 * *max_depth + 4 + +4]. *)
Definition change_log_size (max_depth : Z) : Z :=
  wrap32 (32 + 32 * max_depth + 4 + 4).

(** Size in bytes of the rightmost-path record, computed in [uint32_t]:
    [32 * *max_depth + 32 + 4 + +4]. *)
Definition path_size (max_depth : Z) : Z :=
  wrap32 (32 * max_depth + 32 + 4 + 4).

(** [for (size_t i = 0; i < max_buffer_size; i++) offset += ...]. *)
Definition skip_change_logs (max_buffer_size max_depth offset : Z) : Z :=
  Z.iter max_buffer_size
    (fun off => wrap64 (off + change_log_size max_depth)) offset.

(** [canopy_depth = std::log2(canopy_byte_length / 32.0 + 2) - 1], stored
    in a [uint32_t], at the exact real value of the expression: the
    conversion to [uint32_t] drops the fraction, and the integer part of
    the base-2 logarithm of [x >= 1] is that of the integer part of [x].
    The code evaluates the expression in [double].  For lengths below
    [2^32] the two agree ([double_canopy_depth] below and
    [double_canopy_depth_exact]).  For larger lengths they need not: just
    below a power of two the rounding of [std::log2] can reach the next
    integer (at 562949953421247 bytes the exact value is 42 and the
    rounded logarithm gives 43), so what is stated of the depth is stated
    for buffers below [2^32] bytes. *)
Definition log2_canopy (canopy_byte_length : Z) : Z :=
  Z.log2 (canopy_byte_length / 32 + 2) - 1.

Definition canopy_depth_of (canopy_byte_length : Z) : Z :=
  if canopy_byte_length =? 0 then 0 else log2_canopy canopy_byte_length.

(** The canopy depth in the words of the spec, over the reals:
    [floor(log2(remaining_bytes/32 + 2) - 1)]. *)
Definition spec_canopy_depth (remaining_bytes : Z) : Z :=
  Int_part (ln (IZR remaining_bytes / 32 + 2) / ln 2 - 1)%R.

(** *** The double arithmetic of the canopy depth *)

(** The arithmetic of [double] that
    [std::log2(canopy_byte_length / 32.0 + 2) - 1] goes through:
    [to_double] is the rounding of a real result to a [double],
    [std_log2] the [std::log2] of the C library.  Neither is among the
    sources; doubles are the reals they denote. *)
Record DoubleArithmetic := {
  to_double : R -> R;
  std_log2 : R -> R
}.

(** [m / 2^e] with a significand [m] of at most 53 bits: every such number
    is a double. *)
Definition fits_double (x : R) : Prop :=
  exists m e : Z,
    Z.abs m < 2 ^ 53 /\ 0 <= e <= 1074 /\ x = (IZR m / IZR (2 ^ e))%R.

(** What IEEE 754 and the C library are relied on for: a double is its
    own rounding; the rounding of a value of magnitude at most 64 is
    within [2^-47] of it; [std::log2] of a power of two is the exponent;
    [std::log2] of a double from 1 on is within [2^-34] of the
    logarithm. *)
Definition ieee (fp : DoubleArithmetic) : Prop :=
  (forall x, fits_double x -> to_double fp x = x) /\
  (forall x, (Rabs x <= 64)%R ->
             (Rabs (to_double fp x - x) <= / 2 ^ 47)%R) /\
  (forall k, 0 <= k <= 1023 -> std_log2 fp (IZR (2 ^ k)) = IZR k) /\
  (forall x, (1 <= x)%R ->
             (Rabs (std_log2 fp x - ln x / ln 2) <= / 2 ^ 34)%R).

(** The conversion of a [double] to [uint32_t] drops the fraction (it
    is undefined outside the range of [uint32_t]). *)
Definition double_to_uint32 (y : R) : Z :=
  if Rle_dec 0 y then Int_part y else - Int_part (- y).

(** [canopy_depth = std::log2(canopy_byte_length / 32.0 + 2) - 1], one
    operation at a time: the [size_t] is converted to [double], the
    quotient, the sum and the difference are rounded, and the result is
    converted to [uint32_t]. *)
Definition double_canopy_depth (fp : DoubleArithmetic)
    (canopy_byte_length : Z) : Z :=
  let bytes := to_double fp (IZR canopy_byte_length) in
  let nodes := to_double fp (bytes / 32)%R in
  let argument := to_double fp (nodes + 2)%R in
  let logarithm := std_log2 fp argument in
  double_to_uint32 (to_double fp (logarithm - 1)%R).

(** An arithmetic without rounding, which meets [ieee]. *)
Definition exact_arithmetic : DoubleArithmetic :=
  {| to_double := fun x => x; std_log2 := fun x => (ln x / ln 2)%R |}.

(** *** The account header *)

(** The header fields read by the decoder, with the offset reached. *)
Record Header := {
  max_buffer_size : Z;
  max_depth : Z;
  authority_address : SolanaAddress;
  header_end : Z
}.

(** The HEADER part of [DecodeMerkleTreeAuthorityAndDepth], up to and
    including the authority. *)
Definition DecodeHeader (data : list byte) : option Header :=
  let offset := 0 in
  match DecodeUint8 data offset with
  | None => None
  | Some (compression_account_type, offset) =>
  if negb (compression_account_type =? 1) then None else
  match DecodeUint8 data offset with
  | None => None
  | Some (version, offset) =>
  if negb (version =? 0) then None else
  match DecodeUint32 data offset with
  | None => None
  | Some (mbs, offset) =>
  match DecodeUint32 data offset with
  | None => None
  | Some (md, offset) =>
  match DecodePublicKey data offset with
  | None => None
  | Some (authority, offset) =>
  match FromBase58 authority with
  | None => None
  | Some addr =>
      Some {| max_buffer_size := mbs; max_depth := md;
              authority_address := addr; header_end := offset |}
  end end end end end end.

(** The offset reached after the creation slot and padding, the three
    [uint64] tree counters, the change-log ring buffer and the
    rightmost-path record. *)
Definition tree_end (h : Header) : Z :=
  let offset := header_end h in
  let offset := wrap64 (offset + (8 + 6)) in
  let offset := wrap64 (offset + (8 + 8 + 8)) in
  let offset := skip_change_logs (max_buffer_size h) (max_depth h) offset in
  wrap64 (offset + path_size (max_depth h)).

(** [auto canopy_byte_length = data.size() - offset;] in [size_t]. *)
Definition canopy_byte_length (data : list byte) (h : Header) : Z :=
  wrap64 (vsize data - tree_end h).

Definition DecodeMerkleTreeAuthorityAndDepth (data : list byte)
  : option (Z * SolanaAddress) :=
  match DecodeHeader data with
  | None => None
  | Some h =>
      Some (canopy_depth_of (canopy_byte_length data h),
            authority_address h)
  end.

(** A Merkle-tree account cut after its 42-byte header: account type 1,
    version 0, [max_buffer_size = 64], [max_depth = 14] and an authority
    key; the change logs and the rightmost path it announces would end at
    byte 31800. *)
Definition truncated_account : list byte :=
  map byte_of_Z ([1; 0] ++ [64; 0; 0; 0] ++ [14; 0; 0; 0] ++ repeat 7 32).

(** A complete account with [max_buffer_size = 1], [max_depth = 1]: the
    header and tree take 224 bytes, followed by [canopy] zero bytes. *)
Definition small_account (canopy : nat) : list byte :=
  map byte_of_Z
    ([1; 0] ++ [1; 0; 0; 0] ++ [1; 0; 0; 0] ++ repeat 7 32
     ++ repeat 0 182) ++ repeat x00 canopy.

End Decoder.

(** ** InstructionBuilder: solana_instruction_builder.cc *)

Module Builder.

(** [SolanaAccountMeta(pubkey, address_table_lookup_index, is_signer,
    is_writable)]. *)
Record SolanaAccountMeta := {
  pubkey : string;
  address_table_lookup_index : option Z;
  is_signer : bool;
  is_writable : bool
}.

(** [SolanaInstruction(program_id, accounts, data)]. *)
Record SolanaInstruction := {
  program_id : string;
  accounts : list SolanaAccountMeta;
  data : list byte
}.

(** [struct SolCompressedNftProofData] of simple_hash_client.h;
    [leaf_index] and [canopy_depth] are [uint64_t]. *)
Record SolCompressedNftProofData := {
  root : string;
  data_hash : string;
  creator_hash : string;
  owner : string;
  proof : list string;
  merkle_tree : string;
  delegate : string;
  leaf_index : Z;
  canopy_depth : Z
}.

(** Modelled from the spec: the program ids of brave_wallet.mojom are not
    among the sources; the spec only names the programs, and no property
    below depends on the text of an id. *)
Definition kSolanaSystemProgramId : string :=
  "11111111111111111111111111111111".
Definition kSolanaBubbleGumProgramId : string :=
  "BGUMAp9Gq7iTEuizy4pqaxsTyUCBK68MDfK752saRPUY".

(** [UintToLEBytes<T>(val, &bytes)] with [vec_size = sizeof(T)]: the bytes
    of [val] from the least significant one. *)
Fixpoint UintToLEBytes (vec_size : nat) (val : Z) : list byte :=
  match vec_size with
  | O => []
  | S n => byte_of_Z val :: UintToLEBytes n (val / 256)
  end.

Definition transfer_instruction_discriminator : list byte :=
  map byte_of_Z [163; 52; 200; 231; 140; 3; 69; 186].

Definition compression_program : string :=
  "cmtDvXumGCrqC1Age74AVPhSRVXJMd8PJS91L8KbNCK".
Definition log_wrapper : string :=
  "noopb9bkMVfRPU8AsbpTUg8AQkHtKwMYZiFUjNRtMmV".

(** What a call of the builder does: return an instruction, return
    [std::nullopt], or index [proof.proof] outside the vector. *)
Inductive BuildResult :=
| Built (instruction : SolanaInstruction)
| Absent
| OutOfBounds.

Definition readonly_meta (key : string) : SolanaAccountMeta :=
  {| pubkey := key; address_table_lookup_index := None;
     is_signer := false; is_writable := false |}.

(** [for (size_t i = 0; i < end; ++i)
       account_metas.push_back(SolanaAccountMeta(proof.proof[i], ...));]
    [rest] is [proof.proof] from index [i] on and [count] is [end - i];
    [None] when [proof.proof[i]] is read at [i = proof.proof.size()]. *)
Fixpoint push_proof (rest : list string) (count : Z)
    (account_metas : list SolanaAccountMeta)
  : option (list SolanaAccountMeta) :=
  if 0 <? count then
    match rest with
    | [] => None
    | p :: rest' =>
        push_proof rest' (count - 1) (account_metas ++ [readonly_meta p])
    end
  else Some account_metas.

(** The account metas the builder starts with:
    [std::vector<SolanaAccountMeta> account_metas({...})]. *)
Definition fixed_accounts (tree_authority new_leaf_owner : string)
    (p : SolCompressedNftProofData) : list SolanaAccountMeta :=
  [ readonly_meta tree_authority;
    readonly_meta (owner p);
    readonly_meta (owner p);
    readonly_meta new_leaf_owner;
    {| pubkey := merkle_tree p; address_table_lookup_index := None;
       is_signer := false; is_writable := true |};
    readonly_meta log_wrapper;
    readonly_meta compression_program;
    readonly_meta kSolanaSystemProgramId ].

(** [solana::bubblegum_program::Transfer]. The first argument is the
    function's [uint32_t canopy_depth]; the body reads
    [proof.canopy_depth]. *)
Definition Transfer (canopy_depth_arg : Z)
    (tree_authority new_leaf_owner : string)
    (p : SolCompressedNftProofData) : BuildResult :=
  let instruction_data := transfer_instruction_discriminator in
  match Base58.Base58Decode (root p) 32 with
  | None => Absent
  | Some root_bytes =>
  let instruction_data := instruction_data ++ root_bytes in
  match Base58.Base58Decode (data_hash p) 32 with
  | None => Absent
  | Some data_hash_bytes =>
  let instruction_data := instruction_data ++ data_hash_bytes in
  match Base58.Base58Decode (creator_hash p) 32 with
  | None => Absent
  | Some creator_hash_bytes =>
  let instruction_data := instruction_data ++ creator_hash_bytes in
  let instruction_data :=
    instruction_data ++ UintToLEBytes 8 (wrap64 (leaf_index p)) in
  let instruction_data :=
    instruction_data ++ UintToLEBytes 4 (wrap32 (leaf_index p)) in
  let account_metas := fixed_accounts tree_authority new_leaf_owner p in
  let end_ := wrap64 (vsize (proof p) - canopy_depth p) in
  match push_proof (proof p) end_ account_metas with
  | None => OutOfBounds
  | Some account_metas =>
      Built {| program_id := kSolanaBubbleGumProgramId;
               accounts := account_metas;
               data := instruction_data |}
  end end end end.

(** A proof record with a path of three siblings, of which the canopy
    caches one. *)
Definition sample_proof : SolCompressedNftProofData :=
  {| root := "11111111111111111111111111111111";
     data_hash := "JEKNVnkbo3jma5nREBBJCDoXFVeKkD56V3xKrvRmWxFG";
     creator_hash := "cmtDvXumGCrqC1Age74AVPhSRVXJMd8PJS91L8KbNCK";
     owner := "owner";
     proof := ["sibling0"; "sibling1"; "sibling2"];
     merkle_tree := "tree";
     delegate := "delegate";
     leaf_index := 1316261;
     canopy_depth := 1 |}.

(** The same record with a path of two siblings and a canopy depth
    of 3. *)
Definition short_proof : SolCompressedNftProofData :=
  {| root := root sample_proof;
     data_hash := data_hash sample_proof;
     creator_hash := creator_hash sample_proof;
     owner := owner sample_proof;
     proof := ["sibling0"; "sibling1"];
     merkle_tree := merkle_tree sample_proof;
     delegate := delegate sample_proof;
     leaf_index := leaf_index sample_proof;
     canopy_depth := 3 |}.

End Builder.

(** ** TransactionManager: solana_tx_manager.cc *)

Module TxManager.
Import Builder.

(** Modelled from the spec: [mojom::TransactionStatus] of
    brave_wallet.mojom is not among the sources; the spec's state machine
    is [Unapproved -> Approved -> Submitted -> {Confirmed | Error |
    Dropped}]. *)
Inductive TransactionStatus :=
| Unapproved | Approved | Submitted | Confirmed | Error | Dropped.

Definition status_eqb (a b : TransactionStatus) : bool :=
  match a, b with
  | Unapproved, Unapproved | Approved, Approved | Submitted, Submitted
  | Confirmed, Confirmed | Error, Error | Dropped, Dropped => true
  | _, _ => false
  end.

(** [mojom::SolanaProviderError]: the codes the manager names, and any
    other code forwarded from the RPC collaborator. *)
Inductive SolanaProviderError :=
| kSuccess | kInternalError | kInvalidParams | kProviderCode (code : Z).

Definition is_success (e : SolanaProviderError) : bool :=
  match e with
  | kSuccess => true
  | _ => false
  end.

(** [struct SolanaSignatureStatus] of brave_wallet_types.h. *)
Record SolanaSignatureStatus := {
  slot : Z;
  confirmations : Z;
  err : string;
  confirmation_status : string
}.

(** [SolanaSignatureStatus()]. *)
Definition no_signature_status : SolanaSignatureStatus :=
  {| slot := 0; confirmations := 0; err := ""; confirmation_status := "" |}.

(** [SolanaMessage]: the fields the manager reads and writes. *)
Record SolanaMessage := {
  recent_blockhash : string;
  last_valid_block_height : Z;
  fee_payer : string;
  instructions : list SolanaInstruction
}.

(** [SolanaTransaction]: the message, the cached [sign_tx_param] and the
    raw signatures. *)
Record SolanaTransaction := {
  message : SolanaMessage;
  sign_tx_param : option string;
  raw_signatures : list byte
}.

(** [SolanaTxMeta].  A [base::Time] is its internal value, [base::Time()]
    being 0.  [tx] is the transaction the meta owns ([meta->tx()] is set
    by the constructor and never reset). *)
Record SolanaTxMeta := {
  id : string;
  status : TransactionStatus;
  chain_id : string;
  from : string;
  created_time : Z;
  submitted_time : Z;
  confirmed_time : Z;
  tx_hash : string;
  signature_status : SolanaSignatureStatus;
  tx : SolanaTransaction
}.

(** *** Setters *)

Definition set_recent_blockhash (b : string) (m : SolanaMessage) :=
  {| recent_blockhash := b;
     last_valid_block_height := last_valid_block_height m;
     fee_payer := fee_payer m; instructions := instructions m |}.

Definition set_last_valid_block_height (h : Z) (m : SolanaMessage) :=
  {| recent_blockhash := recent_blockhash m;
     last_valid_block_height := h;
     fee_payer := fee_payer m; instructions := instructions m |}.

Definition with_message (f : SolanaMessage -> SolanaMessage)
    (t : SolanaTransaction) :=
  {| message := f (message t); sign_tx_param := sign_tx_param t;
     raw_signatures := raw_signatures t |}.

Definition set_sign_tx_param (p : option string) (t : SolanaTransaction) :=
  {| message := message t; sign_tx_param := p;
     raw_signatures := raw_signatures t |}.

Definition ClearRawSignatures (t : SolanaTransaction) :=
  {| message := message t; sign_tx_param := sign_tx_param t;
     raw_signatures := [] |}.

Definition with_tx (f : SolanaTransaction -> SolanaTransaction)
    (m : SolanaTxMeta) :=
  {| id := id m; status := status m; chain_id := chain_id m;
     from := from m; created_time := created_time m;
     submitted_time := submitted_time m;
     confirmed_time := confirmed_time m; tx_hash := tx_hash m;
     signature_status := signature_status m; tx := f (tx m) |}.

Definition set_id (i : string) (m : SolanaTxMeta) :=
  {| id := i; status := status m; chain_id := chain_id m;
     from := from m; created_time := created_time m;
     submitted_time := submitted_time m;
     confirmed_time := confirmed_time m; tx_hash := tx_hash m;
     signature_status := signature_status m; tx := tx m |}.

Definition set_status (s : TransactionStatus) (m : SolanaTxMeta) :=
  {| id := id m; status := s; chain_id := chain_id m;
     from := from m; created_time := created_time m;
     submitted_time := submitted_time m;
     confirmed_time := confirmed_time m; tx_hash := tx_hash m;
     signature_status := signature_status m; tx := tx m |}.

Definition set_created_time (t : Z) (m : SolanaTxMeta) :=
  {| id := id m; status := status m; chain_id := chain_id m;
     from := from m; created_time := t;
     submitted_time := submitted_time m;
     confirmed_time := confirmed_time m; tx_hash := tx_hash m;
     signature_status := signature_status m; tx := tx m |}.

Definition set_submitted_time (t : Z) (m : SolanaTxMeta) :=
  {| id := id m; status := status m; chain_id := chain_id m;
     from := from m; created_time := created_time m;
     submitted_time := t;
     confirmed_time := confirmed_time m; tx_hash := tx_hash m;
     signature_status := signature_status m; tx := tx m |}.

Definition set_confirmed_time (t : Z) (m : SolanaTxMeta) :=
  {| id := id m; status := status m; chain_id := chain_id m;
     from := from m; created_time := created_time m;
     submitted_time := submitted_time m;
     confirmed_time := t; tx_hash := tx_hash m;
     signature_status := signature_status m; tx := tx m |}.

Definition set_tx_hash (h : string) (m : SolanaTxMeta) :=
  {| id := id m; status := status m; chain_id := chain_id m;
     from := from m; created_time := created_time m;
     submitted_time := submitted_time m;
     confirmed_time := confirmed_time m; tx_hash := h;
     signature_status := signature_status m; tx := tx m |}.

Definition set_signature_status (s : SolanaSignatureStatus)
    (m : SolanaTxMeta) :=
  {| id := id m; status := status m; chain_id := chain_id m;
     from := from m; created_time := created_time m;
     submitted_time := submitted_time m;
     confirmed_time := confirmed_time m; tx_hash := tx_hash m;
     signature_status := s; tx := tx m |}.

(** [meta->tx()->message()->...]. *)
Definition blockhash_of (m : SolanaTxMeta) : string :=
  recent_blockhash (message (tx m)).
Definition height_of (m : SolanaTxMeta) : Z :=
  last_valid_block_height (message (tx m)).

(** [kValidBlockHeightThreshold]. *)
Definition kValidBlockHeightThreshold : Z := 150.

(** *** Collaborators and the world the manager runs in *)

(** What the manager calls, in the order it calls it. *)
Inductive Event :=
| CallGetLatestBlockhash (chain : string) (try_cached_value : bool)
| CallGetSolanaBlockHeight (chain : string)
| CallAddOrUpdateTx (meta : SolanaTxMeta) (ok : bool)
| CallSendSolanaTransaction (chain signed_tx : string)
| CallGetSolanaSignatureStatuses (chain : string) (hashes : list string)
| CallGetSolanaFeeForMessage (chain message64 : string)
| CallCheckIfBlockTrackerShouldRun.

(** The collaborators of section 6 of the spec, and the methods of
    [SolanaTxMeta], [SolanaMessage], [SolanaTransaction] and [TxMeta]
    whose definitions are not among the sources, taken as parameters.  An
    RPC answers with its payload, an error code and an error message.  A
    call made with a bound callback, [f(args, BindOnce(&Manager::OnF, ...))],
    is recorded in the trace and the callback is run on the answer. *)
Record Collaborators := {
  GetLatestBlockhash : string -> string * Z * SolanaProviderError * string;
  GetSolanaBlockHeight : string -> Z * SolanaProviderError * string;
  SendSolanaTransaction :
    string -> string -> string * SolanaProviderError * string;
  GetSolanaSignatureStatuses :
    string -> list string ->
    list (option SolanaSignatureStatus) * SolanaProviderError * string;
  GetSolanaFeeForMessage :
    string -> string -> Z * SolanaProviderError * string;
  storage_accepts : SolanaTxMeta -> bool;
  IsRetriable : SolanaTxMeta -> bool;
  UsesDurableNonce : SolanaMessage -> bool;
  GetSignedTransaction : SolanaTransaction -> string -> string;
  GetBase64EncodedMessage : SolanaTransaction -> string;
  GetSerializedMessage : SolanaTransaction -> option (list byte);
  meta_id : nat -> string
}.

(** The transaction store of the storage collaborator, keyed by id, the
    calls made so far, the clock and the number of ids generated. *)
Record World := {
  store : gmap string SolanaTxMeta;
  trace : list Event;
  clock : Z;
  generated_ids : nat
}.

Definition M (A : Type) : Type := World -> A * World.

Definition ret {A} (a : A) : M A := fun w => (a, w).

Definition bind {A B} (m : M A) (k : A -> M B) : M B :=
  fun w => let (a, w') := m w in k a w'.

Notation "'let*' x := m 'in' k" := (bind m (fun x => k))
  (at level 10, x name, m at level 100, k at level 200).

Definition emit (e : Event) : M unit :=
  fun w => (tt, {| store := store w; trace := trace w ++ [e];
                   clock := clock w; generated_ids := generated_ids w |}).

(** [base::Time::Now()]. *)
Definition Now : M Z := fun w => (clock w, w).

(** Modelled from the spec: the state manager is not among the sources;
    the spec's storage contract is [GetTransaction(id) -> meta_or_none].
    [GetSolanaTxStateManager()->GetSolanaTx(id)] returns a copy of the
    stored meta. *)
Definition GetSolanaTx (tx_meta_id : string) : M (option SolanaTxMeta) :=
  fun w => (store w !! tx_meta_id, w).

Section WithCollaborators.
Variable env : Collaborators.

(** [TxMeta::GenerateMetaID()]: the next id of the generator. *)
Definition GenerateMetaID : M string :=
  fun w => (meta_id env (generated_ids w),
            {| store := store w; trace := trace w; clock := clock w;
               generated_ids := S (generated_ids w) |}).

(** Modelled from the spec: the state manager is not among the sources;
    the spec's storage contract is [AddOrUpdateTransaction(meta) -> bool].
    [tx_state_manager_->AddOrUpdateTx(meta)] writes the meta under its id
    unless the storage collaborator refuses it. *)
Definition AddOrUpdateTx (meta : SolanaTxMeta) : M bool :=
  fun w =>
    let ok := storage_accepts env meta in
    (ok,
     {| store := if ok then <[id meta := meta]> (store w) else store w;
        trace := trace w ++ [CallAddOrUpdateTx meta ok];
        clock := clock w; generated_ids := generated_ids w |}).

(** Modelled from the spec: [GetTransactionsByStatus] of the state
    manager is not among the sources; the spec's
    [ListTransactionsByStatus(chain_or_none, status, coin_or_none)]
    lists the stored metas with that status, on that chain when one is
    given. *)
Definition GetTransactionsByStatus (chain : option string)
    (s : TransactionStatus) : M (list SolanaTxMeta) :=
  fun w =>
    (List.filter
       (fun m =>
          match chain with
          | Some c => String.eqb (chain_id m) c
          | None => true
          end && status_eqb (status m) s)
       (map snd (map_to_list (store w))), w).

(** The texts of [l10n_util::GetStringUTF8(IDS_...)]. *)
Definition IDS_WALLET_INTERNAL_ERROR : string :=
  "IDS_WALLET_INTERNAL_ERROR".
Definition IDS_BRAVE_WALLET_TRANSACTION_NOT_FOUND : string :=
  "IDS_BRAVE_WALLET_TRANSACTION_NOT_FOUND".
Definition IDS_BRAVE_WALLET_TRANSACTION_NOT_RETRIABLE : string :=
  "IDS_BRAVE_WALLET_TRANSACTION_NOT_RETRIABLE".

(** *** Reconciliation *)

(** The body of the loop of [OnGetSignatureStatuses] at one index:
    [tx_meta_ids[i]] and [signature_statuses[i]]. *)
Definition examine (block_height : Z) (tx_meta_id : string)
    (signature_status : option SolanaSignatureStatus) : M unit :=
  let* meta := GetSolanaTx tx_meta_id in
  match meta with
  | None => ret tt
  | Some meta =>
      match signature_status with
      | None =>
          if negb (height_of meta =? 0)
             && (height_of meta <? block_height)
          then
            let* _ := AddOrUpdateTx (set_status Dropped meta) in ret tt
          else ret tt
      | Some st =>
          if negb (empty (err st)) then
            let meta := set_signature_status st meta in
            let meta := set_status Error meta in
            let* _ := AddOrUpdateTx meta in ret tt
          else if negb (empty (confirmation_status st)) then
            let meta := set_signature_status st meta in
            if String.eqb (confirmation_status st) "finalized" then
              let meta := set_status Confirmed meta in
              let* now := Now in
              let meta := set_confirmed_time now meta in
              let* _ := AddOrUpdateTx meta in ret tt
            else
              let* _ := AddOrUpdateTx meta in ret tt
          else ret tt
      end
  end.

(** [for (size_t i = 0; i < tx_meta_ids.size(); i++)], the two vectors
    having the same size. *)
Fixpoint examine_all (block_height : Z) (tx_meta_ids : list string)
    (signature_statuses : list (option SolanaSignatureStatus))
  : M unit :=
  match tx_meta_ids, signature_statuses with
  | i :: ids, s :: sts =>
      let* _ := examine block_height i s in
      examine_all block_height ids sts
  | _, _ => ret tt
  end.

Definition OnGetSignatureStatuses (chain : string)
    (tx_meta_ids : list string) (block_height : Z)
    (signature_statuses : list (option SolanaSignatureStatus))
    (error : SolanaProviderError) (error_message : string) : M unit :=
  if negb (is_success error) then ret tt
  else if negb (length tx_meta_ids =? length signature_statuses)%nat
  then ret tt
  else examine_all block_height tx_meta_ids signature_statuses.

(** [GetSolanaSignatureStatuses] is given [OnGetSignatureStatuses], bound
    to the chain, the ids collected and the block height, as the callback
    of the RPC.  Here the answer of the collaborator is delivered at
    once, which is one of the orders the source allows: in general other
    calls of the manager run between the request and its answer.  What
    has to hold in any order is stated of [OnGetSignatureStatuses]
    itself, on any store. *)
Definition OnGetBlockHeight (chain : string) (block_height : Z)
    (error : SolanaProviderError) (error_message : string) : M unit :=
  if negb (is_success error) then ret tt
  else
    let* pending_transactions :=
      GetTransactionsByStatus (Some chain) Submitted in
    let tx_meta_ids := map id pending_transactions in
    let tx_signatures := map tx_hash pending_transactions in
    let* _ := emit (CallGetSolanaSignatureStatuses chain tx_signatures) in
    let '(statuses, e, msg) :=
      GetSolanaSignatureStatuses env chain tx_signatures in
    OnGetSignatureStatuses chain tx_meta_ids block_height statuses e msg.

(** One block-height round trip for [chain] and its continuation.
    [GetSolanaBlockHeight] is given [OnGetBlockHeight], bound to the
    chain, as the callback of the RPC, and the caller goes on.  Here the
    answer is delivered at once, and through it the answer to the status
    request: the round runs on the store of the moment of the call, which
    is one of the orders the source allows.  A property of a round that
    has to hold in any order is stated of the callbacks themselves, on
    any store. *)
Definition query_chain (chain : string) : M unit :=
  let* _ := emit (CallGetSolanaBlockHeight chain) in
  let '(height, e, msg) := GetSolanaBlockHeight env chain in
  OnGetBlockHeight chain height e msg.

(** The loop of [UpdatePendingTransactions(std::nullopt)] over the
    pending transactions, skipping the chains already queried. *)
Fixpoint query_pending (pending : list SolanaTxMeta)
    (pending_chain_ids : list string) : M unit :=
  match pending with
  | [] => ret tt
  | m :: rest =>
      if existsb (String.eqb (chain_id m)) pending_chain_ids
      then query_pending rest pending_chain_ids
      else
        let* _ := query_chain (chain_id m) in
        query_pending rest (pending_chain_ids ++ [chain_id m])
  end.

(** [CheckIfBlockTrackerShouldRun] and the member [pending_chain_ids_] it is
    given belong to the base class [TxManager], which is not among the
    sources: the call is recorded without its argument. *)
Definition UpdatePendingTransactions (chain : option string) : M unit :=
  let* _ :=
    match chain with
    | Some c => query_chain c
    | None =>
        let* pending_transactions :=
          GetTransactionsByStatus None Submitted in
        query_pending pending_transactions []
    end in
  emit CallCheckIfBlockTrackerShouldRun.

(** *** Approval *)

(** What [ApproveTransactionCallback] is run with. *)
Definition ApproveResult : Type := bool * SolanaProviderError * string.

Definition OnSendSolanaTransaction (tx_meta_id tx_hash : string)
    (error : SolanaProviderError) (error_message : string)
  : M ApproveResult :=
  let* meta := GetSolanaTx tx_meta_id in
  match meta with
  | None =>
      ret (false, kInternalError, IDS_BRAVE_WALLET_TRANSACTION_NOT_FOUND)
  | Some meta =>
      let success := is_success error in
      let* now := Now in
      let meta :=
        if success
        then set_tx_hash tx_hash
               (set_submitted_time now (set_status Submitted meta))
        else set_status Error meta in
      let* ok := AddOrUpdateTx meta in
      if negb ok
      then ret (false, kInternalError, IDS_WALLET_INTERNAL_ERROR)
      else
        let* _ :=
          if success
          then UpdatePendingTransactions (Some (chain_id meta))
          else ret tt in
        ret (empty error_message, error, error_message)
  end.

(** [set_recent_blockhash(latest_blockhash);
     set_last_valid_block_height(last_valid_block_height);] on the
    message of [meta]. *)
Definition set_blockhash_and_height (latest_blockhash : string)
    (last_valid : Z) (meta : SolanaTxMeta) : SolanaTxMeta :=
  with_tx (with_message (set_last_valid_block_height last_valid))
    (with_tx (with_message (set_recent_blockhash latest_blockhash))
       meta).

Definition OnGetLatestBlockhash (meta : SolanaTxMeta)
    (latest_blockhash : string) (last_valid : Z)
    (error : SolanaProviderError) (error_message : string)
  : M ApproveResult :=
  if negb (is_success error) then ret (false, error, error_message)
  else
    let meta := set_status Approved meta in
    let meta := set_blockhash_and_height latest_blockhash last_valid meta in
    let* ok := AddOrUpdateTx meta in
    if negb ok
    then ret (false, kInternalError, IDS_WALLET_INTERNAL_ERROR)
    else
      let signed := GetSignedTransaction env (tx meta) (from meta) in
      let* _ := emit (CallSendSolanaTransaction (chain_id meta) signed) in
      let '(hash, e, msg) :=
        SendSolanaTransaction env (chain_id meta) signed in
      OnSendSolanaTransaction (id meta) hash e msg.

Definition OnGetBlockHeightForBlockhash (meta : SolanaTxMeta)
    (blockhash : string) (block_height : Z)
    (error : SolanaProviderError) (error_message : string)
  : M ApproveResult :=
  if negb (is_success error) then ret (false, error, error_message)
  else
    OnGetLatestBlockhash meta blockhash
      (wrap64 (block_height + kValidBlockHeightThreshold)) kSuccess "".

(** [DCHECK(false)] on a missing meta does nothing in a release build; the
    callback is then run with the internal error. *)
Definition ApproveTransaction (tx_meta_id : string) : M ApproveResult :=
  let* meta := GetSolanaTx tx_meta_id in
  match meta with
  | None =>
      ret (false, kInternalError, IDS_BRAVE_WALLET_TRANSACTION_NOT_FOUND)
  | Some meta =>
      let blockhash := blockhash_of meta in
      let chain := chain_id meta in
      if empty blockhash then
        let* _ := emit (CallGetLatestBlockhash chain true) in
        let '(latest, last_valid, e, msg) :=
          GetLatestBlockhash env chain in
        OnGetLatestBlockhash meta latest last_valid e msg
      else
        let* _ := emit (CallGetSolanaBlockHeight chain) in
        let '(height, e, msg) := GetSolanaBlockHeight env chain in
        OnGetBlockHeightForBlockhash meta blockhash height e msg
  end.

(** *** Message to sign for a hardware wallet *)

Definition OnGetLatestBlockhashHardware (meta : SolanaTxMeta)
    (latest_blockhash : string) (last_valid : Z)
    (error : SolanaProviderError) (error_message : string)
  : M (option (list byte)) :=
  if negb (is_success error) then ret None
  else
    let meta := set_blockhash_and_height latest_blockhash last_valid meta in
    let* ok := AddOrUpdateTx meta in
    if negb ok then ret None
    else ret (GetSerializedMessage env (tx meta)).

Definition OnGetBlockHeightForBlockhashHardware (meta : SolanaTxMeta)
    (blockhash : string) (block_height : Z)
    (error : SolanaProviderError) (error_message : string)
  : M (option (list byte)) :=
  if negb (is_success error) then ret None
  else
    OnGetLatestBlockhashHardware meta blockhash
      (wrap64 (block_height + kValidBlockHeightThreshold)) kSuccess "".

Definition GetTransactionMessageToSign (tx_meta_id : string)
  : M (option (list byte)) :=
  let* meta := GetSolanaTx tx_meta_id in
  match meta with
  | None => ret None
  | Some meta =>
      let blockhash := blockhash_of meta in
      let chain := chain_id meta in
      if empty blockhash then
        let* _ := emit (CallGetLatestBlockhash chain true) in
        let '(latest, last_valid, e, msg) :=
          GetLatestBlockhash env chain in
        OnGetLatestBlockhashHardware meta latest last_valid e msg
      else
        let* _ := emit (CallGetSolanaBlockHeight chain) in
        let '(height, e, msg) := GetSolanaBlockHeight env chain in
        OnGetBlockHeightForBlockhashHardware meta blockhash height e msg
  end.

(** *** Retry *)

(** What [RetryTransactionCallback] is run with. *)
Definition RetryResult : Type := bool * string * string.

(** The fields [RetryTransaction] resets on its copy of the meta, given
    the id and the time it obtained. *)
Definition retried (new_id : string) (now : Z) (meta : SolanaTxMeta)
  : SolanaTxMeta :=
  let meta :=
    if negb (UsesDurableNonce env (message (tx meta))) then
      let meta := with_tx (with_message (set_recent_blockhash "")) meta in
      with_tx (set_sign_tx_param None) meta
    else meta in
  let meta := with_tx (with_message (set_last_valid_block_height 0)) meta in
  let meta := set_id new_id meta in
  let meta := set_status Unapproved meta in
  let meta := set_created_time now meta in
  let meta := set_submitted_time 0 meta in
  let meta := set_confirmed_time 0 meta in
  let meta := set_tx_hash "" meta in
  let meta := set_signature_status no_signature_status meta in
  with_tx ClearRawSignatures meta.

Definition RetryTransaction (tx_meta_id : string) : M RetryResult :=
  let* meta := GetSolanaTx tx_meta_id in
  match meta with
  | None => ret (false, "", IDS_BRAVE_WALLET_TRANSACTION_NOT_FOUND)
  | Some meta =>
      if negb (IsRetriable env meta)
      then ret (false, "", IDS_BRAVE_WALLET_TRANSACTION_NOT_RETRIABLE)
      else
        let* new_id := GenerateMetaID in
        let* now := Now in
        let meta := retried new_id now meta in
        let* ok := AddOrUpdateTx meta in
        if negb ok then ret (false, "", IDS_WALLET_INTERNAL_ERROR)
        else ret (true, id meta, "")
  end.

(** *** Fee estimation *)

(** What [GetEstimatedTxFeeCallback] is run with. *)
Definition FeeResult : Type := Z * SolanaProviderError * string.

Definition OnGetLatestBlockhashForGetEstimatedTxFee (meta : SolanaTxMeta)
    (latest_blockhash : string) (last_valid : Z)
    (error : SolanaProviderError) (error_message : string)
  : M FeeResult :=
  if negb (is_success error) then ret (0, error, error_message)
  else
    let meta := set_blockhash_and_height latest_blockhash last_valid meta in
    let base64_encoded_message := GetBase64EncodedMessage env (tx meta) in
    let* _ :=
      emit (CallGetSolanaFeeForMessage (chain_id meta)
              base64_encoded_message) in
    ret (GetSolanaFeeForMessage env (chain_id meta)
           base64_encoded_message).

Definition GetEstimatedTxFee (tx_meta_id : string) : M FeeResult :=
  let* meta := GetSolanaTx tx_meta_id in
  match meta with
  | None =>
      ret (0, kInternalError, IDS_BRAVE_WALLET_TRANSACTION_NOT_FOUND)
  | Some meta =>
      let chain := chain_id meta in
      let* _ := emit (CallGetLatestBlockhash chain true) in
      let '(latest, last_valid, e, msg) := GetLatestBlockhash env chain in
      OnGetLatestBlockhashForGetEstimatedTxFee meta latest last_valid e msg
  end.

End WithCollaborators.

(** *** Notions used to state the properties of the manager *)

(** The store files every meta under its own id. *)
Definition keyed (s : gmap string SolanaTxMeta) : Prop :=
  forall k m, s !! k = Some m -> id m = k.

(** The ids in use were issued by a generator that never repeats an id:
    [TxMeta::GenerateMetaID] returns a random UUID. *)
Definition ids_issued (env : Collaborators) (w : World) : Prop :=
  (forall n m : nat, meta_id env n = meta_id env m -> n = m) /\
  forall k, is_Some (store w !! k) ->
            exists n : nat, (n < generated_ids w)%nat /\ k = meta_id env n.

(** The invariant of the spec's Message: the blockhash is empty exactly when
    the last valid block height is 0. *)
Definition set_together (m : SolanaMessage) : Prop :=
  recent_blockhash m = "" <-> last_valid_block_height m = 0.

(** In world [w] the store is keyed and holds under [k] a meta that
    satisfies [P]. *)
Definition entry_satisfies (k : string) (P : SolanaTxMeta -> Prop)
    (w : World) : Prop :=
  keyed (store w) /\ exists m, store w !! k = Some m /\ P m.

(** [P] survives every rewrite of a meta that keeps its transaction and
    moves it to Dropped only from a non-zero last valid block height. *)
Definition reconciliation_stable (P : SolanaTxMeta -> Prop) : Prop :=
  forall m m',
    tx m' = tx m ->
    (status m' = Dropped -> status m = Dropped \/ height_of m <> 0) ->
    P m -> P m'.

(** Calls that fetch a blockhash from the block tracker. *)
Definition fetches_blockhash (e : Event) : bool :=
  match e with
  | CallGetLatestBlockhash _ _ => true
  | _ => false
  end.

(** [m] only appends calls to the trace, none of which fetches a
    blockhash. *)
Definition appends_quietly {A} (m : M A) : Prop :=
  forall w, exists evs,
    trace (snd (m w)) = trace w ++ evs /\
    Forall (fun e => fetches_blockhash e = false) evs.

(** *** A sample world *)

(** The first instruction of a message that uses a durable nonce:
    [AdvanceNonceAccount] of the system program (instruction index 4). *)
Definition advance_nonce : SolanaInstruction :=
  {| program_id := kSolanaSystemProgramId;
     accounts := [];
     data := map byte_of_Z [4; 0; 0; 0] |}.

Definition first_is_advance_nonce (m : SolanaMessage) : bool :=
  match instructions m with
  | i :: _ =>
      String.eqb (program_id i) kSolanaSystemProgramId
      && (le_value (data i) =? 4)
  | [] => false
  end.

(** Collaborators that always answer: blockhash "latest" valid up to height
    1150, block height 1000, every transaction accepted under the hash
    "sig", no signature status known yet, storage that accepts every
    write. *)
Definition sample_env : Collaborators :=
  {| GetLatestBlockhash := fun _ => ("latest", 1150, kSuccess, "");
     GetSolanaBlockHeight := fun _ => (1000, kSuccess, "");
     SendSolanaTransaction := fun _ _ => ("sig", kSuccess, "");
     GetSolanaSignatureStatuses :=
       fun _ hashes => (map (fun _ => None) hashes, kSuccess, "");
     GetSolanaFeeForMessage := fun _ _ => (5000, kSuccess, "");
     storage_accepts := fun _ => true;
     IsRetriable :=
       fun m => status_eqb (status m) Error || status_eqb (status m) Dropped;
     UsesDurableNonce := first_is_advance_nonce;
     GetSignedTransaction := fun t _ => recent_blockhash (message t);
     GetBase64EncodedMessage := fun t => recent_blockhash (message t);
     GetSerializedMessage := fun _ => Some [];
     meta_id := fun n => String (ascii_of_nat (65 + n)) "" |}.

Definition sample_meta (i : string) (s : TransactionStatus)
    (blockhash : string) (last_valid : Z) (ins : list SolanaInstruction)
  : SolanaTxMeta :=
  {| id := i; status := s; chain_id := "0x65"; from := "account";
     created_time := 10; submitted_time := 20; confirmed_time := 0;
     tx_hash := "hash-" ++ i; signature_status := no_signature_status;
     tx := {| message := {| recent_blockhash := blockhash;
                            last_valid_block_height := last_valid;
                            fee_payer := "account";
                            instructions := ins |};
              sign_tx_param := Some "param";
              raw_signatures := [x01] |} |}.

Definition world_of (metas : list SolanaTxMeta) : World :=
  {| store := list_to_map (map (fun m => (id m, m)) metas);
     trace := []; clock := 100; generated_ids := 0 |}.

(** [sample_env] with a generator that never repeats an id: the n-th id
    is made of n letters. *)
Definition counting_env : Collaborators :=
  {| GetLatestBlockhash := GetLatestBlockhash sample_env;
     GetSolanaBlockHeight := GetSolanaBlockHeight sample_env;
     SendSolanaTransaction := SendSolanaTransaction sample_env;
     GetSolanaSignatureStatuses := GetSolanaSignatureStatuses sample_env;
     GetSolanaFeeForMessage := GetSolanaFeeForMessage sample_env;
     storage_accepts := storage_accepts sample_env;
     IsRetriable := IsRetriable sample_env;
     UsesDurableNonce := UsesDurableNonce sample_env;
     GetSignedTransaction := GetSignedTransaction sample_env;
     GetBase64EncodedMessage := GetBase64EncodedMessage sample_env;
     GetSerializedMessage := GetSerializedMessage sample_env;
     meta_id := fun n => string_of_list_ascii (repeat "a"%char n) |}.


End TxManager.

(** ** NFTDiscoveryClient: the page parser declared in simple_hash_client.h *)

Module SimpleHash.

Local Set Warnings "-register-all".

(** A [base::Value]. *)
Inductive Json :=
| JNull
| JBool (b : bool)
| JInt (n : Z)
| JString (s : string)
| JList (items : list Json)
| JDict (fields : list (string * Json)).

(** [mojom::CoinType]. *)
Inductive CoinType := ETH | SOL | FIL.

(** [mojom::BlockchainToken], the fields of the spec's NFTRecord. *)
Record NFTRecord := {
  chain_id : string;
  contract_address : string;
  token_id : string;
  name : string;
  symbol : string;
  logo : string;
  is_erc20 : bool;
  is_erc721 : bool;
  is_erc1155 : bool;
  is_nft : bool;
  is_compressed : bool;
  is_spam : bool;
  coin : CoinType
}.

Fixpoint find_key (key : string) (fields : list (string * Json))
  : option Json :=
  match fields with
  | [] => None
  | (k, v) :: rest => if String.eqb k key then Some v else find_key key rest
  end.

Definition FindString (key : string) (fields : list (string * Json))
  : option string :=
  match find_key key fields with
  | Some (JString s) => Some s
  | _ => None
  end.

Definition FindDict (key : string) (fields : list (string * Json))
  : option (list (string * Json)) :=
  match find_key key fields with
  | Some (JDict d) => Some d
  | _ => None
  end.

Definition FindInt (key : string) (fields : list (string * Json))
  : option Z :=
  match find_key key fields with
  | Some (JInt n) => Some n
  | _ => None
  end.

Definition string_or_empty (o : option string) : string :=
  match o with
  | Some s => s
  | None => ""
  end.

(** Modelled from the spec: the table from indexer chain slugs to chain
    ids is not among the sources; these are the slugs and chains of
    simple_hash_client_unittest.cc. *)
Definition chain_of_slug (slug : string) : option string :=
  if String.eqb slug "ethereum" then Some "0x1"
  else if String.eqb slug "polygon" then Some "0x89"
  else if String.eqb slug "optimism" then Some "0xa"
  else if String.eqb slug "solana" then Some "0x65"
  else None.

Definition decimal_digit (c : ascii) : option Z :=
  let n := Z.of_nat (nat_of_ascii c) in
  if (48 <=? n) && (n <=? 57) then Some (n - 48) else None.

Fixpoint parse_decimal (cs : list ascii) (acc : Z) : option Z :=
  match cs with
  | [] => Some acc
  | c :: rest =>
      match decimal_digit c with
      | Some d => parse_decimal rest (acc * 10 + d)
      | None => None
      end
  end.

Definition hex_char (d : Z) : ascii :=
  nth (Z.to_nat d) (list_ascii_of_string "0123456789abcdef") "0"%char.

(** The "hexadecimal-prefixed" text of a token id. *)
Definition hex_of (n : Z) : string :=
  if n <=? 0 then "0x0"
  else
    "0x" ++ string_of_list_ascii
              (map hex_char
                 (Base58.digits (S (Z.to_nat (Z.log2 n))) 16 n [])).

(** The token id of an element: numeric ids and decimal strings are
    re-encoded in hexadecimal; on Solana the id is the empty string. *)
Definition parse_token_id (c : CoinType) (fields : list (string * Json))
  : option string :=
  match c with
  | SOL => Some ""
  | _ =>
      match find_key "token_id" fields with
      | Some (JInt n) => Some (hex_of n)
      | Some (JString s) =>
          match s with
          | EmptyString => None
          | _ => option_map hex_of (parse_decimal (list_ascii_of_string s) 0)
          end
      | _ => None
      end
  end.

(** The flags [(is_erc20, is_erc721, is_erc1155)] of a contract type. *)
Definition contract_flags (type : string) : option (bool * bool * bool) :=
  if String.eqb type "ERC20" then Some (true, false, false)
  else if String.eqb type "ERC721" then Some (false, true, false)
  else if String.eqb type "ERC1155" then Some (false, false, true)
  else if String.eqb type "NonFungible"
          || String.eqb type "NonFungibleEdition"
          || String.eqb type "ProgrammableNonFungible"
  then Some (false, false, false)
  else None.

Definition compressed (fields : list (string * Json)) : bool :=
  match FindDict "extra_metadata" fields with
  | Some extra =>
      match FindDict "compression" extra with
      | Some c =>
          match find_key "compressed" c with
          | Some (JBool b) => b
          | _ => false
          end
      | None => false
      end
  | None => false
  end.

(** One element of [nfts]: the record and the spam score of its
    collection, or nothing when a required field is missing. *)
Definition parse_nft (c : CoinType) (e : Json) : option (NFTRecord * Z) :=
  match e with
  | JDict fields =>
      match FindDict "collection" fields with
      | None => None
      | Some collection =>
      match FindInt "spam_score" collection with
      | None => None
      | Some spam_score =>
      match FindString "chain" fields with
      | None => None
      | Some slug =>
      match chain_of_slug slug with
      | None => None
      | Some chain =>
      match FindString "contract_address" fields with
      | None => None
      | Some address =>
      match parse_token_id c fields with
      | None => None
      | Some token =>
      match FindDict "contract" fields with
      | None => None
      | Some contract =>
      match FindString "type" contract with
      | None => None
      | Some type =>
      match contract_flags type with
      | None => None
      | Some (erc20, erc721, erc1155) =>
          Some ({| chain_id := chain;
                   contract_address := address;
                   token_id := token;
                   name := string_or_empty (FindString "name" fields);
                   symbol := string_or_empty (FindString "symbol" contract);
                   logo := string_or_empty (FindString "image_url" fields);
                   is_erc20 := erc20;
                   is_erc721 := erc721;
                   is_erc1155 := erc1155;
                   is_nft := true;
                   is_compressed := compressed fields;
                   is_spam := false;
                   coin := c |},
                spam_score)
      end end end end end end end end end
  | _ => None
  end.

(** A record is spam when the spam score of its collection is positive. *)
Definition spam (scored : NFTRecord * Z) : bool := 0 <? snd scored.

(** The spam filter of the two flags. *)
Definition kept (skip_spam only_spam : bool) (scored : NFTRecord * Z)
  : bool :=
  negb (skip_spam && spam scored) && negb (only_spam && negb (spam scored)).

Fixpoint parse_all (c : CoinType) (nfts : list Json)
  : list (NFTRecord * Z) :=
  match nfts with
  | [] => []
  | e :: rest =>
      match parse_nft c e with
      | Some r => r :: parse_all c rest
      | None => parse_all c rest
      end
  end.

(** Modelled from the spec: the body of
    [SimpleHashClient::ParseNFTsFromSimpleHash] (simple_hash_client.cc) is
    not among the sources; only its declaration and its unit test are.
    Section 4.3 of the spec: the two flags set together yield no result;
    the top level must be an object with an array field [nfts]; an
    element missing a required field is dropped without failing the page;
    [next_cursor] absent or null gives no cursor. *)
Definition ParseNFTsFromSimpleHash (json_value : Json) (c : CoinType)
    (skip_spam only_spam : bool)
  : option (option string * list NFTRecord) :=
  match c with
  | FIL => None
  | _ =>
      if skip_spam && only_spam then None
      else
        match json_value with
        | JDict dict =>
            match find_key "nfts" dict with
            | Some (JList nfts) =>
                Some (FindString "next_cursor" dict,
                      map fst
                        (List.filter (kept skip_spam only_spam)
                           (parse_all c nfts)))
            | _ => None
            end
        | _ => None
        end
  end.

(** The page of simple_hash_client_unittest.cc with one spam and one
    non-spam Solana NFT (lines 650-694). *)
Definition spam_test_page : Json :=
  JDict
    [ ("next", JNull); ("previous", JNull);
      ("nfts",
       JList
         [ JDict
             [ ("chain", JString "solana");
               ("contract_address",
                JString "AvdAUsR4qgsT5HgyKCVeGjimmyu8xrG3RudFqm5txDDE");
               ("token_id", JNull);
               ("name", JString "y00t #2623");
               ("image_url",
                JString
                  "https://cdn.simplehash.com/assets/dc78fa011ba46fa12.png");
               ("status", JString "minted");
               ("contract",
                JDict [ ("type", JString "NonFungible");
                        ("name", JString "y00t #2623");
                        ("symbol", JString "Y00T") ]);
               ("collection", JDict [ ("spam_score", JInt 100) ]);
               ("extra_metadata", JDict [ ("is_mutable", JBool true) ]) ];
           JDict
             [ ("nft_id",
                JString
                  "solana.BHWBJ7XtBqJJbg9SrAUH4moeF8VpJo3WXyDh6vc1qqLG");
               ("chain", JString "solana");
               ("contract_address",
                JString "BHWBJ7XtBqJJbg9SrAUH4moeF8VpJo3WXyDh6vc1qqLG");
               ("token_id", JNull);
               ("name", JString "Mad Lads #8752");
               ("contract",
                JDict [ ("type", JString "ProgrammableNonFungible");
                        ("name", JString "Mad Lad #8752");
                        ("symbol", JString "MAD");
                        ("deployed_by", JNull);
                        ("deployed_via_contract", JNull) ]);
               ("collection", JDict [ ("spam_score", JInt 0) ]) ] ]) ].

End SimpleHash.

(** ** InstructionBuilder: the system, token and associated-token-account
    programs of solana_instruction_builder.cc *)

(** [SolanaAccountMeta(pubkey, std::nullopt, is_signer, is_writable)]. *)
Definition account_meta (key : string) (signer writable : bool)
  : Builder.SolanaAccountMeta :=
  {| Builder.pubkey := key;
     Builder.address_table_lookup_index := None;
     Builder.is_signer := signer;
     Builder.is_writable := writable |}.

(** The public keys of the accounts that must sign an instruction, in the
    order of its account list. *)
Definition signers (i : Builder.SolanaInstruction) : list string :=
  map Builder.pubkey (List.filter Builder.is_signer (Builder.accounts i)).

(** The public keys of the accounts an instruction may write. *)
Definition writable (i : Builder.SolanaInstruction) : list string :=
  map Builder.pubkey (List.filter Builder.is_writable (Builder.accounts i)).

(** The three hashes of a proof record are base-58 texts of 32 bytes. *)
Definition hashes_decode (p : Builder.SolCompressedNftProofData) : Prop :=
  exists r d c,
    Base58.Base58Decode (Builder.root p) 32 = Some r /\
    Base58.Base58Decode (Builder.data_hash p) 32 = Some d /\
    Base58.Base58Decode (Builder.creator_hash p) 32 = Some c.

(** Modelled from the spec: the program ids and the instruction indices of
    brave_wallet.mojom are not among the sources; the spec only names the
    programs.  The values are those of the Solana programs; the properties
    below are stated for the constants, whatever their value. *)
Definition kSolanaTokenProgramId : string :=
  "TokenkegQfeZyiNwAJbNbGKPFXCWuBvf9Ss623VQ5DA".
Definition kSolanaAssociatedTokenProgramId : string :=
  "ATokenGPvbdGVxr1b2hvZbsiqW5xWH25efTNsLJA8knL".

Module system_program.
Import Builder.

(** [mojom::SolanaSystemInstruction::kTransfer]. *)
Definition kTransfer : Z := 2.

(** [solana::system_program::Transfer]; [lamport] is a [uint64_t]. *)
Definition Transfer (from_pubkey to_pubkey : string) (lamport : Z)
  : option SolanaInstruction :=
  if empty from_pubkey || empty to_pubkey then None
  else
    let instruction_data := UintToLEBytes 4 (wrap32 kTransfer) in
    let lamport_bytes := UintToLEBytes 8 lamport in
    let instruction_data := instruction_data ++ lamport_bytes in
    Some {| program_id := kSolanaSystemProgramId;
            accounts := [account_meta from_pubkey true true;
                         account_meta to_pubkey false true];
            data := instruction_data |}.

End system_program.

Module spl_token_program.
Import Builder.

(** [mojom::SolanaTokenInstruction::kTransfer]. *)
Definition kTransfer : Z := 3.

(** [for (const auto& signer_pubkey : signer_pubkeys)
       account_metas.emplace_back(signer_pubkey, std::nullopt, true, false);] *)
Definition push_signers (signer_pubkeys : list string)
    (account_metas : list SolanaAccountMeta) : list SolanaAccountMeta :=
  fold_left (fun metas signer_pubkey =>
               metas ++ [account_meta signer_pubkey true false])
    signer_pubkeys account_metas.

(** [solana::spl_token_program::Transfer]; [amount] is a [uint64_t]. *)
Definition Transfer (token_program_id source_pubkey destination_pubkey
                       authority_pubkey : string)
    (signer_pubkeys : list string) (amount : Z)
  : option SolanaInstruction :=
  if empty token_program_id || empty source_pubkey
     || empty destination_pubkey || empty authority_pubkey
  then None
  else
    let instruction_data := [byte_of_Z kTransfer] in
    let amount_bytes := UintToLEBytes 8 amount in
    let instruction_data := instruction_data ++ amount_bytes in
    let account_metas :=
      [account_meta source_pubkey false true;
       account_meta destination_pubkey false true;
       account_meta authority_pubkey
         (match signer_pubkeys with [] => true | _ :: _ => false end)
         false] in
    let account_metas := push_signers signer_pubkeys account_metas in
    Some {| program_id := token_program_id;
            accounts := account_metas;
            data := instruction_data |}.

End spl_token_program.

Module spl_associated_token_account_program.
Import Builder.

(** [solana::spl_associated_token_account_program::
     CreateAssociatedTokenAccount]. *)
Definition CreateAssociatedTokenAccount
    (funding_address wallet_address associated_token_account_address
       spl_token_mint_address : string)
  : option SolanaInstruction :=
  if empty funding_address || empty wallet_address
     || empty associated_token_account_address
     || empty spl_token_mint_address
  then None
  else
    let account_metas :=
      [account_meta funding_address true true;
       account_meta associated_token_account_address false true;
       account_meta wallet_address false false;
       account_meta spl_token_mint_address false false;
       account_meta kSolanaSystemProgramId false false;
       account_meta kSolanaTokenProgramId false false] in
    Some {| program_id := kSolanaAssociatedTokenProgramId;
            accounts := account_metas;
            data := [] |}.

End spl_associated_token_account_program.

(** ** TransactionManager: adding a transaction and the hardware
    signature, solana_tx_manager.cc lines 136-167 and 1048-1110 *)

Module Submission.
Import Builder TxManager.




(** The methods of [SolanaTransaction] and of base/base64.h that the two
    functions call and whose definitions are not among the sources, taken
    as parameters; [TxData] stands for [mojom::SolanaTxDataPtr]. *)
Record Signing (TxData : Type) := {
  FromSolanaTxData : TxData -> option SolanaTransaction;
  GetSignedTransactionBytes :
    SolanaTransaction -> string -> list byte -> option (list byte);
  Base64Encode : list byte -> string
}.
Arguments FromSolanaTxData {TxData}.
Arguments GetSignedTransactionBytes {TxData}.
Arguments Base64Encode {TxData}.

Section WithSigning.
Variable env : Collaborators.
Context {TxData : Type}.
Variable signing : Signing TxData.


(** [SolanaTxManager::ProcessSolanaHardwareSignature]. *)
Definition ProcessSolanaHardwareSignature (tx_meta_id : string)
    (signature_bytes : list byte) : M ApproveResult :=
  let* meta := GetSolanaTx tx_meta_id in
  match meta with
  | None =>
      ret (false, kInternalError, IDS_BRAVE_WALLET_TRANSACTION_NOT_FOUND)
  | Some meta =>
      match GetSignedTransactionBytes signing (tx meta) (from meta)
              signature_bytes with
      | None => ret (false, kInternalError, IDS_WALLET_INTERNAL_ERROR)
      | Some transaction_bytes =>
          let meta := set_status Approved meta in
          let* ok := AddOrUpdateTx env meta in
          if negb ok
          then ret (false, kInternalError, IDS_WALLET_INTERNAL_ERROR)
          else
            let encoded := Base64Encode signing transaction_bytes in
            let* _ :=
              emit (CallSendSolanaTransaction (chain_id meta) encoded) in
            let '(hash, e, msg) :=
              SendSolanaTransaction env (chain_id meta) encoded in
            OnSendSolanaTransaction env (id meta) hash e msg
      end
  end.

(** [SolanaTxManager::OnLatestBlockhashUpdated]. *)
Definition OnLatestBlockhashUpdated (chain blockhash : string)
    (last_valid : Z) : M unit :=
  UpdatePendingTransactions env (Some chain).

End WithSigning.

(** Calls that send a transaction to the network. *)
Definition sends_transaction (e : Event) : bool :=
  match e with
  | CallSendSolanaTransaction _ _ => true
  | _ => false
  end.

(** Calls that write to the transaction store. *)
Definition writes_store (e : Event) : bool :=
  match e with
  | CallAddOrUpdateTx _ _ => true
  | _ => false
  end.

(** Calls that ask for the block height of a chain. *)
Definition asks_height (e : Event) : bool :=
  match e with
  | CallGetSolanaBlockHeight _ => true
  | _ => false
  end.

(** The chains whose block height the calls of a trace ask for, in the
    order of the calls. *)
Fixpoint height_queries (evs : list Event) : list string :=
  match evs with
  | [] => []
  | CallGetSolanaBlockHeight c :: evs' => c :: height_queries evs'
  | _ :: evs' => height_queries evs'
  end.

(** What reconciliation may do to a stored meta: the lifecycle state stays
    or becomes Dropped, Error or Confirmed; the signature status and the
    confirmation time may change; everything else stays. *)
Definition reconciled (m m' : SolanaTxMeta) : Prop :=
  id m' = id m /\ chain_id m' = chain_id m /\ from m' = from m /\
  created_time m' = created_time m /\
  submitted_time m' = submitted_time m /\
  tx_hash m' = tx_hash m /\ tx m' = tx m /\
  (status m' = status m \/ status m' = Dropped \/ status m' = Error \/
   status m' = Confirmed).

(** Every entry of the store [s] is still in [s'], reconciled, and [s']
    has no other entry. *)
Definition store_reconciled (s s' : gmap string SolanaTxMeta) : Prop :=
  forall k,
    match s !! k with
    | None => s' !! k = None
    | Some m => exists m', s' !! k = Some m' /\ reconciled m m'
    end.

(** [m] only appends calls to the trace, and the calls it appends
    satisfy [Q]. *)
Definition appends {A} (Q : list Event -> Prop) (m : M A) : Prop :=
  forall w, exists evs, trace (snd (m w)) = trace w ++ evs /\ Q evs.

(** A stored transaction is waiting for its confirmation on [chain]. *)
Definition pending_on (chain : string) (w : World) : Prop :=
  exists k m,
    store w !! k = Some m /\ status m = Submitted /\ chain_id m = chain.

(** A signing collaborator over transaction data that is the transaction
    itself: the signed bytes are the signature followed by one byte per
    character of the blockhash. *)
Definition sample_signing : Signing SolanaTransaction :=
  {| FromSolanaTxData := fun t => Some t;
     GetSignedTransactionBytes :=
       fun t _ signature =>
         Some (signature
               ++ map (fun _ => x00)
                    (list_ascii_of_string (recent_blockhash (message t))));
     Base64Encode := fun bs => string_of_list_ascii (map (fun _ => "A"%char) bs) |}.

End Submission.

(** ** TransactionManager: building transaction data, solana_tx_manager.cc
    lines 549-629, 670-773 and 923-996 *)

(** [struct SolanaAccountInfo] of brave_wallet_types.h: the fields the
    manager reads. *)
Module AccountInfo.
Record SolanaAccountInfo := {
  owner : string;
  data : string
}.
End AccountInfo.

Module TxData.
Import Builder TxManager.

(** [mojom::TransactionType]: the types the manager sets. *)
Inductive TransactionType :=
| SolanaSystemTransfer
| SolanaSPLTokenTransfer
| SolanaSPLTokenTransferWithAssociatedTokenAccountCreation
| SolanaCompressedNftTransfer.

(** What [transaction.ToSolanaTxData()] is built from: the message the
    [SolanaTransaction] was constructed with and the fields the manager
    set on it before the conversion, [None] standing for a field the
    manager did not set.  [ToSolanaTxData] itself is not among the
    sources. *)
Record SolanaTxData := {
  msg : SolanaMessage;
  to_wallet_address : string;
  tx_type : TransactionType;
  lamports : option Z;
  spl_token_mint_address : option string;
  amount : option Z
}.

(** What a [Make...TxDataCallback] is run with, or [Undefined] when the
    function reads through an empty [std::optional] or outside a vector
    before it runs the callback. *)
Inductive MakeResult :=
| Ran (tx_data : option SolanaTxData) (error : SolanaProviderError)
      (error_message : string)
| Undefined.

(** The requests the functions send, in the order they send them. *)
Inductive Request :=
| CallFetchSolCompressedNftProofData (token_address : string)
| CallGetSolanaAccountInfo (chain pubkey : string).

(** The collaborators of the functions that build transaction data, whose
    definitions are not among the sources: the registry of sanctioned
    addresses, the derivation of associated token accounts, the account
    RPC, the proof service, base64 and the constructor of legacy
    messages. *)
Record Services := {
  IsOfacAddress : string -> bool;
  GetAssociatedTokenAccount : string -> string -> option string;
  GetSolanaAccountInfo :
    string -> string ->
    option AccountInfo.SolanaAccountInfo * SolanaProviderError * string;
  FetchSolCompressedNftProofData :
    string -> option SolCompressedNftProofData;
  Base64Decode : string -> option (list byte);
  CreateLegacyMessage :
    string -> Z -> string -> list SolanaInstruction -> option SolanaMessage
}.

(** [mojom::kSolanaMainnet]. *)
Definition kSolanaMainnet : string := "0x65".

Definition IDS_WALLET_OFAC_RESTRICTION : string :=
  "IDS_WALLET_OFAC_RESTRICTION".

Definition internal_error : MakeResult :=
  Ran None kInternalError IDS_WALLET_INTERNAL_ERROR.

Section WithServices.
Variable services : Services.

(** [SolanaTxManager::MakeSystemProgramTransferTxData]. *)
Definition MakeSystemProgramTransferTxData (from_account to : string)
    (lamports_to_send : Z) : MakeResult :=
  if IsOfacAddress services to
  then Ran None kInvalidParams IDS_WALLET_OFAC_RESTRICTION
  else
    match system_program.Transfer from_account to lamports_to_send with
    | None => internal_error
    | Some instruction =>
        let vec := [instruction] in
        match CreateLegacyMessage services "" 0 from_account vec with
        | None => internal_error
        | Some m =>
            Ran (Some {| msg := m; to_wallet_address := to;
                         tx_type := SolanaSystemTransfer;
                         lamports := Some lamports_to_send;
                         spl_token_mint_address := None;
                         amount := None |})
              kSuccess ""
        end
    end.

(** [SolanaTxManager::OnGetAccountInfo]. *)
Definition OnGetAccountInfo
    (mint from_wallet_address to_wallet : string)
    (from_associated_token_account to_associated_token_account : string)
    (amount_to_send : Z)
    (account_info : option AccountInfo.SolanaAccountInfo)
    (error : SolanaProviderError) (error_message : string) : MakeResult :=
  if negb (is_success error) then Ran None error error_message
  else
    let create :=
      match account_info with
      | None => true
      | Some info =>
          negb (String.eqb (AccountInfo.owner info) kSolanaTokenProgramId)
      end in
    let created :=
      if create then
        match
          spl_associated_token_account_program.CreateAssociatedTokenAccount
            from_wallet_address to_wallet to_associated_token_account mint
        with
        | None => None
        | Some instruction => Some ([instruction], true)
        end
      else Some ([], false) in
    match created with
    | None => internal_error
    | Some (instruction_list, create_associated_token_account) =>
        match spl_token_program.Transfer kSolanaTokenProgramId
                from_associated_token_account to_associated_token_account
                from_wallet_address [] amount_to_send with
        | None => internal_error
        | Some transfer_instruction =>
            let instruction_list :=
              instruction_list ++ [transfer_instruction] in
            match CreateLegacyMessage services "" 0 from_wallet_address
                    instruction_list with
            | None => internal_error
            | Some m =>
                Ran (Some
                       {| msg := m; to_wallet_address := to_wallet;
                          tx_type :=
                            if create_associated_token_account
                            then SolanaSPLTokenTransferWithAssociatedTokenAccountCreation
                            else SolanaSPLTokenTransfer;
                          lamports := None;
                          spl_token_mint_address := Some mint;
                          amount := Some amount_to_send |})
                  kSuccess ""
            end
        end
    end.

(** [SolanaTxManager::MakeTokenProgramTransferTxData], with the requests
    it sends. *)
Definition MakeTokenProgramTransferTxData
    (chain mint from_wallet_address to_wallet : string)
    (amount_to_send : Z) : MakeResult * list Request :=
  if IsOfacAddress services to_wallet
  then (Ran None kInvalidParams IDS_WALLET_OFAC_RESTRICTION, [])
  else
    let from_associated_token_account :=
      GetAssociatedTokenAccount services mint from_wallet_address in
    let to_associated_token_account :=
      GetAssociatedTokenAccount services mint to_wallet in
    match from_associated_token_account, to_associated_token_account with
    | Some from_ata, Some to_ata =>
        let '(account_info, e, message) :=
          GetSolanaAccountInfo services chain to_ata in
        (OnGetAccountInfo mint from_wallet_address to_wallet from_ata to_ata
           amount_to_send account_info e message,
         [CallGetSolanaAccountInfo chain to_ata])
    | _, _ => (internal_error, [])
    end.

(** [SolanaTxManager::OnGetMerkleTreeAccountInfo].  [account_info->data]
    is read without a test of [account_info]. *)
Definition OnGetMerkleTreeAccountInfo (to_wallet : string)
    (proof_data : SolCompressedNftProofData)
    (account_info : option AccountInfo.SolanaAccountInfo)
    (error : SolanaProviderError) (error_message : string) : MakeResult :=
  if negb (is_success error) then Ran None error error_message
  else
    match account_info with
    | None => Undefined
    | Some info =>
        match Base64Decode services (AccountInfo.data info) with
        | None => internal_error
        | Some account_data_bytes =>
            match Decoder.DecodeMerkleTreeAuthorityAndDepth
                    account_data_bytes with
            | None => internal_error
            | Some result =>
                match Transfer (fst result) (ToBase58 (snd result))
                        to_wallet proof_data with
                | Absent => internal_error
                | OutOfBounds => Undefined
                | Built instruction =>
                    let vec := [instruction] in
                    match CreateLegacyMessage services "" 0
                            (owner proof_data) vec with
                    | None => internal_error
                    | Some m =>
                        Ran (Some
                               {| msg := m; to_wallet_address := to_wallet;
                                  tx_type := SolanaCompressedNftTransfer;
                                  lamports := None;
                                  spl_token_mint_address := None;
                                  amount := None |})
                          kSuccess ""
                    end
                end
            end
        end
    end.

(** [SolanaTxManager::OnFetchCompressedNftProof], with the request it
    sends. *)
Definition OnFetchCompressedNftProof (from_wallet_address to_wallet : string)
    (proof_data : option SolCompressedNftProofData)
  : MakeResult * list Request :=
  match proof_data with
  | None => (internal_error, [])
  | Some p =>
      let '(account_info, e, message) :=
        GetSolanaAccountInfo services kSolanaMainnet (merkle_tree p) in
      (OnGetMerkleTreeAccountInfo to_wallet p account_info e message,
       [CallGetSolanaAccountInfo kSolanaMainnet (merkle_tree p)])
  end.

(** [SolanaTxManager::MakeBubbleGumProgramTransferTxData], with the
    requests it sends. *)
Definition MakeBubbleGumProgramTransferTxData
    (chain token_address from_wallet_address to_wallet : string)
  : MakeResult * list Request :=
  let '(result, requests) :=
    OnFetchCompressedNftProof from_wallet_address to_wallet
      (FetchSolCompressedNftProofData services token_address) in
  (result, CallFetchSolCompressedNftProofData token_address :: requests).

End WithServices.

(** The constructor of legacy messages keeps what it is given. *)
Definition keeps_arguments (s : Services) : Prop :=
  forall blockhash height payer instruction_list m,
    CreateLegacyMessage s blockhash height payer instruction_list = Some m ->
    recent_blockhash m = blockhash /\
    last_valid_block_height m = height /\
    fee_payer m = payer /\
    instructions m = instruction_list.

(** Services in which nobody is sanctioned, the associated token account
    of a wallet is the mint followed by the wallet, no account exists yet,
    the proof service knows [sample_proof] only, base64 text is read as
    the complete account [small_account] followed by one canopy byte per
    character, and a legacy message is made of what it is given. *)
Definition sample_services : Services :=
  {| IsOfacAddress := fun _ => false;
     GetAssociatedTokenAccount := fun mint wallet => Some (String.append mint wallet);
     GetSolanaAccountInfo := fun _ _ => (None, kSuccess, "");
     FetchSolCompressedNftProofData := fun _ => Some sample_proof;
     Base64Decode := fun s => Some (Decoder.small_account (String.length s));
     CreateLegacyMessage :=
       fun blockhash height payer instruction_list =>
         Some {| recent_blockhash := blockhash;
                 last_valid_block_height := height;
                 fee_payer := payer;
                 instructions := instruction_list |} |}.

End TxData.

(** * Properties *)

(** ** Machine arithmetic *)

Lemma wrap64_small z : 0 <= z < 2 ^ 64 -> wrap64 z = z.
Proof. intros H. unfold wrap64. apply Z.mod_small. exact H. Qed.

Lemma wrap32_small z : 0 <= z < 2 ^ 32 -> wrap32 z = z.
Proof. intros H. unfold wrap32. apply Z.mod_small. exact H. Qed.

Lemma wrap64_range z : 0 <= wrap64 z < 2 ^ 64.
Proof. unfold wrap64. apply Z.mod_pos_bound. lia. Qed.

Lemma wrap32_range z : 0 <= wrap32 z < 2 ^ 32.
Proof. unfold wrap32. apply Z.mod_pos_bound. lia. Qed.

Lemma wrap64_add_l a b : wrap64 (wrap64 a + b) = wrap64 (a + b).
Proof. unfold wrap64. apply Zplus_mod_idemp_l. Qed.

Lemma vsize_nonneg {A} (v : list A) : 0 <= vsize v.
Proof. unfold vsize. lia. Qed.

Lemma vsize_app {A} (u v : list A) : vsize (u ++ v) = vsize u + vsize v.
Proof. unfold vsize. rewrite length_app. lia. Qed.

Lemma byte_val_range b : 0 <= byte_val b < 256.
Proof.
  unfold byte_val. pose proof (Byte.to_N_bounded b) as H.
  split; [apply N2Z.is_nonneg |].
  change 256 with (Z.of_N 256). apply N2Z.inj_lt. lia.
Qed.

(** ** Base58 *)

Module Base58Facts.
Import Base58.

(** *** Digits *)

Lemma value_app base ds d :
  value base (ds ++ [d]) = value base ds * base + d.
Proof. unfold value. rewrite fold_left_app. reflexivity. Qed.

Lemma value_zeros base z ds :
  value base (repeat 0 z ++ ds) = value base ds.
Proof.
  unfold value. rewrite fold_left_app.
  replace (fold_left (fun acc d => acc * base + d) (repeat 0 z) 0) with 0;
    [reflexivity |].
  induction z as [| z IH]; [reflexivity |]. cbn. exact IH.
Qed.

(** A digit string has a value below [base ^ length]. *)
Lemma value_bound base ds :
  1 < base -> List.Forall (fun d => 0 <= d < base) ds ->
  0 <= value base ds < base ^ vsize ds.
Proof.
  intros Hb. induction ds as [| d ds IH] using rev_ind; intros Hds.
  - unfold value, vsize. cbn. lia.
  - apply List.Forall_app in Hds. destruct Hds as [Hds Hd].
    apply List.Forall_cons_iff in Hd. destruct Hd as [Hd _].
    specialize (IH Hds). rewrite value_app, vsize_app.
    change (vsize [d]) with 1.
    rewrite Z.pow_add_r, Z.pow_1_r by (try apply vsize_nonneg; lia). nia.
Qed.

Lemma digits_zero fuel base n acc : n <= 0 -> digits fuel base n acc = acc.
Proof.
  intros Hn. destruct fuel; cbn [digits]; [reflexivity |].
  destruct (n <=? 0) eqn:E; [reflexivity | apply Z.leb_gt in E; lia].
Qed.

Lemma digits_acc fuel base : forall n acc,
  digits fuel base n acc = digits fuel base n [] ++ acc.
Proof.
  induction fuel as [| fuel IH]; intros n acc; cbn [digits]; [reflexivity |].
  destruct (n <=? 0); [reflexivity |].
  rewrite (IH _ (n mod base :: acc)), (IH _ [n mod base]).
  rewrite <- app_assoc. reflexivity.
Qed.

(** The digits computed are digits. *)
Lemma digits_range fuel base : forall n,
  1 < base -> List.Forall (fun d => 0 <= d < base) (digits fuel base n []).
Proof.
  induction fuel as [| fuel IH]; intros n Hb; cbn [digits]; [constructor |].
  destruct (n <=? 0); [constructor |].
  rewrite digits_acc. apply List.Forall_app. split; [apply IH; exact Hb |].
  constructor; [apply Z.mod_pos_bound; lia | constructor].
Qed.

(** A digit string without leading zero is the one computed from its
    value. *)
Lemma digits_value fuel base ds :
  1 < base ->
  List.Forall (fun d => 0 <= d < base) ds ->
  hd 1 ds <> 0 ->
  value base ds < base ^ Z.of_nat fuel ->
  digits fuel base (value base ds) [] = ds.
Proof.
  intros Hb. revert fuel.
  induction ds as [| d ds IH] using rev_ind; intros fuel Hds Hhd Hlt.
  - apply digits_zero. cbn. lia.
  - apply List.Forall_app in Hds. destruct Hds as [Hds Hd].
    apply List.Forall_cons_iff in Hd. destruct Hd as [Hd _].
    pose proof (value_bound base ds Hb Hds) as Hv.
    rewrite value_app in *.
    assert (Hpos : 0 < value base ds * base + d).
    { destruct ds as [| d0 ds]; [cbn in *; lia |].
      cbn [hd app] in Hhd.
      assert (0 < value base (d0 :: ds)); [| nia].
      apply List.Forall_cons_iff in Hds. destruct Hds as [Hd0 Hds].
      clear - Hb Hd0 Hds Hhd.
      assert (Hge : forall l acc, List.Forall (fun d => 0 <= d < base) l ->
                     0 < acc ->
                     0 < fold_left (fun a d => a * base + d) l acc).
      { induction l as [| x l IHl]; intros acc Hl Ha; [exact Ha |].
        apply List.Forall_cons_iff in Hl. destruct Hl as [Hx Hl].
        cbn. apply IHl; [exact Hl | nia]. }
      unfold value. cbn. apply Hge; [exact Hds | lia]. }
    destruct fuel as [| fuel].
    { cbn in Hlt. lia. }
    cbn [digits]. destruct (_ <=? 0) eqn:E; [apply Z.leb_le in E; lia |].
    assert (Hdiv : (value base ds * base + d) / base = value base ds).
    { rewrite Z.div_add_l by lia. rewrite Z.div_small by lia. lia. }
    assert (Hmod : (value base ds * base + d) mod base = d).
    { rewrite Z.add_comm, Z.mod_add by lia. apply Z.mod_small. lia. }
    rewrite Hdiv, Hmod, digits_acc. f_equal.
    apply IH; [exact Hds | |].
    + destruct ds; [cbn; lia | exact Hhd].
    + rewrite Nat2Z.inj_succ, Z.pow_succ_r in Hlt by lia. nia.
Qed.

(** With enough fuel the digits computed write the number, without a
    leading zero. *)
Lemma digits_correct fuel base : forall n,
  1 < base -> 0 <= n < base ^ Z.of_nat fuel ->
  value base (digits fuel base n []) = n /\ hd 1 (digits fuel base n []) <> 0.
Proof.
  induction fuel as [| fuel IH]; intros n Hb Hn.
  - cbn in *. split; [lia | discriminate].
  - cbn [digits]. destruct (n <=? 0) eqn:E.
    + apply Z.leb_le in E. cbn. split; [lia | discriminate].
    + apply Z.leb_gt in E. rewrite digits_acc, value_app.
      rewrite Nat2Z.inj_succ, Z.pow_succ_r in Hn by lia.
      destruct (IH (n / base) Hb) as [Hv Hh].
      { split; [apply Z.div_pos; lia |].
        apply Z.div_lt_upper_bound; lia. }
      rewrite Hv. split.
      * pose proof (Z.div_mod n base ltac:(lia)). lia.
      * destruct (digits fuel base (n / base) []) as [| d0 ds] eqn:Ed.
        -- cbn. cbn in Hv.
           assert (n / base = 0) by lia.
           pose proof (Z.div_mod n base ltac:(lia)). lia.
        -- exact Hh.
Qed.

(** *** Characters *)

Lemma digit_value_char d :
  0 <= d < 58 -> digit_value (digit_char d) = Some d.
Proof.
  intros Hd. replace d with (Z.of_nat (Z.to_nat d)) by lia.
  assert (Hn : (Z.to_nat d < 58)%nat) by lia.
  generalize dependent (Z.to_nat d). intros n Hn.
  do 58 (destruct n as [| n]; [reflexivity |]). lia.
Qed.

Lemma digit_char_one d :
  0 <= d < 58 -> is_one_char (digit_char d) = true -> d = 0.
Proof.
  intros Hd. replace d with (Z.of_nat (Z.to_nat d)) by lia.
  assert (Hn : (Z.to_nat d < 58)%nat) by lia.
  generalize dependent (Z.to_nat d). intros n Hn.
  destruct n as [| n]; [reflexivity |].
  do 57 (destruct n as [| n]; [discriminate |]). lia.
Qed.

Lemma digit_values_chars ds :
  List.Forall (fun d => 0 <= d < 58) ds ->
  digit_values (map digit_char ds) = Some ds.
Proof.
  induction ds as [| d ds IH]; intros Hds; [reflexivity |].
  apply List.Forall_cons_iff in Hds. destruct Hds as [Hd Hds].
  cbn [map digit_values]. rewrite digit_value_char by exact Hd.
  rewrite IH by exact Hds. reflexivity.
Qed.

Lemma digit_values_ones z cs ds :
  digit_values cs = Some ds ->
  digit_values (repeat "1"%char z ++ cs) = Some (repeat 0 z ++ ds).
Proof.
  intros Hcs. induction z as [| z IH]; [exact Hcs |].
  cbn [repeat app digit_values]. rewrite IH. reflexivity.
Qed.

Lemma leading_ones z cs :
  leading is_one_char (repeat "1"%char z ++ cs)
  = (z + leading is_one_char cs)%nat.
Proof.
  induction z as [| z IH]; [reflexivity |].
  cbn [repeat app leading]. rewrite IH. reflexivity.
Qed.

Lemma leading_digit_chars ds :
  List.Forall (fun d => 0 <= d < 58) ds -> hd 1 ds <> 0 ->
  leading is_one_char (map digit_char ds) = 0%nat.
Proof.
  intros Hds Hhd. destruct ds as [| d ds]; [reflexivity |].
  apply List.Forall_cons_iff in Hds. destruct Hds as [Hd _].
  cbn [map leading hd] in *.
  destruct (is_one_char (digit_char d)) eqn:E; [| reflexivity].
  apply digit_char_one in E; [contradiction | exact Hd].
Qed.

(** *** Bytes *)

Lemma byte_of_val b : byte_of_Z (byte_val b) = b.
Proof.
  unfold byte_of_Z. pose proof (byte_val_range b) as Hr.
  rewrite Z.mod_small by exact Hr. unfold byte_val.
  rewrite N2Z.id, Byte.of_to_N. reflexivity.
Qed.

Lemma bytes_of_vals bs : map byte_of_Z (map byte_val bs) = bs.
Proof.
  rewrite map_map. rewrite (map_ext _ (fun b => b)) by apply byte_of_val.
  apply map_id.
Qed.

Lemma byte_vals_range bs :
  List.Forall (fun d => 0 <= d < 256) (map byte_val bs).
Proof.
  apply List.Forall_forall. intros d Hd. apply in_map_iff in Hd.
  destruct Hd as (b & <- & _). apply byte_val_range.
Qed.

(** A byte string is its leading zero bytes followed by a string that does
    not start with a zero byte and has the same value. *)
Lemma split_leading_zeros bs :
  let z := leading is_zero_byte bs in
  bs = repeat x00 z ++ skipn z bs /\
  hd 1 (map byte_val (skipn z bs)) <> 0 /\
  be_value bs = be_value (skipn z bs).
Proof.
  induction bs as [| b bs IH]; cbn zeta.
  - cbn. repeat split. discriminate.
  - cbn [leading]. destruct (is_zero_byte b) eqn:E; unfold is_zero_byte in E.
    + apply Z.eqb_eq in E. destruct IH as (Hsplit & Hhd & Hval).
      assert (b = x00) as -> by (rewrite <- (byte_of_val b), E; reflexivity).
      cbn [repeat app skipn]. split; [f_equal; exact Hsplit |].
      split; [exact Hhd |].
      rewrite <- Hval. unfold be_value. cbn [map].
      apply (value_zeros 256 1).
    + apply Z.eqb_neq in E. cbn. repeat split. exact E.
Qed.

(** *** Round trip *)

(** Decoding the encoding of [bs] to the length of [bs] gives [bs] back. *)
Lemma Base58Decode_Encode bs :
  Base58Decode (Base58Encode bs) (vsize bs) = Some bs.
Proof.
  unfold Base58Decode, Base58Encode.
  rewrite list_ascii_of_string_of_list_ascii.
  set (z := leading is_zero_byte bs). set (n := be_value bs).
  set (ds := digits (2 * length bs) 58 n []).
  assert (Hn : 0 <= n < 58 ^ Z.of_nat (2 * length bs)).
  { pose proof (value_bound 256 (map byte_val bs) ltac:(lia)
                  (byte_vals_range bs)) as Hv.
    fold (be_value bs) in Hv. fold n in Hv.
    unfold vsize in Hv. rewrite length_map in Hv.
    split; [lia |]. eapply Z.lt_le_trans; [apply Hv |].
    rewrite Nat2Z.inj_mul, Z.pow_mul_r by lia.
    apply Z.pow_le_mono_l. cbn. lia. }
  destruct (digits_correct (2 * length bs) 58 n ltac:(lia) Hn)
    as [Hvalue Hhd]. fold ds in Hvalue, Hhd.
  pose proof (digits_range (2 * length bs) 58 n ltac:(lia)) as Hrange.
  fold ds in Hrange.
  rewrite (digit_values_ones z _ ds) by (apply digit_values_chars; exact Hrange).
  rewrite leading_ones, leading_digit_chars, Nat.add_0_r by assumption.
  rewrite value_zeros, Hvalue.
  destruct (split_leading_zeros bs) as (Hsplit & Hnz & Hval).
  fold z in Hsplit, Hnz, Hval. fold n in Hval.
  assert (Hdigits : digits (length (repeat "1"%char z ++ map digit_char ds))
                      256 n []
                    = map byte_val (skipn z bs)).
  { rewrite Hval. unfold be_value. apply digits_value.
    - lia.
    - apply byte_vals_range.
    - exact Hnz.
    - fold (be_value (skipn z bs)). rewrite <- Hval.
      pose proof (value_bound 58 ds ltac:(lia) Hrange) as Hv.
      rewrite Hvalue in Hv.
      rewrite length_app, repeat_length, length_map, Nat2Z.inj_add.
      eapply Z.lt_le_trans; [apply Hv |].
      eapply Z.le_trans;
        [apply (Z.pow_le_mono_l 58 256); unfold vsize; lia |].
      apply Z.pow_le_mono_r; unfold vsize; lia. }
  rewrite Hdigits, bytes_of_vals, <- Hsplit, Z.eqb_refl. reflexivity.
Qed.

(** The text of a 32-byte key parses back to the key. *)
Lemma FromBase58_Encode bs :
  vsize bs = kSolanaPubkeySize -> FromBase58 (Base58Encode bs) = Some bs.
Proof.
  intros H. unfold FromBase58. rewrite <- H. apply Base58Decode_Encode.
Qed.

End Base58Facts.

(** ** The Merkle-tree decoder *)

Module DecoderFacts.
Import Decoder.

(** Every read of one byte is inside the buffer. *)
Lemma DecodeUint8_checked input offset v offset' :
  vsize input < 2 ^ 64 -> 0 <= offset ->
  DecodeUint8 input offset = Some (v, offset') ->
  offset < vsize input /\ offset' = offset + 1 /\
  exists b, nth_error input (Z.to_nat offset) = Some b /\ v = byte_val b.
Proof.
  intros Hsz Hoff. unfold DecodeUint8.
  destruct (offset >=? vsize input) eqn:Hge; [discriminate |].
  rewrite Z.geb_leb in Hge. apply Z.leb_gt in Hge.
  rewrite (wrap64_small (vsize input - offset)) by lia.
  destruct (vsize input - offset <? 1) eqn:Hlt; simpl; [discriminate |].
  rewrite (wrap64_small (offset + 1)) by lia.
  rewrite (wrap64_small (offset + 1 - 1)) by lia.
  unfold at_index. replace (offset + 1 - 1) with offset by lia.
  destruct (offset <? 0) eqn:Hneg; [apply Z.ltb_lt in Hneg; lia |].
  destruct (nth_error input (Z.to_nat offset)) as [b |] eqn:Hb;
    [| discriminate].
  intros [= <- <-]. repeat split; try lia. exists b. split; reflexivity.
Qed.

(** Every read of four bytes is inside the buffer. *)
Lemma DecodeUint32_checked input offset v offset' :
  vsize input < 2 ^ 64 -> 0 <= offset ->
  DecodeUint32 input offset = Some (v, offset') ->
  offset + 4 <= vsize input /\ offset' = offset + 4 /\
  v = le_uint32 (slice input offset (offset + 4)).
Proof.
  intros Hsz Hoff. unfold DecodeUint32.
  destruct (offset >=? vsize input) eqn:Hge; [discriminate |].
  rewrite Z.geb_leb in Hge. apply Z.leb_gt in Hge.
  rewrite (wrap64_small (vsize input - offset)) by lia.
  destruct (vsize input - offset <? 4) eqn:Hlt; simpl; [discriminate |].
  apply Z.ltb_ge in Hlt.
  rewrite (wrap64_small (offset + 4)) by lia.
  intros [= <- <-]. repeat split; lia.
Qed.

(** Every read of a public key is inside the buffer. *)
Lemma DecodePublicKey_checked input offset key offset' :
  vsize input < 2 ^ 64 -> 0 <= offset ->
  DecodePublicKey input offset = Some (key, offset') ->
  offset + 32 <= vsize input /\ offset' = offset + 32 /\
  key = Base58.Base58Encode (slice input offset (offset + 32)).
Proof.
  intros Hsz Hoff. unfold DecodePublicKey, kSolanaPubkeySize.
  destruct (offset >=? vsize input) eqn:Hge; [discriminate |].
  rewrite Z.geb_leb in Hge. apply Z.leb_gt in Hge.
  rewrite (wrap64_small (vsize input - offset)) by lia.
  destruct (vsize input - offset <? 32) eqn:Hlt; simpl; [discriminate |].
  apply Z.ltb_ge in Hlt.
  rewrite (wrap64_small (offset + 32)) by lia.
  replace (offset + 32 - 32) with offset by lia.
  intros [= <- <-]. repeat split; lia.
Qed.

(** A header that decodes was read from the first 42 bytes of the buffer,
    which begin with the account type 1 and the version 0. *)
Lemma DecodeHeader_inv data h :
  vsize data < 2 ^ 64 ->
  DecodeHeader data = Some h ->
  42 <= vsize data /\ header_end h = 42 /\
  option_map byte_val (nth_error data 0) = Some 1 /\
  option_map byte_val (nth_error data 1) = Some 0 /\
  max_buffer_size h = le_uint32 (slice data 2 6) /\
  max_depth h = le_uint32 (slice data 6 10).
Proof.
  intros Hsz. unfold DecodeHeader.
  destruct (DecodeUint8 data 0) as [[t o1] |] eqn:H1; [| discriminate].
  apply DecodeUint8_checked in H1; [| lia | lia].
  destruct H1 as (_ & -> & b1 & Hb1 & ->).
  destruct (byte_val b1 =? 1) eqn:Ht; cbn [negb]; [| discriminate].
  apply Z.eqb_eq in Ht.
  destruct (DecodeUint8 data (0 + 1)) as [[v o2] |] eqn:H2; [| discriminate].
  apply DecodeUint8_checked in H2; [| lia | lia].
  destruct H2 as (_ & -> & b2 & Hb2 & ->).
  destruct (byte_val b2 =? 0) eqn:Hv; cbn [negb]; [| discriminate].
  apply Z.eqb_eq in Hv.
  destruct (DecodeUint32 data (0 + 1 + 1)) as [[mbs o3] |] eqn:H3;
    [| discriminate].
  apply DecodeUint32_checked in H3; [| lia | lia].
  destruct H3 as (_ & -> & ->).
  destruct (DecodeUint32 data (0 + 1 + 1 + 4)) as [[md o4] |] eqn:H4;
    [| discriminate].
  apply DecodeUint32_checked in H4; [| lia | lia].
  destruct H4 as (_ & -> & ->).
  destruct (DecodePublicKey data (0 + 1 + 1 + 4 + 4)) as [[key o5] |] eqn:H5;
    [| discriminate].
  apply DecodePublicKey_checked in H5; [| lia | lia].
  destruct H5 as (Hlen & -> & ->).
  destruct (FromBase58 _) as [addr |]; [| discriminate].
  intros [= <-]. cbn [header_end max_buffer_size max_depth].
  change (Z.to_nat (0 + 1)) with 1%nat in Hb2.
  change (Z.to_nat 0) with 0%nat in Hb1.
  rewrite Hb1, Hb2. cbn [option_map]. rewrite Ht, Hv.
  repeat split; try lia; reflexivity.
Qed.

(** A buffer shorter than the 42 bytes of the header is refused. *)
Lemma DecodeHeader_short data :
  vsize data < 42 -> DecodeHeader data = None.
Proof.
  intros Hshort. destruct (DecodeHeader data) as [h |] eqn:Hh; [| reflexivity].
  apply DecodeHeader_inv in Hh; lia.
Qed.

(** A wrong account-type byte is refused. *)
Lemma DecodeHeader_wrong_type data b :
  vsize data < 2 ^ 64 ->
  nth_error data 0 = Some b -> byte_val b <> 1 ->
  DecodeHeader data = None.
Proof.
  intros Hsz Hb Hne. destruct (DecodeHeader data) as [h |] eqn:Hh;
    [| reflexivity].
  apply DecodeHeader_inv in Hh; [| exact Hsz].
  destruct Hh as (_ & _ & H0 & _). rewrite Hb in H0. simpl in H0. congruence.
Qed.

(** A wrong version byte is refused. *)
Lemma DecodeHeader_wrong_version data b :
  vsize data < 2 ^ 64 ->
  nth_error data 1 = Some b -> byte_val b <> 0 ->
  DecodeHeader data = None.
Proof.
  intros Hsz Hb Hne. destruct (DecodeHeader data) as [h |] eqn:Hh;
    [| reflexivity].
  apply DecodeHeader_inv in Hh; [| exact Hsz].
  destruct Hh as (_ & _ & _ & H1 & _). rewrite Hb in H1. simpl in H1.
  congruence.
Qed.

(** The decoder is absent exactly when the header is refused: nothing
    after the header can make it fail. *)
Lemma Decode_absent_iff data :
  DecodeMerkleTreeAuthorityAndDepth data = None <-> DecodeHeader data = None.
Proof.
  unfold DecodeMerkleTreeAuthorityAndDepth.
  destruct (DecodeHeader data); split; congruence.
Qed.

Lemma vsize_slice (v : list byte) first last :
  0 <= first -> first <= last -> last <= vsize v ->
  vsize (slice v first last) = last - first.
Proof.
  intros H0 H1 H2. unfold slice, vsize in *.
  rewrite length_firstn, length_skipn. lia.
Qed.

(** A buffer of at least 42 bytes that starts with the account type 1 and
    the version 0 has a header that decodes: re-parsing the text of the
    authority cannot fail. *)
Lemma DecodeHeader_complete data b0 b1 :
  vsize data < 2 ^ 64 -> 42 <= vsize data ->
  nth_error data 0 = Some b0 -> byte_val b0 = 1 ->
  nth_error data 1 = Some b1 -> byte_val b1 = 0 ->
  exists h, DecodeHeader data = Some h.
Proof.
  intros Hsz Hlen Hb0 Ht Hb1 Hv. unfold DecodeHeader.
  assert (Hread8 : forall off b, 0 <= off < 2 ->
             nth_error data (Z.to_nat off) = Some b ->
             DecodeUint8 data off = Some (byte_val b, off + 1)).
  { intros off b Hoff Hb. unfold DecodeUint8.
    destruct (off >=? vsize data) eqn:E1;
      [rewrite Z.geb_leb in E1; apply Z.leb_le in E1; lia |].
    rewrite (wrap64_small (vsize data - off)) by lia.
    destruct (vsize data - off <? 1) eqn:E2; [apply Z.ltb_lt in E2; lia |].
    cbn [orb]. rewrite (wrap64_small (off + 1)) by lia.
    rewrite (wrap64_small (off + 1 - 1)) by lia.
    unfold at_index. replace (off + 1 - 1) with off by lia.
    destruct (off <? 0) eqn:E3; [apply Z.ltb_lt in E3; lia |].
    rewrite Hb. reflexivity. }
  assert (Hread32 : forall off, 0 <= off -> off + 4 <= vsize data ->
             DecodeUint32 data off
             = Some (le_uint32 (slice data off (off + 4)), off + 4)).
  { intros off Hoff Hend. unfold DecodeUint32.
    destruct (off >=? vsize data) eqn:E1;
      [rewrite Z.geb_leb in E1; apply Z.leb_le in E1; lia |].
    rewrite (wrap64_small (vsize data - off)) by lia.
    destruct (vsize data - off <? 4) eqn:E2; [apply Z.ltb_lt in E2; lia |].
    cbn [orb]. rewrite (wrap64_small (off + 4)) by lia. reflexivity. }
  rewrite (Hread8 0 b0) by (try exact Hb0; lia). rewrite Ht. cbn [Z.eqb negb].
  rewrite (Hread8 (0 + 1) b1) by (try exact Hb1; lia).
  rewrite Hv. cbn [Z.eqb negb].
  rewrite (Hread32 (0 + 1 + 1)) by lia.
  rewrite (Hread32 (0 + 1 + 1 + 4)) by lia.
  unfold DecodePublicKey, kSolanaPubkeySize.
  destruct (0 + 1 + 1 + 4 + 4 >=? vsize data) eqn:E1;
    [rewrite Z.geb_leb in E1; apply Z.leb_le in E1; lia |].
  rewrite (wrap64_small (vsize data - (0 + 1 + 1 + 4 + 4))) by lia.
  destruct (vsize data - (0 + 1 + 1 + 4 + 4) <? 32) eqn:E2;
    [apply Z.ltb_lt in E2; lia |].
  cbn [orb]. rewrite (wrap64_small (0 + 1 + 1 + 4 + 4 + 32)) by lia.
  rewrite Base58Facts.FromBase58_Encode; [eauto |].
  rewrite vsize_slice; unfold kSolanaPubkeySize; lia.
Qed.

(** The decoder returns absent exactly for a buffer shorter than 42 bytes
    or with a wrong account-type or version byte. *)
Lemma Decode_absent_characterised data :
  vsize data < 2 ^ 64 ->
  DecodeMerkleTreeAuthorityAndDepth data = None <->
  vsize data < 42 \/
  option_map byte_val (nth_error data 0) <> Some 1 \/
  option_map byte_val (nth_error data 1) <> Some 0.
Proof.
  intros Hsz. rewrite Decode_absent_iff. split.
  - intros Hnone.
    destruct (Z.lt_ge_cases (vsize data) 42) as [Hshort | Hlong];
      [left; exact Hshort | right].
    destruct (nth_error data 0) as [b0 |] eqn:Hb0;
      [| left; discriminate].
    destruct (nth_error data 1) as [b1 |] eqn:Hb1;
      [| right; discriminate].
    destruct (Z.eq_dec (byte_val b0) 1) as [Ht | Ht];
      [| left; cbn; congruence].
    destruct (Z.eq_dec (byte_val b1) 0) as [Hv | Hv];
      [| right; cbn; congruence].
    destruct (DecodeHeader_complete data b0 b1 Hsz Hlong Hb0 Ht Hb1 Hv)
      as [h Hh]. congruence.
  - intros Hbad. destruct (DecodeHeader data) as [h |] eqn:Hh; [| reflexivity].
    apply DecodeHeader_inv in Hh; [| exact Hsz].
    destruct Hh as (Hlen & _ & H0 & H1 & _).
    destruct Hbad as [? | [? | ?]]; [lia | contradiction | contradiction].
Qed.

(** The ring-buffer loop adds [max_buffer_size] entry sizes. *)
Lemma skip_change_logs_closed mbs md offset :
  0 <= mbs -> 0 <= offset < 2 ^ 64 ->
  skip_change_logs mbs md offset
  = wrap64 (offset + mbs * change_log_size md).
Proof.
  intros Hmbs Hoff. unfold skip_change_logs.
  destruct mbs as [| p | p]; [| | lia].
  - cbn [Z.iter]. rewrite Z.mul_0_l, Z.add_0_r.
    symmetry. apply wrap64_small. exact Hoff.
  - cbn [Z.iter]. induction p as [| p IH] using Pos.peano_ind.
    + cbn [Pos.iter]. f_equal. lia.
    + rewrite Pos.iter_succ, IH by lia. rewrite wrap64_add_l.
      f_equal. lia.
Qed.

(** Below the 32-bit and 64-bit limits the offset reached is the sum of
    the sizes the spec lists: 42 bytes of header, 8 + 6 + 24 skipped
    bytes, [max_buffer_size] change logs of [32 + 32 * max_depth + 4 + 4]
    bytes and one path of [32 * max_depth + 32 + 4 + 4] bytes. *)
Lemma tree_end_layout data h :
  vsize data < 2 ^ 64 ->
  DecodeHeader data = Some h ->
  0 <= max_buffer_size h -> 0 <= max_depth h ->
  32 * max_depth h + 40 < 2 ^ 32 ->
  80 + (max_buffer_size h + 1) * (32 * max_depth h + 40) < 2 ^ 64 ->
  tree_end h
  = 42 + (8 + 6) + (8 + 8 + 8)
    + max_buffer_size h * (32 + 32 * max_depth h + 4 + 4)
    + (32 * max_depth h + 32 + 4 + 4).
Proof.
  intros Hsz Hh Hmbs Hmd H32 H64.
  apply DecodeHeader_inv in Hh; [| exact Hsz].
  destruct Hh as (_ & Hend & _).
  unfold tree_end. rewrite Hend.
  rewrite (wrap64_small (42 + (8 + 6))) by lia.
  rewrite (wrap64_small (42 + (8 + 6) + (8 + 8 + 8))) by lia.
  rewrite skip_change_logs_closed by lia.
  unfold change_log_size, path_size.
  rewrite !wrap32_small by lia.
  rewrite wrap64_add_l. apply wrap64_small. nia.
Qed.

(** *** The logarithm of the canopy size *)

Lemma ln_2_pos : (0 < ln 2)%R.
Proof. rewrite <- ln_1. apply ln_increasing; lra. Qed.

Lemma ln_pow2 (n : nat) : ln (IZR (2 ^ Z.of_nat n)) = (INR n * ln 2)%R.
Proof. rewrite <- pow_IZR. apply ln_pow. lra. Qed.

(** For a real [x] between two consecutive powers of two, the base-2
    logarithm lies between the exponents. *)
Lemma log2_real_bounds (k : Z) (x : R) :
  0 <= k ->
  (IZR (2 ^ k) <= x)%R -> (x < IZR (2 ^ (k + 1)))%R ->
  (IZR k <= ln x / ln 2 < IZR k + 1)%R.
Proof.
  intros Hk Hlo Hhi.
  pose proof ln_2_pos as Hln2.
  assert (Hpos : (0 < IZR (2 ^ k))%R) by (apply IZR_lt; lia).
  assert (Hlnlo : (IZR k * ln 2 <= ln x)%R).
  { replace k with (Z.of_nat (Z.to_nat k)) at 1 by lia.
    rewrite <- INR_IZR_INZ, <- ln_pow2, Z2Nat.id by lia.
    destruct Hlo as [Hlt | <-]; [| lra].
    left. apply ln_increasing; assumption. }
  assert (Hlnhi : (ln x < (IZR k + 1) * ln 2)%R).
  { replace (IZR k + 1)%R with (IZR (Z.of_nat (Z.to_nat (k + 1)))).
    - rewrite <- INR_IZR_INZ, <- ln_pow2, Z2Nat.id by lia.
      apply ln_increasing; lra.
    - rewrite Z2Nat.id by lia. rewrite plus_IZR. reflexivity. }
  split.
  - apply Rmult_le_reg_r with (ln 2); [exact Hln2 |].
    unfold Rdiv. rewrite Rmult_assoc, Rinv_l by lra. lra.
  - apply Rmult_lt_reg_r with (ln 2); [exact Hln2 |].
    unfold Rdiv. rewrite Rmult_assoc, Rinv_l by lra. lra.
Qed.

(** The integer computation of the decoder is the floor of the real
    formula of the spec. *)
Lemma log2_canopy_spec n :
  0 <= n -> log2_canopy n = spec_canopy_depth n.
Proof.
  intros Hn. unfold log2_canopy, spec_canopy_depth.
  set (m := n / 32 + 2). set (k := Z.log2 m).
  assert (Hm : 2 <= m) by (unfold m; pose proof (Z.div_pos n 32); lia).
  destruct (Z.log2_spec m) as [Hlo Hhi]; [lia |]. fold k in Hlo, Hhi.
  assert (Hk : 0 <= k) by apply Z.log2_nonneg.
  rewrite <- Z.add_1_r in Hhi.
  assert (Hx : (IZR m <= IZR n / 32 + 2 < IZR m + 1)%R).
  { pose proof (Z.div_mod n 32 ltac:(lia)) as Hdm.
    pose proof (Z.mod_pos_bound n 32 ltac:(lia)) as Hr.
    unfold m. rewrite plus_IZR.
    assert (HnR : IZR n = (32 * IZR (n / 32) + IZR (n mod 32))%R).
    { rewrite <- mult_IZR, <- plus_IZR. f_equal. exact Hdm. }
    assert (Hr0 : (0 <= IZR (n mod 32))%R) by (apply IZR_le; lia).
    assert (Hr1 : (IZR (n mod 32) < 32)%R) by (apply IZR_lt; lia).
    rewrite HnR. split; lra. }
  destruct (log2_real_bounds k (IZR n / 32 + 2)%R Hk) as [Hb1 Hb2].
  - apply Rle_trans with (IZR m); [apply IZR_le; lia | lra].
  - apply Rlt_le_trans with (IZR m + 1)%R; [lra |].
    rewrite <- plus_IZR. apply IZR_le. lia.
  - apply Int_part_spec. rewrite minus_IZR. lra.
Qed.

(** *** The double computation of the canopy depth *)

Lemma ln_2_lt_1 : (ln 2 < 1)%R.
Proof.
  rewrite <- (ln_exp 1). apply ln_increasing; [lra |].
  pose proof (exp_ineq1 1 ltac:(lra)). lra.
Qed.

(** [t / 2 <= ln (1 + t)] for [0 <= t <= 1]. *)
Lemma ln_above t : (0 <= t <= 1)%R -> (t / 2 <= ln (1 + t))%R.
Proof.
  intros Ht.
  assert (Hu : (/ (1 + t) <= exp (- (t / 2)))%R).
  { apply Rle_trans with (1 + - (t / 2))%R; [| apply exp_ineq1_le].
    apply Rmult_le_reg_r with (1 + t)%R; [lra |].
    rewrite Rinv_l by lra. nra. }
  assert (Hl : (ln (/ (1 + t)) <= - (t / 2))%R).
  { rewrite <- (ln_exp (- (t / 2))).
    destruct Hu as [Hu | Hu];
      [left; apply ln_increasing; [| exact Hu] | rewrite Hu; lra].
    apply Rinv_0_lt_compat. lra. }
  rewrite ln_Rinv in Hl by lra. lra.
Qed.

(** [ln (1 - s) <= - s] for [0 <= s < 1]. *)
Lemma ln_below s : (0 <= s < 1)%R -> (ln (1 - s) <= - s)%R.
Proof.
  intros Hs. rewrite <- (ln_exp (- s)).
  pose proof (exp_ineq1_le (- s)) as He.
  destruct He as [He | He].
  - left. apply ln_increasing; lra.
  - right. f_equal. lra.
Qed.

Lemma div_ln2_le a b : (a <= b * ln 2 -> a / ln 2 <= b)%R.
Proof.
  intros H. pose proof ln_2_pos as Hln2.
  apply Rmult_le_reg_r with (ln 2); [exact Hln2 |].
  unfold Rdiv. rewrite Rmult_assoc, Rinv_l by lra. lra.
Qed.

Lemma div_ln2_ge a b : (b * ln 2 <= a -> b <= a / ln 2)%R.
Proof.
  intros H. pose proof ln_2_pos as Hln2.
  apply Rmult_le_reg_r with (ln 2); [exact Hln2 |].
  unfold Rdiv. rewrite Rmult_assoc, Rinv_l by lra. lra.
Qed.

(** Between two consecutive powers of two, on the grid of the
    thirty-seconds and up to [2^28], the base-2 logarithm keeps a distance
    of [2^-33] from both exponents. *)
Lemma log2_margin k j :
  0 <= k <= 27 -> 32 * 2 ^ k < j < 32 * 2 ^ (k + 1) ->
  (IZR k + / 2 ^ 33 <= ln (IZR j / 32) / ln 2 <= IZR k + 1 - / 2 ^ 33)%R.
Proof.
  intros Hk Hj.
  pose proof ln_2_pos as Hln2. pose proof ln_2_lt_1 as Hln2'.
  set (P := IZR (2 ^ k)).
  assert (HP0 : (1 <= P)%R) by (apply IZR_le; lia).
  assert (HP1 : (P <= 2 ^ 27)%R).
  { unfold P. rewrite pow_IZR. apply IZR_le.
    change (Z.of_nat 27) with 27. apply Z.pow_le_mono_r; lia. }
  assert (HlnP : ln P = (IZR k * ln 2)%R).
  { unfold P. replace k with (Z.of_nat (Z.to_nat k)) by lia.
    rewrite ln_pow2, <- INR_IZR_INZ. reflexivity. }
  assert (HJlo : (32 * P + 1 <= IZR j)%R).
  { unfold P. rewrite <- mult_IZR, <- plus_IZR. apply IZR_le. lia. }
  assert (HJhi : (IZR j <= 64 * P - 1)%R).
  { unfold P. rewrite <- mult_IZR, <- minus_IZR. apply IZR_le.
    rewrite Z.pow_add_r in Hj by lia. lia. }
  set (J := IZR j) in *.
  assert (Hpos : (0 < / 2 ^ 33)%R) by (apply Rinv_0_lt_compat; lra).
  assert (Hc : (/ 2 ^ 33 * ln 2 <= / 2 ^ 33)%R) by nra.
  split.
  - set (t := ((J - 32 * P) / (32 * P))%R).
    assert (Ht : (J / 32 = P * (1 + t))%R) by (unfold t; field; lra).
    assert (Ht0 : (/ 2 ^ 32 <= t)%R).
    { unfold t. apply Rmult_le_reg_r with (32 * P)%R; [lra |].
      unfold Rdiv. rewrite Rmult_assoc, Rinv_l by lra.
      apply Rle_trans with 1%R; [| lra].
      apply Rmult_le_reg_l with (2 ^ 32)%R; [lra |].
      rewrite <- Rmult_assoc, Rinv_r by lra. lra. }
    assert (Ht1 : (t <= 1)%R).
    { unfold t. apply Rmult_le_reg_r with (32 * P)%R; [lra |].
      unfold Rdiv. rewrite Rmult_assoc, Rinv_l by lra. lra. }
    rewrite Ht, ln_mult by lra. rewrite HlnP.
    pose proof (ln_above t ltac:(lra)) as Hla.
    assert (Hh : (/ 2 ^ 33 <= t / 2)%R) by lra.
    apply div_ln2_ge. lra.
  - set (s := ((64 * P - J) / (64 * P))%R).
    assert (Hs : (J / 32 = 2 * P * (1 - s))%R) by (unfold s; field; lra).
    assert (Hs0 : (/ 2 ^ 33 <= s)%R).
    { unfold s. apply Rmult_le_reg_r with (64 * P)%R; [lra |].
      unfold Rdiv. rewrite Rmult_assoc, Rinv_l by lra.
      apply Rle_trans with 1%R; [| lra].
      apply Rmult_le_reg_l with (2 ^ 33)%R; [lra |].
      rewrite <- Rmult_assoc, Rinv_r by lra. lra. }
    assert (Hs1 : (s < 1)%R).
    { unfold s. apply Rmult_lt_reg_r with (64 * P)%R; [lra |].
      unfold Rdiv. rewrite Rmult_assoc, Rinv_l by lra. lra. }
    rewrite Hs, !ln_mult by lra. rewrite HlnP.
    pose proof (ln_below s ltac:(lra)) as Hlb.
    apply div_ln2_le. lra.
Qed.

Lemma Rabs_le_between a b : (Rabs a <= b -> - b <= a <= b)%R.
Proof. unfold Rabs. destruct (Rcase_abs a); lra. Qed.

Lemma exact_arithmetic_ieee : ieee exact_arithmetic.
Proof.
  unfold ieee, exact_arithmetic. cbn [to_double std_log2].
  assert (Hz : forall x, (Rabs (x - x) = 0)%R).
  { intros x. replace (x - x)%R with 0%R by lra. apply Rabs_R0. }
  split; [reflexivity |]. split.
  - intros x _. rewrite Hz. left. apply Rinv_0_lt_compat. lra.
  - split.
    + intros k Hk. replace k with (Z.of_nat (Z.to_nat k)) at 1 by lia.
      rewrite ln_pow2, INR_IZR_INZ, Z2Nat.id by lia.
      pose proof ln_2_pos. field. lra.
    + intros x _. rewrite Hz. left. apply Rinv_0_lt_compat. lra.
Qed.

Lemma fits_double_integer z : Z.abs z < 2 ^ 53 -> fits_double (IZR z).
Proof.
  intros Hz. exists z, 0. split; [exact Hz |]. split; [lia |].
  change (IZR (2 ^ 0)) with 1%R. lra.
Qed.

Lemma fits_double_32nd z : Z.abs z < 2 ^ 53 -> fits_double (IZR z / 32).
Proof.
  intros Hz. exists z, 5. split; [exact Hz |]. split; [lia |].
  change (IZR (2 ^ 5)) with 32%R. reflexivity.
Qed.

(** Below [2^32] bytes the double computation of line 917 yields the
    exact value that [log2_canopy] takes: the operands are doubles, so
    no rounding happens before the logarithm, and the logarithm of an
    argument that is not a power of two is too far from an integer for
    the error of [std::log2] to cross it. *)
Lemma double_canopy_depth_exact fp n :
  ieee fp -> 0 < n < 2 ^ 32 ->
  double_canopy_depth fp n = log2_canopy n.
Proof.
  intros (Hid & Hrnd & Hpow & Hacc) Hn.
  unfold double_canopy_depth, log2_canopy.
  rewrite (Hid (IZR n)) by (apply fits_double_integer; lia).
  rewrite (Hid (IZR n / 32)%R) by (apply fits_double_32nd; lia).
  replace (IZR n / 32 + 2)%R with (IZR (n + 64) / 32)%R
    by (rewrite plus_IZR; lra).
  rewrite (Hid (IZR (n + 64) / 32)%R) by (apply fits_double_32nd; lia).
  set (m := n / 32 + 2). set (k := Z.log2 m).
  assert (Hm : 2 <= m) by (unfold m; pose proof (Z.div_pos n 32); lia).
  destruct (Z.log2_spec m) as [Hlo Hhi]; [lia |]. fold k in Hlo, Hhi.
  rewrite <- Z.add_1_r in Hhi.
  assert (Hk1 : 1 <= k).
  { unfold k. change 1 with (Z.log2 2). apply Z.log2_le_mono. exact Hm. }
  assert (Hk27 : k <= 27).
  { assert (Hm28 : m < 2 ^ 28)
      by (unfold m; pose proof (Z.div_lt_upper_bound n 32 (2 ^ 27)); lia).
    destruct (Z.le_gt_cases k 27) as [H | H]; [exact H |].
    pose proof (Z.pow_le_mono_r 2 28 k ltac:(lia) ltac:(lia)). lia. }
  pose proof (Z.div_mod n 32 ltac:(lia)) as Hdm.
  pose proof (Z.mod_pos_bound n 32 ltac:(lia)) as Hr.
  assert (Hj : 32 * 2 ^ k <= n + 64 < 32 * 2 ^ (k + 1))
    by (unfold m in Hlo, Hhi; lia).
  assert (Hkr : (1 <= IZR k <= 27)%R) by (split; apply IZR_le; lia).
  assert (Hfloor : forall y, (IZR k - 1 <= y < IZR k)%R ->
                             double_to_uint32 y = k - 1).
  { intros y Hy. unfold double_to_uint32.
    destruct (Rle_dec 0 y) as [_ | Hneg]; [| lra].
    symmetry. apply Int_part_spec. rewrite minus_IZR. lra. }
  apply Hfloor.
  destruct (Z.eq_dec (n + 64) (32 * 2 ^ k)) as [He | Hne].
  - rewrite He, mult_IZR.
    replace (32 * IZR (2 ^ k) / 32)%R with (IZR (2 ^ k)) by lra.
    rewrite Hpow by lia. rewrite <- minus_IZR.
    rewrite Hid by (apply fits_double_integer; lia).
    rewrite minus_IZR. lra.
  - destruct (log2_margin k (n + 64) ltac:(lia) ltac:(lia)) as [Hl Hu].
    set (x := (IZR (n + 64) / 32)%R) in *.
    assert (Hx : (1 <= x)%R).
    { unfold x. assert (32 <= IZR (n + 64))%R by (apply IZR_le; lia). lra. }
    pose proof (Hacc x Hx) as Ha. apply Rabs_le_between in Ha.
    assert (He33 : (/ 2 ^ 34 + / 2 ^ 47 < / 2 ^ 33)%R) by lra.
    assert (He0 : (0 < / 2 ^ 47)%R) by lra.
    assert (Hv : (Rabs (std_log2 fp x - 1) <= 64)%R)
      by (apply Rabs_le; lra).
    pose proof (Hrnd _ Hv) as Hr'. apply Rabs_le_between in Hr'.
    lra.
Qed.

(** *** The claims about the decoder *)

(** C1 (the code departs from the claim).  The account [truncated_account]
    has a valid 42-byte header and nothing else: the change logs and the
    rightmost path it announces would end at byte 31800.  The decoder
    skips them without a check, the subtraction
    [data.size() - offset] wraps around to [2^64 - 31758], and the result
    is present instead of absent. *)
Theorem truncated_account_decodes :
  vsize truncated_account = 42 /\
  (exists h,
      DecodeHeader truncated_account = Some h /\
      max_buffer_size h = 64 /\ max_depth h = 14 /\
      tree_end h = 31800 /\
      canopy_byte_length truncated_account h = 2 ^ 64 - 31758) /\
  DecodeMerkleTreeAuthorityAndDepth truncated_account <> None.
Proof.
  split; [reflexivity |].
  assert (Hh : exists h, DecodeHeader truncated_account = Some h).
  { destruct (DecodeHeader truncated_account) as [h |] eqn:E;
      [eauto | vm_compute in E; discriminate]. }
  destruct Hh as [h Hh]. split.
  - exists h. split; [exact Hh |].
    vm_compute in Hh. injection Hh as <-. vm_compute. repeat split.
  - unfold DecodeMerkleTreeAuthorityAndDepth. rewrite Hh. discriminate.
Qed.

(** Whatever follows a header that decodes, and however short the buffer
    is, the decoder returns the authority and a depth. *)
Lemma Decode_present_after_header data h :
  DecodeHeader data = Some h ->
  DecodeMerkleTreeAuthorityAndDepth data
  = Some (canopy_depth_of (canopy_byte_length data h), authority_address h).
Proof.
  intros Hh. unfold DecodeMerkleTreeAuthorityAndDepth. rewrite Hh.
  reflexivity.
Qed.

Lemma le_value_nonneg s : 0 <= le_value s.
Proof.
  induction s as [| b s IH]; cbn [le_value fold_right]; [lia |].
  fold (le_value s). unfold byte_val. lia.
Qed.

(** The decoded depth in terms of the buffer alone, for a buffer below
    [2^32] bytes that holds the tree its header announces: the bytes left
    are counted after the 42 bytes of the header, the 8 + 6 and 8 + 8 + 8
    skipped bytes, [max_buffer_size] change logs of
    [32 + 32 * max_depth + 4 + 4] bytes and the rightmost path of
    [32 * max_depth + 32 + 4 + 4] bytes, the two fields being the
    little-endian values of the bytes 2 to 5 and 6 to 9. *)
Lemma decoded_depth_of_remaining data d a :
  vsize data < 2 ^ 32 ->
  DecodeMerkleTreeAuthorityAndDepth data = Some (d, a) ->
  let max_buffer_size := le_value (slice data 2 6) in
  let max_depth := le_value (slice data 6 10) in
  let remaining :=
    vsize data
    - (42 + (8 + 6) + (8 + 8 + 8)
       + max_buffer_size * (32 + 32 * max_depth + 4 + 4)
       + (32 * max_depth + 32 + 4 + 4)) in
  0 <= remaining ->
  d = canopy_depth_of remaining.
Proof.
  intros Hsz Hdec mbs md remaining Hrem.
  destruct (DecodeHeader data) as [h |] eqn:Hh;
    [| unfold DecodeMerkleTreeAuthorityAndDepth in Hdec; rewrite Hh in Hdec;
       discriminate].
  rewrite (Decode_present_after_header data h Hh) in Hdec.
  injection Hdec as <- _.
  pose proof (DecodeHeader_inv data h ltac:(lia) Hh)
    as (_ & _ & _ & _ & Hmbs & Hmd).
  unfold le_uint32 in Hmbs, Hmd. fold mbs in Hmbs. fold md in Hmd.
  pose proof (le_value_nonneg (slice data 2 6)) as Hmbs0.
  pose proof (le_value_nonneg (slice data 6 10)) as Hmd0.
  fold mbs in Hmbs0. fold md in Hmd0.
  assert (Hprod : 0 <= mbs * (32 + 32 * md + 4 + 4)) by nia.
  rewrite <- Hmbs, <- Hmd in *.
  assert (Hend : tree_end h
                 = 42 + (8 + 6) + (8 + 8 + 8)
                   + max_buffer_size h * (32 + 32 * max_depth h + 4 + 4)
                   + (32 * max_depth h + 32 + 4 + 4)).
  { apply (tree_end_layout data h); try assumption; lia. }
  unfold canopy_byte_length. rewrite Hend, Hmbs, Hmd.
  fold remaining. rewrite wrap64_small by lia.
  reflexivity.
Qed.

(** C8.  For a buffer below [2^32] bytes that decodes and that holds the
    header, the ring buffer and the rightmost-path record its header
    announces: with no byte left after them the canopy depth is 0, and
    with [remaining > 0] bytes left it is
    [floor(log2(remaining/32 + 2) - 1)], which is also what the double
    computation of the code yields under any arithmetic that meets
    [ieee].  The bytes left are counted from the layout itself: 42 bytes
    of header, 8 + 6 and 8 + 8 + 8 skipped bytes, [max_buffer_size]
    change logs of [32 + 32 * max_depth + 4 + 4] bytes and one path of
    [32 * max_depth + 32 + 4 + 4] bytes, with the two fields read from
    the bytes 2 to 5 and 6 to 9. *)
Theorem canopy_depth_formula data d a :
  vsize data < 2 ^ 32 ->
  DecodeMerkleTreeAuthorityAndDepth data = Some (d, a) ->
  let max_buffer_size := le_value (slice data 2 6) in
  let max_depth := le_value (slice data 6 10) in
  let remaining :=
    vsize data
    - (42 + (8 + 6) + (8 + 8 + 8)
       + max_buffer_size * (32 + 32 * max_depth + 4 + 4)
       + (32 * max_depth + 32 + 4 + 4)) in
  0 <= remaining ->
  (remaining = 0 -> d = 0) /\
  (0 < remaining ->
   d = spec_canopy_depth remaining /\
   forall fp, ieee fp -> d = double_canopy_depth fp remaining).
Proof.
  intros Hsz Hdec mbs md remaining Hrem.
  pose proof (decoded_depth_of_remaining data d a Hsz Hdec Hrem) as Hd.
  fold mbs md remaining in Hd.
  assert (Hlt : remaining < 2 ^ 32).
  { pose proof (le_value_nonneg (slice data 2 6)).
    pose proof (le_value_nonneg (slice data 6 10)).
    unfold remaining, mbs, md. nia. }
  unfold canopy_depth_of in Hd. split.
  - intros H0. rewrite H0 in Hd. exact Hd.
  - intros Hpos.
    destruct (remaining =? 0) eqn:E; [apply Z.eqb_eq in E; lia |].
    split.
    + rewrite Hd. apply log2_canopy_spec. lia.
    + intros fp Hfp. rewrite Hd. symmetry.
      apply double_canopy_depth_exact; [exact Hfp | lia].
Qed.

(** [canopy_depth_formula] on a complete account followed by 64 canopy
    bytes (two nodes): the decoded depth 1 is the value of the formula
    and of the double computation. *)
Lemma canopy_depth_formula_witness :
  spec_canopy_depth 64 = 1 /\ double_canopy_depth exact_arithmetic 64 = 1.
Proof.
  destruct (DecodeMerkleTreeAuthorityAndDepth (small_account 64))
    as [[d a] |] eqn:Hdec; [| vm_compute in Hdec; discriminate].
  assert (Hd : d = 1) by (vm_compute in Hdec; congruence).
  subst d.
  destruct (canopy_depth_formula (small_account 64) 1 a) as [_ H].
  - vm_compute. reflexivity.
  - exact Hdec.
  - vm_compute. discriminate.
  - change (0 < 64 -> 1 = spec_canopy_depth 64 /\
            forall fp, ieee fp -> 1 = double_canopy_depth fp 64) in H.
    destruct (H ltac:(lia)) as [Hs Hf].
    split; [symmetry; exact Hs |].
    symmetry. apply Hf. exact exact_arithmetic_ieee.
Defined.

(** With no canopy byte the depth is 0. *)
Example small_account_without_canopy :
  option_map fst (DecodeMerkleTreeAuthorityAndDepth (small_account 0))
  = Some 0.
Proof. vm_compute. reflexivity. Qed.

(** With 192 canopy bytes (six nodes) the depth is 2. *)
Example small_account_with_canopy :
  option_map fst (DecodeMerkleTreeAuthorityAndDepth (small_account 192))
  = Some 2.
Proof. vm_compute. reflexivity. Qed.

End DecoderFacts.

(** ** The instruction builder *)

Module BuilderFacts.
Import Builder.

Lemma byte_val_of_Z z : byte_val (byte_of_Z z) = z mod 256.
Proof.
  unfold byte_val, byte_of_Z.
  pose proof (Z.mod_pos_bound z 256 ltac:(lia)) as Hr.
  destruct (Byte.of_N (Z.to_N (z mod 256))) as [b |] eqn:E.
  - apply Byte.to_of_N in E. rewrite E. lia.
  - apply Byte.of_N_None_iff in E. lia.
Qed.

(** [UintToLEBytes] writes [vec_size] bytes whose little-endian value is
    the value written, reduced to that width. *)
Lemma UintToLEBytes_length n v : length (UintToLEBytes n v) = n.
Proof.
  revert v. induction n as [| n IH]; intros v; cbn [UintToLEBytes length];
    [reflexivity | rewrite IH; reflexivity].
Qed.

Lemma UintToLEBytes_value n v :
  le_value (UintToLEBytes n v) = v mod 256 ^ Z.of_nat n.
Proof.
  revert v. induction n as [| n IH]; intros v.
  - cbn. rewrite Z.mod_1_r. reflexivity.
  - cbn [UintToLEBytes le_value fold_right].
    change (fold_right (fun b acc => byte_val b + 256 * acc) 0
              (UintToLEBytes n (v / 256)))
      with (le_value (UintToLEBytes n (v / 256))).
    rewrite IH, byte_val_of_Z.
    rewrite Nat2Z.inj_succ, Z.pow_succ_r by lia.
    rewrite Z.rem_mul_r by lia. reflexivity.
Qed.

(** A decoded hash has the length asked for. *)
Lemma Base58Decode_length s len bs :
  Base58.Base58Decode s len = Some bs -> vsize bs = len.
Proof.
  unfold Base58.Base58Decode.
  destruct (Base58.digit_values _); [| discriminate].
  match goal with |- context [vsize ?l =? len] =>
    destruct (vsize l =? len) eqn:E end; [| discriminate].
  intros [= <-]. apply Z.eqb_eq. exact E.
Qed.

(** The loop over the proof path: it completes exactly when [end] is at
    most the length of the path, and then appends the first [end]
    entries in order. *)
Lemma push_proof_some rest count metas :
  count <= vsize rest ->
  push_proof rest count metas
  = Some (metas ++ map readonly_meta (firstn (Z.to_nat count) rest)).
Proof.
  revert count metas. induction rest as [| p rest IH]; intros count metas Hc.
  - cbn [push_proof]. unfold vsize in Hc. cbn in Hc.
    destruct (0 <? count) eqn:E; [apply Z.ltb_lt in E; lia |].
    rewrite firstn_nil. cbn. rewrite app_nil_r. reflexivity.
  - cbn [push_proof]. destruct (0 <? count) eqn:E.
    + apply Z.ltb_lt in E. rewrite IH.
      * replace (Z.to_nat count) with (S (Z.to_nat (count - 1))) by lia.
        cbn [firstn map]. rewrite <- app_assoc. reflexivity.
      * unfold vsize in *. cbn [length] in Hc. lia.
    + apply Z.ltb_ge in E.
      replace (Z.to_nat count) with 0%nat by lia.
      cbn. rewrite app_nil_r. reflexivity.
Qed.

Lemma push_proof_none rest count metas :
  vsize rest < count -> push_proof rest count metas = None.
Proof.
  revert count metas. induction rest as [| p rest IH]; intros count metas Hc.
  - cbn [push_proof]. unfold vsize in Hc. cbn in Hc.
    destruct (0 <? count) eqn:E; [reflexivity | apply Z.ltb_ge in E; lia].
  - cbn [push_proof]. pose proof (vsize_nonneg (p :: rest)).
    destruct (0 <? count) eqn:E; [| apply Z.ltb_ge in E; lia].
    apply IH. unfold vsize in *. cbn [length] in Hc. lia.
Qed.

(** When the three hashes decode, the builder either returns an
    instruction or reads outside the proof path, according to the
    canopy depth recorded in the proof. *)
Lemma Transfer_cases arg tree_authority new_leaf_owner p r d c :
  0 <= canopy_depth p < 2 ^ 64 -> vsize (proof p) < 2 ^ 64 ->
  Base58.Base58Decode (root p) 32 = Some r ->
  Base58.Base58Decode (data_hash p) 32 = Some d ->
  Base58.Base58Decode (creator_hash p) 32 = Some c ->
  Transfer arg tree_authority new_leaf_owner p
  = if canopy_depth p <=? vsize (proof p)
    then Built
           {| program_id := kSolanaBubbleGumProgramId;
              accounts :=
                fixed_accounts tree_authority new_leaf_owner p
                ++ map readonly_meta
                     (firstn (Z.to_nat (vsize (proof p) - canopy_depth p))
                        (proof p));
              data :=
                ((((transfer_instruction_discriminator ++ r) ++ d) ++ c)
                 ++ UintToLEBytes 8 (wrap64 (leaf_index p)))
                ++ UintToLEBytes 4 (wrap32 (leaf_index p)) |}
    else OutOfBounds.
Proof.
  intros Hcd Hlen Hr Hd Hc. unfold Transfer. rewrite Hr, Hd, Hc.
  pose proof (vsize_nonneg (proof p)) as H0.
  destruct (canopy_depth p <=? vsize (proof p)) eqn:E.
  - apply Z.leb_le in E.
    rewrite (wrap64_small (vsize (proof p) - canopy_depth p)) by lia.
    rewrite push_proof_some by lia. reflexivity.
  - apply Z.leb_gt in E.
    assert (Hw : wrap64 (vsize (proof p) - canopy_depth p)
                 = 2 ^ 64 + (vsize (proof p) - canopy_depth p)).
    { unfold wrap64. symmetry.
      apply Z.mod_unique with (q := -1); lia. }
    rewrite Hw, push_proof_none by lia. reflexivity.
Qed.

(** C2 (the code departs from the claim).  With a proof path of two
    siblings and a canopy depth of 3, the subtraction
    [proof.proof.size() - proof.canopy_depth] wraps around to [2^64 - 1]
    and the loop reads [proof.proof[2]], outside the path: the builder
    does not return absent. *)
Theorem Transfer_short_proof_out_of_bounds :
  vsize (proof short_proof) = 2 /\ canopy_depth short_proof = 3 /\
  wrap64 (vsize (proof short_proof) - canopy_depth short_proof)
  = 2 ^ 64 - 1 /\
  Transfer 3 "authority" "new_owner" short_proof = OutOfBounds.
Proof. repeat split; vm_compute; reflexivity. Qed.

(** The same for every proof whose hashes decode: a canopy depth beyond
    the path is never answered with absent. *)
Lemma Transfer_canopy_beyond_path arg tree_authority new_leaf_owner p r d c :
  0 <= canopy_depth p < 2 ^ 64 -> vsize (proof p) < 2 ^ 64 ->
  Base58.Base58Decode (root p) 32 = Some r ->
  Base58.Base58Decode (data_hash p) 32 = Some d ->
  Base58.Base58Decode (creator_hash p) 32 = Some c ->
  vsize (proof p) < canopy_depth p ->
  Transfer arg tree_authority new_leaf_owner p = OutOfBounds.
Proof.
  intros Hcd Hlen Hr Hd Hc Hgt.
  rewrite (Transfer_cases _ _ _ _ r d c) by assumption.
  destruct (canopy_depth p <=? vsize (proof p)) eqn:E;
    [apply Z.leb_le in E; lia | reflexivity].
Qed.

(** C6 (the code departs from the claim).  The builder is handed the
    canopy depth decoded from the Merkle-tree account and does not read
    it: the number of trailing accounts is computed from
    [proof.canopy_depth].  Built with the canopy-depth argument 0 from a
    proof of three siblings that records a canopy depth of 1, the
    instruction has two trailing account metas, not 3 - 0; and whatever
    the argument is, the instruction built is the same. *)
Theorem Transfer_trailing_not_from_argument :
  vsize (proof sample_proof) = 3 /\ canopy_depth sample_proof = 1 /\
  (exists i,
      Transfer 0 "authority" "new_owner" sample_proof = Built i /\
      vsize (skipn 8 (accounts i)) = 2 /\
      vsize (skipn 8 (accounts i)) <> vsize (proof sample_proof) - 0) /\
  (forall arg tree_authority new_leaf_owner p,
      Transfer arg tree_authority new_leaf_owner p
      = Transfer 0 tree_authority new_leaf_owner p).
Proof.
  split; [reflexivity |]. split; [reflexivity |]. split.
  - eexists. split; [vm_compute; reflexivity |].
    split; [reflexivity | vm_compute; discriminate].
  - reflexivity.
Qed.

(** What a successful build holds, as the code is written.  The data is
    the 8-byte discriminator followed by 108 bytes: the three decoded
    32-byte hashes, the leaf index as 8 little-endian bytes and the low
    32 bits of the same leaf index as 4 little-endian bytes.  After the 8
    fixed accounts come account metas taken from the proof path in
    order, none a signer and none writable; their number is
    [len(proof_path) - proof.canopy_depth], computed from the depth
    recorded in the proof and not from the canopy-depth argument, which
    is where the code departs from what is asked of it. *)
Theorem Transfer_layout arg tree_authority new_leaf_owner p i :
  0 <= leaf_index p < 2 ^ 64 ->
  0 <= canopy_depth p < 2 ^ 64 ->
  vsize (proof p) < 2 ^ 64 ->
  Transfer arg tree_authority new_leaf_owner p = Built i ->
  (exists r d c nonce index,
      Base58.Base58Decode (root p) 32 = Some r /\
      Base58.Base58Decode (data_hash p) 32 = Some d /\
      Base58.Base58Decode (creator_hash p) 32 = Some c /\
      vsize r = 32 /\ vsize d = 32 /\ vsize c = 32 /\
      vsize nonce = 8 /\ le_value nonce = leaf_index p /\
      vsize index = 4 /\ le_value index = leaf_index p mod 2 ^ 32 /\
      data i
      = map byte_of_Z [163; 52; 200; 231; 140; 3; 69; 186]
        ++ r ++ d ++ c ++ nonce ++ index) /\
  vsize (data i) = 8 + 108 /\
  firstn 8 (accounts i) = fixed_accounts tree_authority new_leaf_owner p /\
  canopy_depth p <= vsize (proof p) /\
  vsize (skipn 8 (accounts i)) = vsize (proof p) - canopy_depth p /\
  map pubkey (skipn 8 (accounts i))
  = firstn (Z.to_nat (vsize (proof p) - canopy_depth p)) (proof p) /\
  Forall (fun m => is_signer m = false /\ is_writable m = false)
    (skipn 8 (accounts i)).
Proof.
  intros Hli Hcd Hlen Hbuilt.
  destruct (Base58.Base58Decode (root p) 32) as [r |] eqn:Hr;
    [| unfold Transfer in Hbuilt; rewrite Hr in Hbuilt; discriminate].
  destruct (Base58.Base58Decode (data_hash p) 32) as [d |] eqn:Hd;
    [| unfold Transfer in Hbuilt; rewrite Hr, Hd in Hbuilt; discriminate].
  destruct (Base58.Base58Decode (creator_hash p) 32) as [c |] eqn:Hc;
    [| unfold Transfer in Hbuilt; rewrite Hr, Hd, Hc in Hbuilt;
       discriminate].
  rewrite (Transfer_cases _ _ _ _ r d c) in Hbuilt by assumption.
  destruct (canopy_depth p <=? vsize (proof p)) eqn:E; [| discriminate].
  apply Z.leb_le in E.
  set (nonce := UintToLEBytes 8 (wrap64 (leaf_index p))) in *.
  set (index := UintToLEBytes 4 (wrap32 (leaf_index p))) in *.
  set (n := Z.to_nat (vsize (proof p) - canopy_depth p)) in *.
  assert (Hdata : data i
                  = map byte_of_Z [163; 52; 200; 231; 140; 3; 69; 186]
                    ++ r ++ d ++ c ++ nonce ++ index).
  { injection Hbuilt as <-. unfold data.
    rewrite <- !app_assoc. reflexivity. }
  assert (Hacc : accounts i
                 = fixed_accounts tree_authority new_leaf_owner p
                   ++ map readonly_meta (firstn n (proof p))).
  { injection Hbuilt as <-. reflexivity. }
  clear Hbuilt.
  pose proof (Base58Decode_length _ _ _ Hr) as Lr.
  pose proof (Base58Decode_length _ _ _ Hd) as Ld.
  pose proof (Base58Decode_length _ _ _ Hc) as Lc.
  assert (Lnonce : vsize nonce = 8)
    by (unfold vsize, nonce; rewrite UintToLEBytes_length; reflexivity).
  assert (Lindex : vsize index = 4)
    by (unfold vsize, index; rewrite UintToLEBytes_length; reflexivity).
  assert (Hn : (n <= length (proof p))%nat) by (unfold n, vsize in *; lia).
  assert (Hskip : skipn 8 (accounts i)
                  = map readonly_meta (firstn n (proof p)))
    by (rewrite Hacc; reflexivity).
  split; [| split; [| split; [| split; [| split; [| split]]]]].
  - exists r, d, c, nonce, index.
    split; [reflexivity |]. split; [reflexivity |]. split; [reflexivity |].
    split; [exact Lr |]. split; [exact Ld |]. split; [exact Lc |].
    split; [exact Lnonce |].
    split.
    { unfold nonce. rewrite UintToLEBytes_value, wrap64_small by lia.
      apply Z.mod_small. exact Hli. }
    split; [exact Lindex |].
    split; [| exact Hdata].
    unfold index. rewrite UintToLEBytes_value. unfold wrap32.
    change (256 ^ Z.of_nat 4) with (2 ^ 32). apply Z.mod_mod. lia.
  - rewrite Hdata, !vsize_app, Lr, Ld, Lc, Lnonce, Lindex. reflexivity.
  - rewrite Hacc. reflexivity.
  - exact E.
  - rewrite Hskip. unfold vsize.
    rewrite length_map, length_firstn. unfold n, vsize in *. lia.
  - rewrite Hskip, map_map. cbn [readonly_meta pubkey]. apply map_id.
  - rewrite Hskip. apply List.Forall_forall.
    intros m Hm. apply in_map_iff in Hm. destruct Hm as (k & <- & _).
    split; reflexivity.
Qed.

(** [Transfer_layout] on [sample_proof]: the two trailing accounts are the
    first two siblings. *)
Lemma Transfer_layout_witness :
  exists i,
    Transfer 0 "authority" "new_owner" sample_proof = Built i /\
    vsize (data i) = 8 + 108 /\
    map pubkey (skipn 8 (accounts i)) = ["sibling0"; "sibling1"].
Proof.
  eexists. split; [vm_compute; reflexivity |].
  match goal with
  | |- vsize (data ?i) = _ /\ _ =>
      destruct (Transfer_layout 0 "authority" "new_owner" sample_proof i)
        as (_ & Hdata & _ & _ & _ & Hkeys & _)
  end.
  - vm_compute. split; [discriminate | reflexivity].
  - vm_compute. split; [discriminate | reflexivity].
  - vm_compute. reflexivity.
  - vm_compute. reflexivity.
  - split; [exact Hdata | exact Hkeys].
Defined.

End BuilderFacts.

(** ** The transaction manager *)

Module TxManagerFacts.
Import Builder TxManager.

(** *** The store *)

Lemma keyed_insert s m : keyed s -> keyed (<[id m := m]> s).
Proof.
  intros Hs k m' Hl. rewrite lookup_insert in Hl.
  destruct (decide (id m = k)) as [Heq | Hne].
  - injection Hl as <-. exact Heq.
  - apply Hs. exact Hl.
Qed.

Lemma AddOrUpdateTx_keyed env meta w :
  keyed (store w) -> keyed (store (snd (AddOrUpdateTx env meta w))).
Proof.
  intros Hs. cbn. destruct (storage_accepts env meta);
    [apply keyed_insert |]; exact Hs.
Qed.

Lemma AddOrUpdateTx_other env meta w k :
  id meta <> k ->
  store (snd (AddOrUpdateTx env meta w)) !! k = store w !! k.
Proof.
  intros Hne. cbn. destruct (storage_accepts env meta); [| reflexivity].
  apply lookup_insert_ne. exact Hne.
Qed.

Lemma AddOrUpdateTx_same env meta w :
  storage_accepts env meta = true ->
  store (snd (AddOrUpdateTx env meta w)) !! id meta = Some meta.
Proof. intros Hok. cbn. rewrite Hok. apply lookup_insert_eq. Qed.

(** *** One step of reconciliation *)

(** What the loop body does with the meta it finds, branch by branch. *)
Lemma examine_found env h k st w meta :
  store w !! k = Some meta ->
  examine env h k st w
  = (tt,
     match st with
     | None =>
         if negb (height_of meta =? 0) && (height_of meta <? h)
         then snd (AddOrUpdateTx env (set_status Dropped meta) w)
         else w
     | Some s =>
         if negb (empty (err s))
         then snd (AddOrUpdateTx env
                     (set_status Error (set_signature_status s meta)) w)
         else if negb (empty (confirmation_status s))
         then if String.eqb (confirmation_status s) "finalized"
              then snd (AddOrUpdateTx env
                          (set_confirmed_time (clock w)
                             (set_status Confirmed
                                (set_signature_status s meta))) w)
              else snd (AddOrUpdateTx env (set_signature_status s meta) w)
         else w
     end).
Proof.
  intros Hl. unfold examine, bind, GetSolanaTx, ret, Now. rewrite Hl.
  destruct st as [s |].
  - destruct (negb (empty (err s))); [reflexivity |].
    destruct (negb (empty (confirmation_status s))); [| reflexivity].
    destruct (String.eqb (confirmation_status s) "finalized"); reflexivity.
  - destruct (negb (height_of meta =? 0) && (height_of meta <? h));
      reflexivity.
Qed.

Lemma examine_missing env h k st w :
  store w !! k = None -> examine env h k st w = (tt, w).
Proof.
  intros Hl. unfold examine, bind, GetSolanaTx, ret. rewrite Hl. reflexivity.
Qed.

(** A step either leaves the store alone or rewrites the meta it examined,
    keeping its id and its transaction; it never moves the clock. *)
Lemma examine_step env h k st w :
  clock (snd (examine env h k st w)) = clock w /\
  generated_ids (snd (examine env h k st w)) = generated_ids w /\
  (store (snd (examine env h k st w)) = store w \/
   exists meta meta',
     store w !! k = Some meta /\
     store (snd (examine env h k st w)) = <[id meta := meta']> (store w) /\
     id meta' = id meta /\ tx meta' = tx meta /\
     (status meta' = Dropped ->
      status meta = Dropped \/
      (st = None /\ height_of meta <> 0 /\ height_of meta < h))).
Proof.
  destruct (store w !! k) as [meta |] eqn:Hl.
  2:{ rewrite examine_missing by exact Hl. auto. }
  rewrite (examine_found _ _ _ _ _ meta Hl). cbn [snd].
  assert (Hwrite : forall meta',
             id meta' = id meta -> tx meta' = tx meta ->
             (status meta' = Dropped ->
              status meta = Dropped \/
              (st = None /\ height_of meta <> 0 /\ height_of meta < h)) ->
             let w' := snd (AddOrUpdateTx env meta' w) in
             clock w' = clock w /\ generated_ids w' = generated_ids w /\
             (store w' = store w \/
              exists meta0 meta1,
                Some meta = Some meta0 /\
                store w' = <[id meta0 := meta1]> (store w) /\
                id meta1 = id meta0 /\ tx meta1 = tx meta0 /\
                (status meta1 = Dropped ->
                 status meta0 = Dropped \/
                 (st = None /\ height_of meta0 <> 0 /\ height_of meta0 < h)))).
  { intros meta' Hid Htx Hst. cbn.
    destruct (storage_accepts env meta'); [| auto].
    split; [reflexivity |]. split; [reflexivity |]. right.
    exists meta, meta'. rewrite Hid. auto. }
  destruct st as [s |].
  - destruct (negb (empty (err s))).
    { apply Hwrite; [reflexivity | reflexivity | discriminate]. }
    destruct (negb (empty (confirmation_status s))); [| auto].
    destruct (String.eqb (confirmation_status s) "finalized").
    + apply Hwrite; [reflexivity | reflexivity | discriminate].
    + apply Hwrite; [reflexivity | reflexivity | cbn; auto].
  - destruct (negb (height_of meta =? 0) && (height_of meta <? h)) eqn:E;
      [| auto].
    apply andb_true_iff in E. destruct E as [E1 E2].
    apply negb_true_iff, Z.eqb_neq in E1. apply Z.ltb_lt in E2.
    apply Hwrite; [reflexivity | reflexivity | auto].
Qed.

Lemma examine_keyed env h k st w :
  keyed (store w) -> keyed (store (snd (examine env h k st w))).
Proof.
  intros Hs. destruct (examine_step env h k st w) as (_ & _ & [-> | H]);
    [exact Hs |].
  destruct H as (meta & meta' & _ & -> & Hid & _).
  rewrite <- Hid. apply keyed_insert. exact Hs.
Qed.

Lemma examine_other env h k st w k' :
  keyed (store w) -> k <> k' ->
  store (snd (examine env h k st w)) !! k' = store w !! k'.
Proof.
  intros Hs Hne. destruct (examine_step env h k st w) as (_ & _ & [-> | H]);
    [reflexivity |].
  destruct H as (meta & meta' & Hl & -> & _).
  apply lookup_insert_ne. rewrite (Hs _ _ Hl). exact Hne.
Qed.

(** The entry a step leaves at the key it examined depends only on the
    entry it found there and on the clock. *)
Lemma examine_local env h k st w1 w2 :
  store w1 !! k = store w2 !! k -> clock w1 = clock w2 ->
  keyed (store w1) -> keyed (store w2) ->
  store (snd (examine env h k st w1)) !! k
  = store (snd (examine env h k st w2)) !! k.
Proof.
  intros Hl Hc Hk1 Hk2. destruct (store w2 !! k) as [meta |] eqn:H2.
  2:{ rewrite !examine_missing by congruence. cbn. congruence. }
  rewrite (examine_found _ _ _ _ w1 meta Hl).
  rewrite (examine_found _ _ _ _ w2 meta H2). cbn [snd].
  pose proof (Hk2 _ _ H2) as Hid.
  assert (Hw : forall meta',
             id meta' = k ->
             store (snd (AddOrUpdateTx env meta' w1)) !! k
             = store (snd (AddOrUpdateTx env meta' w2)) !! k).
  { intros meta' Hid'. cbn. destruct (storage_accepts env meta').
    - rewrite <- Hid', !lookup_insert_eq. reflexivity.
    - congruence. }
  rewrite Hc.
  destruct st as [s |].
  - destruct (negb (empty (err s))); [apply Hw; exact Hid |].
    destruct (negb (empty (confirmation_status s))); [| congruence].
    destruct (String.eqb (confirmation_status s) "finalized");
      apply Hw; exact Hid.
  - destruct (negb (height_of meta =? 0) && (height_of meta <? h));
      [apply Hw; exact Hid | congruence].
Qed.

(** *** The reconciliation loop *)

Lemma examine_all_frame env h ids : forall sts w,
  keyed (store w) ->
  keyed (store (snd (examine_all env h ids sts w))) /\
  clock (snd (examine_all env h ids sts w)) = clock w /\
  forall k, k ∉ ids ->
    store (snd (examine_all env h ids sts w)) !! k = store w !! k.
Proof.
  induction ids as [| k0 ids IH]; intros sts w Hs.
  - cbn. auto.
  - destruct sts as [| s0 sts]; [cbn; auto |].
    cbn [examine_all]. unfold bind.
    destruct (examine env h k0 s0 w) as [[] w1] eqn:E1.
    assert (Hw1 : w1 = snd (examine env h k0 s0 w)) by (rewrite E1; reflexivity).
    destruct (IH sts w1) as (Hk & Hc & Ho).
    { rewrite Hw1. apply examine_keyed. exact Hs. }
    split; [exact Hk |]. split.
    + rewrite Hc, Hw1. apply examine_step.
    + intros k Hk0. apply not_elem_of_cons in Hk0. destruct Hk0 as [Hne Hni].
      rewrite Ho by exact Hni. rewrite Hw1.
      apply examine_other; [exact Hs | congruence].
Qed.

(** With pairwise distinct ids, the entry of the i-th id after the loop is
    the one its own step leaves. *)
Lemma examine_all_at env h ids : forall sts i k st w,
  keyed (store w) -> NoDup ids ->
  ids !! i = Some k -> sts !! i = Some st ->
  store (snd (examine_all env h ids sts w)) !! k
  = store (snd (examine env h k st w)) !! k.
Proof.
  induction ids as [| k0 ids IH]; intros sts i k st w Hs Hnd Hi Hst.
  - rewrite lookup_nil in Hi. discriminate.
  - destruct sts as [| s0 sts]; [rewrite lookup_nil in Hst; discriminate |].
    apply NoDup_cons in Hnd. destruct Hnd as [Hni Hnd].
    cbn [examine_all]. unfold bind.
    destruct (examine env h k0 s0 w) as [[] w1] eqn:E1.
    assert (Hw1 : w1 = snd (examine env h k0 s0 w)) by (rewrite E1; reflexivity).
    assert (Hk1 : keyed (store w1))
      by (rewrite Hw1; apply examine_keyed; exact Hs).
    destruct i as [| i].
    + cbn in Hi, Hst. injection Hi as ->. injection Hst as ->.
      destruct (examine_all_frame env h ids sts w1 Hk1) as (_ & _ & Ho).
      rewrite Ho by exact Hni. rewrite Hw1. reflexivity.
    + cbn in Hi, Hst.
      assert (Hne : k0 <> k).
      { intros ->. apply Hni. eapply list_elem_of_lookup_2. exact Hi. }
      rewrite (IH sts i k st w1 Hk1 Hnd Hi Hst).
      apply examine_local; [| | exact Hk1 | exact Hs].
      * rewrite Hw1. apply examine_other; assumption.
      * rewrite Hw1. apply examine_step.
Qed.

Lemma empty_true s : empty s = true <-> s = "".
Proof. destruct s; cbn; split; congruence. Qed.

Lemma empty_false s : empty s = false <-> s <> "".
Proof. destruct s; cbn; split; congruence. Qed.

Lemma world_of_keyed metas : keyed (store (world_of metas)).
Proof.
  intros k m Hl. cbn in Hl. apply elem_of_list_to_map_2 in Hl.
  apply list_elem_of_In, in_map_iff in Hl.
  destruct Hl as (m' & [= <- <-] & _). reflexivity.
Qed.

(** *** C3 *)

(** C3 as stated fails.  A submitted transaction with last valid block
    height 0 for which no status is returned at height 1000 stays
    Submitted; and a returned status with neither an error nor a
    confirmation level is not stored. *)
Lemma reconciliation_claim_fails :
  let meta := sample_meta "tx1" Submitted "blockhash" 0 [] in
  let w := world_of [meta] in
  let s := {| slot := 7; confirmations := 1; err := "";
              confirmation_status := "" |} in
  (height_of meta < 1000 /\
   store (snd (OnGetSignatureStatuses sample_env "0x65" ["tx1"] 1000
                 [None] kSuccess "" w)) !! "tx1" = Some meta /\
   status meta = Submitted) /\
  (store (snd (OnGetSignatureStatuses sample_env "0x65" ["tx1"] 1000
                 [Some s] kSuccess "" w)) !! "tx1" = Some meta /\
   signature_status meta <> s).
Proof.
  cbv zeta. split; [split; [| split] | split].
  - reflexivity.
  - vm_compute. reflexivity.
  - reflexivity.
  - vm_compute. reflexivity.
  - discriminate.
Qed.

(** C3, amended.  For the i-th transaction examined, with the block height
    [h] just fetched and the status [st] returned for it (ids pairwise
    distinct, storage accepting the write):
    - no status, last valid block height non-zero and below [h]: Dropped;
    - no status otherwise: unchanged;
    - a status with an error: Error, the status stored;
    - a status without error at level "finalized": Confirmed, the status
      stored and the confirmation time set to the current time;
    - a status without error at another non-empty level: only the signature
      status is stored;
    - a status with neither error nor level: unchanged. *)
Theorem reconciliation_outcome env w chain ids h sts i k st meta :
  keyed (store w) -> NoDup ids -> length ids = length sts ->
  (forall m, storage_accepts env m = true) ->
  ids !! i = Some k -> sts !! i = Some st -> store w !! k = Some meta ->
  exists meta',
    store (snd (OnGetSignatureStatuses env chain ids h sts kSuccess "" w))
      !! k = Some meta' /\
    (st = None -> height_of meta <> 0 -> height_of meta < h ->
     meta' = set_status Dropped meta) /\
    (st = None -> height_of meta = 0 \/ h <= height_of meta ->
     meta' = meta) /\
    (forall s, st = Some s -> err s <> "" ->
     meta' = set_status Error (set_signature_status s meta)) /\
    (forall s, st = Some s -> err s = "" ->
     confirmation_status s = "finalized" ->
     meta' = set_confirmed_time (clock w)
               (set_status Confirmed (set_signature_status s meta))) /\
    (forall s, st = Some s -> err s = "" ->
     confirmation_status s <> "" -> confirmation_status s <> "finalized" ->
     meta' = set_signature_status s meta /\ status meta' = status meta) /\
    (forall s, st = Some s -> err s = "" -> confirmation_status s = "" ->
     meta' = meta).
Proof.
  intros Hs Hnd Hlen Hok Hi Hst Hl.
  unfold OnGetSignatureStatuses. cbn [is_success negb].
  rewrite Hlen, Nat.eqb_refl. cbn [negb].
  rewrite (examine_all_at env h ids sts i k st w Hs Hnd Hi Hst).
  rewrite (examine_found _ _ _ _ _ meta Hl). cbn [snd].
  pose proof (Hs _ _ Hl) as Hid.
  assert (Hw : forall meta', id meta' = k ->
             store (snd (AddOrUpdateTx env meta' w)) !! k = Some meta').
  { intros meta' <-. apply AddOrUpdateTx_same, Hok. }
  destruct st as [s |].
  - destruct (empty (err s)) eqn:Ee; cbn [negb].
    + apply empty_true in Ee.
      destruct (empty (confirmation_status s)) eqn:Ec; cbn [negb].
      * apply empty_true in Ec. exists meta.
        split; [exact Hl |]. repeat apply conj; try (intros Habs; discriminate Habs);
          intros s' [= <-]; congruence.
      * apply empty_false in Ec.
        destruct (String.eqb (confirmation_status s) "finalized") eqn:Ef.
        -- apply String.eqb_eq in Ef. eexists.
           split; [apply Hw; exact Hid |].
           repeat apply conj; try (intros Habs; discriminate Habs); intros s' [= <-]; congruence.
        -- apply String.eqb_neq in Ef. eexists.
           split; [apply Hw; exact Hid |].
           repeat apply conj; try (intros Habs; discriminate Habs); intros s' [= <-];
             try congruence.
           intros; split; reflexivity.
    + apply empty_false in Ee. eexists. split; [apply Hw; exact Hid |].
      repeat apply conj; try (intros Habs; discriminate Habs); intros s' [= <-]; congruence.
  - destruct (negb (height_of meta =? 0) && (height_of meta <? h)) eqn:E.
    + apply andb_true_iff in E. destruct E as [E1 E2].
      apply negb_true_iff, Z.eqb_neq in E1. apply Z.ltb_lt in E2.
      eexists. split; [apply Hw; exact Hid |].
      repeat apply conj; try (intros s Habs; discriminate Habs).
      * reflexivity.
      * intros _ [H0 | H0]; [congruence | lia].
    + apply andb_false_iff in E. exists meta. split; [exact Hl |].
      repeat apply conj; try (intros s Habs; discriminate Habs).
      * intros _ Hne Hlt. destruct E as [E | E].
        -- apply negb_false_iff, Z.eqb_eq in E. congruence.
        -- apply Z.ltb_ge in E. lia.
      * reflexivity.
Qed.

(** [reconciliation_outcome] on two submitted transactions at height 1000:
    the second one, valid up to height 500 and without status, is
    dropped. *)
Lemma reconciliation_outcome_witness :
  let meta := sample_meta "tx2" Submitted "blockhash" 500 [] in
  let w := world_of [sample_meta "tx1" Submitted "blockhash" 0 []; meta] in
  store (snd (OnGetSignatureStatuses sample_env "0x65" ["tx1"; "tx2"] 1000
                [None; None] kSuccess "" w)) !! "tx2"
  = Some (set_status Dropped meta).
Proof.
  cbv zeta.
  destruct
    (reconciliation_outcome sample_env
       (world_of [sample_meta "tx1" Submitted "blockhash" 0 [];
                  sample_meta "tx2" Submitted "blockhash" 500 []])
       "0x65" ["tx1"; "tx2"] 1000 [None; None] 1 "tx2" None
       (sample_meta "tx2" Submitted "blockhash" 500 []))
    as (meta' & Hstored & Hdropped & _).
  - apply world_of_keyed.
  - apply (bool_decide_unpack _). vm_compute. exact I.
  - reflexivity.
  - reflexivity.
  - reflexivity.
  - reflexivity.
  - vm_compute. reflexivity.
  - rewrite Hstored. f_equal. apply Hdropped.
    + reflexivity.
    + vm_compute. discriminate.
    + vm_compute. reflexivity.
Defined.

(** *** What reconciliation preserves *)

Lemma examine_preserves env h k st k0 P w :
  reconciliation_stable P ->
  entry_satisfies k0 P w ->
  entry_satisfies k0 P (snd (examine env h k st w)).
Proof.
  intros HP (Hs & m & Hl & Hm).
  split; [apply examine_keyed; exact Hs |].
  destruct (examine_step env h k st w) as (_ & _ & [-> | H]); [eauto |].
  destruct H as (meta & meta' & Hk & -> & Hid & Htx & Hdrop).
  destruct (decide (id meta = k0)) as [Heq | Hne].
  - exists meta'. rewrite Heq, lookup_insert_eq.
    assert (meta = m) as -> by (rewrite (Hs _ _ Hk) in Heq; congruence).
    split; [reflexivity |]. apply (HP m meta' Htx); [| exact Hm].
    intros Hd. destruct (Hdrop Hd) as [? | (_ & ? & _)]; auto.
  - exists m. rewrite lookup_insert_ne by exact Hne. auto.
Qed.

Lemma examine_all_preserves env h k0 P ids : forall sts w,
  reconciliation_stable P ->
  entry_satisfies k0 P w ->
  entry_satisfies k0 P (snd (examine_all env h ids sts w)).
Proof.
  induction ids as [| k ids IH]; intros sts w HP Hw; [exact Hw |].
  destruct sts as [| s sts]; [exact Hw |].
  cbn [examine_all]. unfold bind.
  destruct (examine env h k s w) as [[] w1] eqn:E1.
  apply IH; [exact HP |].
  replace w1 with (snd (examine env h k s w)) by (rewrite E1; reflexivity).
  apply examine_preserves; assumption.
Qed.

Lemma OnGetSignatureStatuses_preserves env chain ids h sts e msg k0 P w :
  reconciliation_stable P ->
  entry_satisfies k0 P w ->
  entry_satisfies k0 P
    (snd (OnGetSignatureStatuses env chain ids h sts e msg w)).
Proof.
  intros HP Hw. unfold OnGetSignatureStatuses.
  destruct (negb (is_success e)); [exact Hw |].
  destruct (negb (length ids =? length sts)%nat); [exact Hw |].
  apply examine_all_preserves; assumption.
Qed.

Lemma OnGetBlockHeight_preserves env chain h e msg k0 P w :
  reconciliation_stable P ->
  entry_satisfies k0 P w ->
  entry_satisfies k0 P (snd (OnGetBlockHeight env chain h e msg w)).
Proof.
  intros HP Hw. unfold OnGetBlockHeight.
  destruct (negb (is_success e)); [exact Hw |].
  unfold bind, GetTransactionsByStatus. cbn [emit].
  destruct (GetSolanaSignatureStatuses env chain _) as [[sts e'] msg'].
  apply OnGetSignatureStatuses_preserves; assumption.
Qed.

Lemma query_chain_preserves env chain k0 P w :
  reconciliation_stable P ->
  entry_satisfies k0 P w ->
  entry_satisfies k0 P (snd (query_chain env chain w)).
Proof.
  intros HP Hw. unfold query_chain, bind. cbn [emit].
  destruct (GetSolanaBlockHeight env chain) as [[h e] msg].
  apply OnGetBlockHeight_preserves; assumption.
Qed.

Lemma query_pending_preserves env k0 P pending : forall seen w,
  reconciliation_stable P ->
  entry_satisfies k0 P w ->
  entry_satisfies k0 P (snd (query_pending env pending seen w)).
Proof.
  induction pending as [| m pending IH]; intros seen w HP Hw; [exact Hw |].
  cbn [query_pending].
  destruct (existsb (String.eqb (chain_id m)) seen); [apply IH; assumption |].
  unfold bind. destruct (query_chain env (chain_id m) w) as [[] w1] eqn:E1.
  apply IH; [exact HP |].
  replace w1 with (snd (query_chain env (chain_id m) w))
    by (rewrite E1; reflexivity).
  apply query_chain_preserves; assumption.
Qed.

Lemma UpdatePendingTransactions_preserves env chain k0 P w :
  reconciliation_stable P ->
  entry_satisfies k0 P w ->
  entry_satisfies k0 P (snd (UpdatePendingTransactions env chain w)).
Proof.
  intros HP Hw. unfold UpdatePendingTransactions, bind.
  destruct chain as [c |].
  - destruct (query_chain env c w) as [[] w1] eqn:E1. cbn [emit snd].
    replace w1 with (snd (query_chain env c w)) in *
      by (rewrite E1; reflexivity).
    apply (query_chain_preserves env c k0 P w HP Hw).
  - unfold GetTransactionsByStatus.
    match goal with
    | |- context [query_pending env ?p ?s w] =>
        destruct (query_pending env p s w) as [[] w1] eqn:E1;
        pose proof (query_pending_preserves env k0 P p s w HP Hw) as H1
    end.
    rewrite E1 in H1. exact H1.
Qed.

(** Reconciliation never moves a meta without last valid block height to
    Dropped, and never touches the transaction of a meta. *)
Lemma stable_undroppable :
  reconciliation_stable
    (fun m => height_of m = 0 /\ status m <> Dropped).
Proof.
  intros m m' Htx Hdrop [Hh Hst]. split.
  - unfold height_of in *. rewrite Htx. exact Hh.
  - intros Hd. destruct (Hdrop Hd); congruence.
Qed.

Lemma stable_tx t : reconciliation_stable (fun m => tx m = t).
Proof. intros m m' Htx _ Hm. congruence. Qed.

(** *** C10 *)

(** C10.  A submitted transaction whose last valid block height is 0 is
    still stored and not Dropped after a reconciliation, whatever the chain
    asked for, the block height fetched and the statuses returned. *)
Theorem zero_height_never_dropped env w k meta :
  keyed (store w) -> store w !! k = Some meta ->
  status meta = Submitted -> height_of meta = 0 ->
  (forall chain, exists meta',
      store (snd (UpdatePendingTransactions env chain w)) !! k = Some meta' /\
      status meta' <> Dropped) /\
  (forall chain ids block_height statuses error message, exists meta',
      store (snd (OnGetSignatureStatuses env chain ids block_height statuses
                    error message w)) !! k = Some meta' /\
      status meta' <> Dropped).
Proof.
  intros Hs Hl Hst Hh.
  assert (Hw : entry_satisfies k
                 (fun m => height_of m = 0 /\ status m <> Dropped) w).
  { split; [exact Hs |]. exists meta. rewrite Hst.
    split; [exact Hl |]. split; [exact Hh | discriminate]. }
  split.
  - intros chain.
    destruct (UpdatePendingTransactions_preserves env chain k _ w
                stable_undroppable Hw) as (_ & m & Hm & _ & Hnd).
    exists m. auto.
  - intros chain ids h sts e msg.
    destruct (OnGetSignatureStatuses_preserves env chain ids h sts e msg k _ w
                stable_undroppable Hw) as (_ & m & Hm & _ & Hnd).
    exists m. auto.
Qed.

(** [zero_height_never_dropped] on a world with one submitted transaction
    without last valid block height: after a reconciliation at height 1000
    with no status returned it is still Submitted. *)
Lemma zero_height_never_dropped_witness :
  let w := world_of [sample_meta "tx1" Submitted "blockhash" 0 []] in
  exists meta',
    store (snd (UpdatePendingTransactions sample_env (Some "0x65") w))
      !! "tx1" = Some meta' /\
    status meta' <> Dropped.
Proof.
  cbv zeta.
  apply (zero_height_never_dropped sample_env
           (world_of [sample_meta "tx1" Submitted "blockhash" 0 []])
           "tx1" (sample_meta "tx1" Submitted "blockhash" 0 [])).
  - apply world_of_keyed.
  - vm_compute. reflexivity.
  - reflexivity.
  - reflexivity.
Defined.

(** *** Traces *)

Lemma quiet_ret {A} (a : A) : appends_quietly (ret a).
Proof. intros w. exists []. cbn. rewrite app_nil_r. auto. Qed.

Lemma quiet_bind {A B} (m : M A) (k : A -> M B) :
  appends_quietly m -> (forall a, appends_quietly (k a)) ->
  appends_quietly (bind m k).
Proof.
  intros Hm Hk w. unfold bind.
  destruct (Hm w) as (e1 & H1 & F1). destruct (m w) as [a w1].
  destruct (Hk a w1) as (e2 & H2 & F2).
  exists (e1 ++ e2). cbn [snd] in *. rewrite H2, H1, app_assoc.
  split; [reflexivity |]. apply Forall_app. auto.
Qed.

Lemma quiet_emit e : fetches_blockhash e = false -> appends_quietly (emit e).
Proof. intros He w. exists [e]. cbn. auto. Qed.

Lemma quiet_Now : appends_quietly Now.
Proof. intros w. exists []. cbn. rewrite app_nil_r. auto. Qed.

Lemma quiet_GetSolanaTx k : appends_quietly (GetSolanaTx k).
Proof. intros w. exists []. cbn. rewrite app_nil_r. auto. Qed.

Lemma quiet_GetTransactionsByStatus c s :
  appends_quietly (GetTransactionsByStatus c s).
Proof. intros w. exists []. cbn. rewrite app_nil_r. auto. Qed.

Lemma quiet_AddOrUpdateTx env meta : appends_quietly (AddOrUpdateTx env meta).
Proof.
  intros w. exists [CallAddOrUpdateTx meta (storage_accepts env meta)].
  cbn. auto.
Qed.

Create HintDb quiet.
#[local] Hint Resolve quiet_ret quiet_emit quiet_Now quiet_GetSolanaTx
  quiet_GetTransactionsByStatus quiet_AddOrUpdateTx : quiet.

Ltac quiet_step :=
  match goal with
  | |- appends_quietly (bind _ _) => apply quiet_bind; [| intros ?]
  | |- appends_quietly (match ?x with _ => _ end) => destruct x
  | |- appends_quietly (if ?b then _ else _) => destruct b
  | |- appends_quietly (let '(_, _) := ?x in _) => destruct x
  | |- appends_quietly _ => solve [auto with quiet]
  end.

Lemma quiet_examine env h k st : appends_quietly (examine env h k st).
Proof. unfold examine. repeat quiet_step. Qed.

Lemma quiet_examine_all env h ids : forall sts,
  appends_quietly (examine_all env h ids sts).
Proof.
  induction ids as [| k ids IH]; intros sts; cbn [examine_all];
    [auto with quiet |].
  destruct sts; [auto with quiet |].
  apply quiet_bind; [apply quiet_examine | intros _; apply IH].
Qed.

Lemma quiet_OnGetSignatureStatuses env c ids h sts e msg :
  appends_quietly (OnGetSignatureStatuses env c ids h sts e msg).
Proof.
  unfold OnGetSignatureStatuses. repeat quiet_step. apply quiet_examine_all.
Qed.

Lemma quiet_OnGetBlockHeight env c h e msg :
  appends_quietly (OnGetBlockHeight env c h e msg).
Proof.
  unfold OnGetBlockHeight. repeat quiet_step.
  apply quiet_OnGetSignatureStatuses.
Qed.

Lemma quiet_query_chain env c : appends_quietly (query_chain env c).
Proof.
  unfold query_chain. repeat quiet_step. apply quiet_OnGetBlockHeight.
Qed.

Lemma quiet_query_pending env pending : forall seen,
  appends_quietly (query_pending env pending seen).
Proof.
  induction pending as [| m pending IH]; intros seen; cbn [query_pending];
    [auto with quiet |].
  destruct (existsb _ _); [apply IH |].
  apply quiet_bind; [apply quiet_query_chain | intros _; apply IH].
Qed.

Lemma quiet_UpdatePendingTransactions env c :
  appends_quietly (UpdatePendingTransactions env c).
Proof.
  unfold UpdatePendingTransactions. apply quiet_bind.
  - destruct c; [apply quiet_query_chain |].
    apply quiet_bind; [auto with quiet | intros ?; apply quiet_query_pending].
  - intros _. auto with quiet.
Qed.

Lemma quiet_OnSendSolanaTransaction env k hash e msg :
  appends_quietly (OnSendSolanaTransaction env k hash e msg).
Proof.
  unfold OnSendSolanaTransaction. repeat quiet_step.
  apply quiet_UpdatePendingTransactions.
Qed.

Lemma quiet_OnGetLatestBlockhash env meta b h e msg :
  appends_quietly (OnGetLatestBlockhash env meta b h e msg).
Proof.
  unfold OnGetLatestBlockhash. repeat quiet_step.
  apply quiet_OnSendSolanaTransaction.
Qed.

Lemma quiet_OnGetBlockHeightForBlockhash env meta b h e msg :
  appends_quietly (OnGetBlockHeightForBlockhash env meta b h e msg).
Proof.
  unfold OnGetBlockHeightForBlockhash. repeat quiet_step.
  apply quiet_OnGetLatestBlockhash.
Qed.

(** The continuation shared by the two branches of approval: the meta is
    approved with the blockhash and height given, persisted, and only then
    is the signed transaction sent. *)
Lemma OnGetLatestBlockhash_trace env meta latest last_valid msg w :
  let approved :=
    set_blockhash_and_height latest last_valid (set_status Approved meta) in
  storage_accepts env approved = true ->
  exists rest,
    trace (snd (OnGetLatestBlockhash env meta latest last_valid kSuccess msg w))
    = trace w
      ++ [CallAddOrUpdateTx approved true;
          CallSendSolanaTransaction (chain_id meta)
            (GetSignedTransaction env (tx approved) (from approved))]
      ++ rest /\
    Forall (fun e => fetches_blockhash e = false) rest.
Proof.
  intros approved Hok. unfold OnGetLatestBlockhash. cbn [is_success negb].
  fold approved. unfold bind at 1. unfold AddOrUpdateTx at 1. rewrite Hok.
  cbn [negb]. unfold bind at 1. cbn [emit].
  destruct (SendSolanaTransaction env (chain_id approved) _)
    as [[hash e] msg'].
  match goal with
  | |- context [OnSendSolanaTransaction env ?k ?hs ?er ?ms ?w1] =>
      destruct (quiet_OnSendSolanaTransaction env k hs er ms w1)
        as (rest & Hrest & Hquiet)
  end.
  exists rest. split; [| exact Hquiet].
  rewrite Hrest. cbn [trace]. rewrite <- !app_assoc. reflexivity.
Qed.

(** *** C4 *)

(** C4.  Approving a stored transaction whose blockhash is empty first
    fetches the latest blockhash, which comes with the last valid block
    height; approving one whose blockhash is set first fetches the block
    height instead, fetches no blockhash at all, and takes [height + 150]
    (in [uint64_t]) as last valid block height.  In both cases, when the
    fetch succeeds, the meta is approved with the blockhash and the height
    set in the same step, then persisted, and only then is the signed
    transaction sent. *)
Theorem approve_fetches_persists_then_sends env w k meta :
  store w !! k = Some meta ->
  (exists rest,
      trace (snd (ApproveTransaction env k w))
      = trace w
        ++ (if empty (blockhash_of meta)
            then CallGetLatestBlockhash (chain_id meta) true
            else CallGetSolanaBlockHeight (chain_id meta)) :: rest /\
      Forall (fun e => fetches_blockhash e = false) rest) /\
  (blockhash_of meta = "" ->
   forall latest last_valid msg,
     GetLatestBlockhash env (chain_id meta)
     = (latest, last_valid, kSuccess, msg) ->
     let approved :=
       set_blockhash_and_height latest last_valid
         (set_status Approved meta) in
     storage_accepts env approved = true ->
     blockhash_of approved = latest /\
     height_of approved = last_valid /\
     exists rest,
       trace (snd (ApproveTransaction env k w))
       = trace w
         ++ [CallGetLatestBlockhash (chain_id meta) true;
             CallAddOrUpdateTx approved true;
             CallSendSolanaTransaction (chain_id meta)
               (GetSignedTransaction env (tx approved) (from approved))]
         ++ rest /\
       Forall (fun e => fetches_blockhash e = false) rest) /\
  (blockhash_of meta <> "" ->
   forall height msg,
     GetSolanaBlockHeight env (chain_id meta) = (height, kSuccess, msg) ->
     let approved :=
       set_blockhash_and_height (blockhash_of meta)
         (wrap64 (height + 150)) (set_status Approved meta) in
     storage_accepts env approved = true ->
     blockhash_of approved = blockhash_of meta /\
     height_of approved = wrap64 (height + 150) /\
     (0 <= height -> height + 150 < 2 ^ 64 ->
      height_of approved = height + 150) /\
     exists rest,
       trace (snd (ApproveTransaction env k w))
       = trace w
         ++ [CallGetSolanaBlockHeight (chain_id meta);
             CallAddOrUpdateTx approved true;
             CallSendSolanaTransaction (chain_id meta)
               (GetSignedTransaction env (tx approved) (from approved))]
         ++ rest /\
       Forall (fun e => fetches_blockhash e = false) rest).
Proof.
  intros Hl. split; [| split].
  - unfold ApproveTransaction, bind at 1, GetSolanaTx. rewrite Hl.
    destruct (empty (blockhash_of meta)); unfold bind at 1; cbn [emit].
    + destruct (GetLatestBlockhash env (chain_id meta))
        as [[[latest last_valid] e] msg].
      match goal with
      | |- context [OnGetLatestBlockhash env meta ?b ?h ?e ?m ?w1] =>
          destruct (quiet_OnGetLatestBlockhash env meta b h e m w1)
            as (rest & Hrest & Hquiet)
      end.
      exists rest. split; [| exact Hquiet].
      rewrite Hrest. cbn [trace]. rewrite <- app_assoc. reflexivity.
    + destruct (GetSolanaBlockHeight env (chain_id meta)) as [[height e] msg].
      match goal with
      | |- context [OnGetBlockHeightForBlockhash env meta ?b ?h ?e ?m ?w1] =>
          destruct (quiet_OnGetBlockHeightForBlockhash env meta b h e m w1)
            as (rest & Hrest & Hquiet)
      end.
      exists rest. split; [| exact Hquiet].
      rewrite Hrest. cbn [trace]. rewrite <- app_assoc. reflexivity.
  - intros Hempty latest last_valid msg Hrpc approved Hok.
    split; [reflexivity |]. split; [reflexivity |].
    unfold ApproveTransaction, bind at 1, GetSolanaTx. rewrite Hl.
    apply empty_true in Hempty. rewrite Hempty.
    unfold bind at 1. cbn [emit]. rewrite Hrpc.
    match goal with
    | |- context [OnGetLatestBlockhash env meta latest last_valid kSuccess
                    msg ?w1] =>
        destruct (OnGetLatestBlockhash_trace env meta latest last_valid msg
                    w1 Hok) as (rest & Hrest & Hquiet)
    end.
    exists rest. split; [| exact Hquiet].
    rewrite Hrest. cbn [trace]. rewrite <- !app_assoc. reflexivity.
  - intros Hset height msg Hrpc approved Hok.
    split; [reflexivity |]. split; [reflexivity |].
    split; [intros H0 H1; apply wrap64_small; lia |].
    unfold ApproveTransaction, bind at 1, GetSolanaTx. rewrite Hl.
    apply empty_false in Hset. rewrite Hset.
    unfold bind at 1. cbn [emit]. rewrite Hrpc.
    unfold OnGetBlockHeightForBlockhash. cbn [is_success negb].
    match goal with
    | |- context [OnGetLatestBlockhash env meta ?b ?h kSuccess ?m ?w1] =>
        destruct (OnGetLatestBlockhash_trace env meta b h m w1 Hok)
          as (rest & Hrest & Hquiet)
    end.
    exists rest. split; [| exact Hquiet].
    rewrite Hrest. cbn [trace]. rewrite <- !app_assoc. reflexivity.
Qed.

(** [approve_fetches_persists_then_sends] on the sample world, once for a
    transaction without blockhash and once for one carrying a nonce as
    blockhash (block height 1000, hence last valid block height 1150). *)
Lemma approve_fetches_persists_then_sends_witness :
  (let meta := sample_meta "tx1" Unapproved "" 0 [] in
   let approved :=
     set_blockhash_and_height "latest" 1150 (set_status Approved meta) in
   exists rest,
     trace (snd (ApproveTransaction sample_env "tx1" (world_of [meta])))
     = [CallGetLatestBlockhash "0x65" true;
        CallAddOrUpdateTx approved true;
        CallSendSolanaTransaction "0x65" "latest"] ++ rest) /\
  (let meta := sample_meta "tx1" Unapproved "nonce" 0 [advance_nonce] in
   let approved :=
     set_blockhash_and_height "nonce" 1150 (set_status Approved meta) in
   exists rest,
     trace (snd (ApproveTransaction sample_env "tx1" (world_of [meta])))
     = [CallGetSolanaBlockHeight "0x65";
        CallAddOrUpdateTx approved true;
        CallSendSolanaTransaction "0x65" "nonce"] ++ rest).
Proof.
  split; cbv zeta.
  - destruct
      (approve_fetches_persists_then_sends sample_env
         (world_of [sample_meta "tx1" Unapproved "" 0 []]) "tx1"
         (sample_meta "tx1" Unapproved "" 0 []))
      as (_ & Hbranch & _); [vm_compute; reflexivity |].
    destruct (Hbranch eq_refl "latest" 1150 "" eq_refl eq_refl)
      as (_ & _ & rest & Htrace & _).
    exists rest. exact Htrace.
  - destruct
      (approve_fetches_persists_then_sends sample_env
         (world_of [sample_meta "tx1" Unapproved "nonce" 0 [advance_nonce]])
         "tx1" (sample_meta "tx1" Unapproved "nonce" 0 [advance_nonce]))
      as (_ & _ & Hbranch); [vm_compute; reflexivity |].
    destruct (Hbranch ltac:(discriminate) 1000 "" eq_refl eq_refl)
      as (_ & _ & _ & rest & Htrace & _).
    exists rest. exact Htrace.
Defined.

(** *** C5 *)

(** A retry that succeeds read a stored, retriable meta and stored its
    reset copy under the id it generated. *)
Lemma RetryTransaction_success env w k new_id msg w' :
  RetryTransaction env k w = ((true, new_id, msg), w') ->
  exists meta,
    store w !! k = Some meta /\
    IsRetriable env meta = true /\
    new_id = meta_id env (generated_ids w) /\
    store w' = <[new_id := retried env new_id (clock w) meta]> (store w).
Proof.
  unfold RetryTransaction, bind at 1, GetSolanaTx.
  destruct (store w !! k) as [meta |] eqn:Hl; [| discriminate].
  destruct (IsRetriable env meta) eqn:Hr; cbn [negb]; [| discriminate].
  unfold bind, GenerateMetaID, Now, AddOrUpdateTx. cbn [clock generated_ids].
  set (meta' := retried env (meta_id env (generated_ids w)) (clock w) meta).
  destruct (storage_accepts env meta') eqn:Hok; cbn [negb]; [| discriminate].
  unfold ret. intros [= <- <- <-].
  exists meta. split; [reflexivity |]. split; [exact Hr |].
  split; reflexivity.
Qed.

(** The message of a reset copy: no last valid block height, and the old
    blockhash exactly when the message uses a durable nonce. *)
Lemma retried_message env new_id now meta :
  height_of (retried env new_id now meta) = 0 /\
  blockhash_of (retried env new_id now meta)
  = if UsesDurableNonce env (message (tx meta)) then blockhash_of meta
    else "".
Proof.
  unfold retried. destruct (UsesDurableNonce env (message (tx meta)));
    split; reflexivity.
Qed.

(** A retry that succeeds took one id from the generator. *)
Lemma RetryTransaction_advances env w k new_id msg w' :
  RetryTransaction env k w = ((true, new_id, msg), w') ->
  generated_ids w' = S (generated_ids w).
Proof.
  unfold RetryTransaction, bind at 1, GetSolanaTx.
  destruct (store w !! k) as [meta |] eqn:Hl; [| discriminate].
  destruct (IsRetriable env meta) eqn:Hr; cbn [negb]; [| discriminate].
  unfold bind, GenerateMetaID, Now, AddOrUpdateTx. cbn [clock generated_ids].
  set (meta' := retried env (meta_id env (generated_ids w)) (clock w) meta).
  destruct (storage_accepts env meta') eqn:Hok; cbn [negb]; [| discriminate].
  unfold ret. intros [= <- <- <-]. reflexivity.
Qed.

(** With ids issued by a generator that never repeats, the next id is
    not in use. *)
Lemma issued_next_unused env w :
  ids_issued env w -> store w !! meta_id env (generated_ids w) = None.
Proof.
  intros [Hinj Hissued].
  destruct (store w !! meta_id env (generated_ids w)) as [m |] eqn:Hl;
    [| reflexivity].
  destruct (Hissued (meta_id env (generated_ids w))) as (n & Hlt & Heq).
  - rewrite Hl. eauto.
  - apply Hinj in Heq. lia.
Qed.

(** C5.  A retry that succeeds was asked for a stored, retriable
    transaction.  It takes the next id from the generator, which
    advances, and persists under that id a meta that is Unapproved, has
    no submitted or confirmed time, no last valid block height and no raw
    signature; the blockhash is the old one when the message uses a
    durable nonce, and otherwise it is empty and the cached signing
    parameters are dropped.  No entry under another id changes.  When the
    id generated is not in use, as [TxMeta::GenerateMetaID] promises, it
    differs from the id of the transaction retried, which stays stored as
    it was, and the store has one entry more.  It is not in use when the
    ids in use were issued by a generator that never repeats, and this
    still holds after the retry. *)
Theorem retry_resets env w k new_id msg w' :
  RetryTransaction env k w = ((true, new_id, msg), w') ->
  exists meta meta',
    store w !! k = Some meta /\
    IsRetriable env meta = true /\
    new_id = meta_id env (generated_ids w) /\
    store w' = <[new_id := meta']> (store w) /\
    id meta' = new_id /\
    status meta' = Unapproved /\
    submitted_time meta' = 0 /\ confirmed_time meta' = 0 /\
    height_of meta' = 0 /\
    raw_signatures (tx meta') = [] /\
    (UsesDurableNonce env (message (tx meta)) = true ->
     blockhash_of meta' = blockhash_of meta /\
     sign_tx_param (tx meta') = sign_tx_param (tx meta)) /\
    (UsesDurableNonce env (message (tx meta)) = false ->
     blockhash_of meta' = "" /\ sign_tx_param (tx meta') = None) /\
    generated_ids w' = S (generated_ids w) /\
    store w' !! new_id = Some meta' /\
    (forall j, j <> new_id -> store w' !! j = store w !! j) /\
    (store w !! new_id = None ->
     new_id <> k /\ store w' !! k = Some meta /\
     size (store w') = S (size (store w))) /\
    (ids_issued env w -> store w !! new_id = None /\ ids_issued env w').
Proof.
  intros Hretry.
  destruct (RetryTransaction_success env w k new_id msg w' Hretry)
    as (meta & Hl & Hr & Hid & Hstore).
  pose proof (RetryTransaction_advances env w k new_id msg w' Hretry) as Hgen.
  exists meta, (retried env new_id (clock w) meta).
  split; [exact Hl |]. split; [exact Hr |]. split; [exact Hid |].
  split; [exact Hstore |].
  assert (Hfresh :
            generated_ids w' = S (generated_ids w) /\
            store w' !! new_id = Some (retried env new_id (clock w) meta) /\
            (forall j, j <> new_id -> store w' !! j = store w !! j) /\
            (store w !! new_id = None ->
             new_id <> k /\ store w' !! k = Some meta /\
             size (store w') = S (size (store w))) /\
            (ids_issued env w ->
             store w !! new_id = None /\ ids_issued env w')).
  { split; [exact Hgen |]. rewrite Hstore. split; [apply lookup_insert_eq |].
    split; [| split].
    - intros j Hj. apply lookup_insert_ne. congruence.
    - intros Hnone.
      assert (Hne : new_id <> k) by (intros ->; congruence).
      split; [exact Hne |]. split.
      + rewrite lookup_insert_ne by exact Hne. exact Hl.
      + apply map_size_insert_None. exact Hnone.
    - intros Hissued.
      split; [rewrite Hid; apply issued_next_unused; exact Hissued |].
      destruct Hissued as [Hinj Hissued]. split; [exact Hinj |].
      intros j Hj. rewrite Hgen.
      destruct (string_dec j new_id) as [-> | Hne].
      + exists (generated_ids w). split; [lia | exact Hid].
      + rewrite Hstore, lookup_insert_ne in Hj by congruence.
        destruct (Hissued j Hj) as (n & Hlt & Heq).
        exists n. split; [lia | exact Heq]. }
  assert (Hreset :
            forall meta',
              meta' = retried env new_id (clock w) meta ->
              id meta' = new_id /\
              status meta' = Unapproved /\
              submitted_time meta' = 0 /\ confirmed_time meta' = 0 /\
              height_of meta' = 0 /\
              raw_signatures (tx meta') = [] /\
              (UsesDurableNonce env (message (tx meta)) = true ->
               blockhash_of meta' = blockhash_of meta /\
               sign_tx_param (tx meta') = sign_tx_param (tx meta)) /\
              (UsesDurableNonce env (message (tx meta)) = false ->
               blockhash_of meta' = "" /\ sign_tx_param (tx meta') = None)).
  { intros meta' ->. unfold retried.
    destruct (UsesDurableNonce env (message (tx meta))); cbn;
      repeat split; intros; try reflexivity; discriminate. }
  destruct (Hreset _ eq_refl) as (H1 & H2 & H3 & H4 & H5 & H6 & H7 & H8).
  do 8 (split; [assumption |]). exact Hfresh.
Qed.

(** [retry_resets] on a failed transaction with a durable nonce: the new
    meta is filed under the generated id "A" and keeps the nonce, the
    generator has advanced, and the transaction retried is still stored
    under "tx1". *)
Lemma retry_resets_witness :
  let failed := sample_meta "tx1" Error "nonce" 700 [advance_nonce] in
  let w' := snd (RetryTransaction sample_env "tx1" (world_of [failed])) in
  exists meta',
    store w' !! "A" = Some meta' /\
    status meta' = Unapproved /\ height_of meta' = 0 /\
    blockhash_of meta' = "nonce" /\
    generated_ids w' = 1%nat /\
    store w' !! "tx1" = Some failed /\
    size (store w') = 2%nat.
Proof.
  cbv zeta.
  destruct
    (retry_resets sample_env
       (world_of [sample_meta "tx1" Error "nonce" 700 [advance_nonce]])
       "tx1" "A" ""
       (snd (RetryTransaction sample_env "tx1"
               (world_of [sample_meta "tx1" Error "nonce" 700
                            [advance_nonce]]))))
    as (meta & meta' & Hl & _ & _ & _ & _ & Hst & _ & _ & Hh & _ & Hb & _
        & Hgen & Hnew & _ & Hfresh & _).
  - vm_compute. reflexivity.
  - assert (Hm : Some meta
                 = Some (sample_meta "tx1" Error "nonce" 700 [advance_nonce]))
      by (rewrite <- Hl; vm_compute; reflexivity).
    injection Hm as Hm.
    destruct Hfresh as (_ & Hold & Hsize); [vm_compute; reflexivity |].
    exists meta'.
    split; [exact Hnew |]. split; [exact Hst |]. split; [exact Hh |].
    split; [rewrite Hm in Hb; apply Hb; vm_compute; reflexivity |].
    split; [exact Hgen |].
    split; [rewrite Hm in Hold; exact Hold |].
    rewrite Hsize. vm_compute. reflexivity.
Defined.

(** The generator of [counting_env] never repeats an id, and a store of
    the first id it issued has its ids issued. *)
Example counting_env_ids_issued :
  ids_issued counting_env
    {| store := {[ "" := sample_meta "" Error "nonce" 700 [advance_nonce] ]};
       trace := []; clock := 100; generated_ids := 1 |}.
Proof.
  split.
  - intros n m Heq. cbn [counting_env meta_id] in Heq.
    apply (f_equal String.length) in Heq.
    assert (Hlen : forall j,
               String.length (string_of_list_ascii (repeat "a"%char j)) = j).
    { induction j as [| j IH]; cbn; [reflexivity | rewrite IH; reflexivity]. }
    rewrite !Hlen in Heq. exact Heq.
  - intros k [m Hk]. cbn [store generated_ids] in *.
    apply lookup_singleton_Some in Hk. destruct Hk as [<- _].
    exists 0%nat. split; [lia | reflexivity].
Qed.

(** A transaction that is not retriable is refused and nothing changes. *)
Lemma retry_refused env w k meta :
  store w !! k = Some meta -> IsRetriable env meta = false ->
  RetryTransaction env k w
  = ((false, "", IDS_BRAVE_WALLET_TRANSACTION_NOT_RETRIABLE), w).
Proof.
  intros Hl Hr. unfold RetryTransaction, bind, GetSolanaTx.
  rewrite Hl, Hr. reflexivity.
Qed.

(** *** C7 *)

(** C7 as stated fails.  A failed transaction whose message uses a durable
    nonce and has blockhash and last valid block height both set is retried:
    the new meta keeps the blockhash and has last valid block height 0. *)
Lemma retry_breaks_set_together :
  let meta := sample_meta "tx1" Error "nonce" 700 [advance_nonce] in
  set_together (message (tx meta)) /\
  exists meta',
    store (snd (RetryTransaction sample_env "tx1" (world_of [meta]))) !! "A"
    = Some meta' /\
    ~ set_together (message (tx meta')).
Proof.
  cbv zeta. split.
  - unfold set_together. cbn. split; intros H; discriminate H.
  - eexists. split; [vm_compute; reflexivity |].
    unfold set_together. cbn. intros [_ H]. specialize (H eq_refl).
    discriminate H.
Qed.

(** The one write of blockhash and height used by approval, by the
    message-to-sign path and by fee estimation satisfies the invariant
    exactly when the two values written do. *)
Lemma set_blockhash_and_height_together b h m :
  set_together (message (tx (set_blockhash_and_height b h m)))
  <-> (b = "" <-> h = 0).
Proof. unfold set_together. cbn. reflexivity. Qed.

(** After the continuation of approval has run to its end, the stored
    transaction still carries the blockhash and height written. *)
Lemma OnGetLatestBlockhash_final_tx env meta b h msg w :
  keyed (store w) -> (forall m, storage_accepts env m = true) ->
  entry_satisfies (id meta)
    (fun m => tx m = tx (set_blockhash_and_height b h meta))
    (snd (OnGetLatestBlockhash env meta b h kSuccess msg w)).
Proof.
  intros Hs Hok. unfold OnGetLatestBlockhash. cbn [is_success negb].
  set (approved := set_blockhash_and_height b h (set_status Approved meta)).
  unfold bind at 1. unfold AddOrUpdateTx at 1. rewrite Hok. cbn [negb].
  unfold bind at 1. cbn [emit].
  destruct (SendSolanaTransaction env (chain_id approved) _)
    as [[hash e] msg'].
  match goal with
  | |- context [OnSendSolanaTransaction env _ _ _ _ ?w1] => set (w1' := w1)
  end.
  assert (Hl1 : store w1' !! id meta = Some approved)
    by apply lookup_insert_eq.
  assert (Hs1 : keyed (store w1'))
    by (apply (keyed_insert (store w) approved); exact Hs).
  unfold OnSendSolanaTransaction, bind at 1, GetSolanaTx.
  change (id approved) with (id meta). rewrite Hl1.
  unfold bind at 1, Now. unfold bind at 1.
  match goal with
  | |- context [AddOrUpdateTx env ?m2 w1'] =>
      set (meta2 := m2);
      assert (Hid2 : id meta2 = id meta) by (unfold meta2; destruct (is_success e); reflexivity);
      assert (Htx2 : tx meta2 = tx approved) by (unfold meta2; destruct (is_success e); reflexivity)
  end.
  unfold AddOrUpdateTx at 1. rewrite Hok. cbn [negb].
  match goal with
  | |- context [bind _ _ ?w2] => set (w2' := w2)
  end.
  assert (Hw2 : entry_satisfies (id meta)
                  (fun m => tx m = tx (set_blockhash_and_height b h meta)) w2').
  { split.
    - apply (keyed_insert (store w1') meta2). exact Hs1.
    - exists meta2. split; [| exact Htx2].
      unfold w2'. cbn [store]. rewrite Hid2. apply lookup_insert_eq. }
  unfold bind.
  destruct (is_success e).
  - destruct (UpdatePendingTransactions env (Some (chain_id meta2)) w2')
      as [[] w3] eqn:E3. cbn [snd].
    replace w3 with (snd (UpdatePendingTransactions env
                            (Some (chain_id meta2)) w2'))
      by (rewrite E3; reflexivity).
    apply UpdatePendingTransactions_preserves; [apply stable_tx | exact Hw2].
  - exact Hw2.
Qed.

Lemma GetEstimatedTxFee_store env k w :
  store (snd (GetEstimatedTxFee env k w)) = store w.
Proof.
  unfold GetEstimatedTxFee, bind, GetSolanaTx.
  destruct (store w !! k) as [meta |]; [| reflexivity].
  cbn [emit]. destruct (GetLatestBlockhash env (chain_id meta))
    as [[[latest last_valid] e] msg].
  unfold OnGetLatestBlockhashForGetEstimatedTxFee.
  destruct (negb (is_success e)); reflexivity.
Qed.

(** C7, amended.  For a stored transaction, with a storage that accepts
    every write:
    - approval writes blockhash and last valid block height in one step,
      and the stored message then has both set when the blockhash fetched
      is not empty and the height fetched (or [height + 150] in [uint64_t])
      is not 0;
    - fee estimation stores nothing;
    - reconciliation leaves the stored transaction as it is;
    - a retry sets last valid block height to 0; it clears the blockhash
      too when the message does not use a durable nonce, and keeps it when
      it does, so that the two are then set together only if the blockhash
      was empty. *)
Theorem blockhash_and_height_together env w k meta :
  keyed (store w) -> store w !! k = Some meta ->
  (forall m, storage_accepts env m = true) ->
  (blockhash_of meta = "" ->
   forall latest last_valid msg,
     GetLatestBlockhash env (chain_id meta)
     = (latest, last_valid, kSuccess, msg) ->
     exists m',
       store (snd (ApproveTransaction env k w)) !! k = Some m' /\
       blockhash_of m' = latest /\ height_of m' = last_valid /\
       (latest <> "" -> last_valid <> 0 -> set_together (message (tx m')))) /\
  (blockhash_of meta <> "" ->
   forall height msg,
     GetSolanaBlockHeight env (chain_id meta) = (height, kSuccess, msg) ->
     exists m',
       store (snd (ApproveTransaction env k w)) !! k = Some m' /\
       blockhash_of m' = blockhash_of meta /\
       height_of m' = wrap64 (height + 150) /\
       (wrap64 (height + 150) <> 0 -> set_together (message (tx m')))) /\
  store (snd (GetEstimatedTxFee env k w)) = store w /\
  (forall chain, exists m',
      store (snd (UpdatePendingTransactions env chain w)) !! k = Some m' /\
      tx m' = tx meta) /\
  (forall new_id msg w',
      RetryTransaction env k w = ((true, new_id, msg), w') ->
      exists meta',
        store w' !! new_id = Some meta' /\
        height_of meta' = 0 /\
        (UsesDurableNonce env (message (tx meta)) = false ->
         blockhash_of meta' = "" /\ set_together (message (tx meta'))) /\
        (UsesDurableNonce env (message (tx meta)) = true ->
         blockhash_of meta' = blockhash_of meta /\
         (set_together (message (tx meta')) <-> blockhash_of meta = ""))).
Proof.
  intros Hs Hl Hok. pose proof (Hs _ _ Hl) as Hid.
  assert (Hfinal : forall b h msg w1,
             store w1 = store w ->
             exists m',
               store (snd (OnGetLatestBlockhash env meta b h kSuccess msg w1))
                 !! k = Some m' /\
               blockhash_of m' = b /\ height_of m' = h).
  { intros b h msg w1 Hw1.
    destruct (OnGetLatestBlockhash_final_tx env meta b h msg w1)
      as (_ & m' & Hm' & Htx); [rewrite Hw1; exact Hs | exact Hok |].
    exists m'. rewrite <- Hid. split; [exact Hm' |].
    unfold blockhash_of, height_of. rewrite Htx. split; reflexivity. }
  split; [| split; [| split; [| split]]].
  - intros Hempty latest last_valid msg Hrpc.
    unfold ApproveTransaction, bind at 1, GetSolanaTx. rewrite Hl.
    apply empty_true in Hempty. rewrite Hempty.
    unfold bind at 1. cbn [emit]. rewrite Hrpc.
    match goal with
    | |- context [OnGetLatestBlockhash env meta _ _ kSuccess _ ?w1] =>
        destruct (Hfinal latest last_valid msg w1 eq_refl)
          as (m' & Hm' & Hb & Hh)
    end.
    exists m'. split; [exact Hm' |]. split; [exact Hb |]. split; [exact Hh |].
    intros Hne Hnz. unfold set_together.
    unfold blockhash_of in Hb. unfold height_of in Hh. rewrite Hb, Hh.
    split; intros; contradiction.
  - intros Hset height msg Hrpc.
    unfold ApproveTransaction, bind at 1, GetSolanaTx. rewrite Hl.
    pose proof Hset as Hset'. apply empty_false in Hset'. rewrite Hset'.
    unfold bind at 1. cbn [emit]. rewrite Hrpc.
    unfold OnGetBlockHeightForBlockhash. cbn [is_success negb].
    match goal with
    | |- context [OnGetLatestBlockhash env meta ?b ?h kSuccess ?m ?w1] =>
        destruct (Hfinal b h m w1 eq_refl) as (m' & Hm' & Hb & Hh)
    end.
    exists m'. split; [exact Hm' |]. split; [exact Hb |]. split; [exact Hh |].
    intros Hnz. unfold set_together.
    unfold blockhash_of in Hb, Hset. unfold height_of in Hh.
    rewrite Hb, Hh. split; intros; contradiction.
  - apply GetEstimatedTxFee_store.
  - intros chain.
    destruct (UpdatePendingTransactions_preserves env chain k
                (fun m => tx m = tx meta) w (stable_tx (tx meta)))
      as (_ & m' & Hm' & Htx).
    + split; [exact Hs |]. exists meta. auto.
    + exists m'. auto.
  - intros new_id msg w' Hretry.
    destruct (RetryTransaction_success env w k new_id msg w' Hretry)
      as (meta0 & Hl0 & _ & _ & Hstore).
    assert (meta0 = meta) as -> by congruence.
    destruct (retried_message env new_id (clock w) meta) as [Hh Hb].
    exists (retried env new_id (clock w) meta).
    split; [rewrite Hstore; apply lookup_insert_eq |].
    split; [exact Hh |]. split.
    + intros Hu. rewrite Hu in Hb. split; [exact Hb |].
      unfold set_together. unfold blockhash_of in Hb. unfold height_of in Hh.
      rewrite Hb, Hh. split; reflexivity.
    + intros Hu. rewrite Hu in Hb. split; [exact Hb |].
      unfold set_together. unfold blockhash_of in Hb. unfold height_of in Hh.
      unfold blockhash_of. rewrite Hb, Hh.
      split; [| intros Hbh; split; intros; [reflexivity | exact Hbh]].
      intros [_ H]. apply H. reflexivity.
Qed.

(** [blockhash_and_height_together] on an unapproved transaction without
    blockhash: once approved it is stored with blockhash and height
    both set. *)
Lemma blockhash_and_height_together_witness :
  let w := world_of [sample_meta "tx1" Unapproved "" 0 []] in
  exists m',
    store (snd (ApproveTransaction sample_env "tx1" w)) !! "tx1" = Some m' /\
    blockhash_of m' = "latest" /\ height_of m' = 1150 /\
    set_together (message (tx m')).
Proof.
  cbv zeta.
  destruct
    (blockhash_and_height_together sample_env
       (world_of [sample_meta "tx1" Unapproved "" 0 []]) "tx1"
       (sample_meta "tx1" Unapproved "" 0 []))
    as (Happrove & _).
  - apply world_of_keyed.
  - vm_compute. reflexivity.
  - reflexivity.
  - destruct (Happrove eq_refl "latest" 1150 "" eq_refl)
      as (m' & Hm' & Hb & Hh & Htogether).
    exists m'. split; [exact Hm' |]. split; [exact Hb |]. split; [exact Hh |].
    apply Htogether; discriminate.
Defined.

(** *** The ids handed to the reconciliation loop *)

Lemma NoDup_map_filter {A B} (g : A -> B) (f : A -> bool) l :
  NoDup (map g l) -> NoDup (map g (List.filter f l)).
Proof.
  induction l as [| x l IH]; intros Hnd; [constructor |].
  cbn [map] in Hnd. apply NoDup_cons in Hnd. destruct Hnd as [Hx Hnd].
  cbn [List.filter]. destruct (f x); [| apply IH; exact Hnd].
  cbn [map]. apply NoDup_cons. split; [| apply IH; exact Hnd].
  intros Hin. apply Hx. apply list_elem_of_In in Hin.
  apply list_elem_of_In. apply in_map_iff in Hin.
  destruct Hin as (y & Hy & Hin). apply filter_In in Hin.
  apply in_map_iff. exists y. tauto.
Qed.

(** In a keyed store the pending transactions collected by
    [OnGetBlockHeight] have pairwise distinct ids. *)
Lemma pending_ids_distinct chain s w :
  keyed (store w) ->
  NoDup (map id (fst (GetTransactionsByStatus chain s w))).
Proof.
  intros Hs. unfold GetTransactionsByStatus. cbn [fst].
  apply NoDup_map_filter. rewrite map_map.
  rewrite (map_ext_in _ fst).
  - apply NoDup_fst_map_to_list.
  - intros [k m] Hin. cbn. apply Hs.
    apply elem_of_map_to_list. apply list_elem_of_In. exact Hin.
Qed.

(** *** Approval that stops early *)

(** When the storage refuses the approved meta, nothing is sent. *)
Lemma approve_not_sent_unless_persisted env meta latest last_valid msg w :
  let approved :=
    set_blockhash_and_height latest last_valid (set_status Approved meta) in
  storage_accepts env approved = false ->
  OnGetLatestBlockhash env meta latest last_valid kSuccess msg w
  = ((false, kInternalError, IDS_WALLET_INTERNAL_ERROR),
     {| store := store w;
        trace := trace w ++ [CallAddOrUpdateTx approved false];
        clock := clock w; generated_ids := generated_ids w |}).
Proof.
  intros approved Hno. unfold OnGetLatestBlockhash. cbn [is_success negb].
  fold approved. unfold bind, AddOrUpdateTx. rewrite Hno. reflexivity.
Qed.

(** An error of the RPC collaborator is handed to the callback as it is,
    and nothing is stored or sent. *)
Lemma approve_rpc_error env meta b h e msg w :
  e <> kSuccess ->
  OnGetLatestBlockhash env meta b h e msg w = ((false, e, msg), w) /\
  OnGetBlockHeightForBlockhash env meta b h e msg w = ((false, e, msg), w).
Proof.
  intros He. unfold OnGetBlockHeightForBlockhash, OnGetLatestBlockhash.
  destruct e; [contradiction | | |]; split; reflexivity.
Qed.

End TxManagerFacts.

(** ** The NFT page parser *)

Module SimpleHashFacts.
Import SimpleHash.

(** With neither flag set the filter keeps every record. *)
Lemma kept_all scored : kept false false scored = true.
Proof. reflexivity. Qed.

Lemma filter_all {A} (f : A -> bool) l :
  (forall x, f x = true) -> List.filter f l = l.
Proof.
  intros Hf. induction l as [| x l IH]; [reflexivity |].
  cbn. rewrite Hf, IH. reflexivity.
Qed.

(** A parsable element of the page is among the parsed records. *)
Lemma parse_all_In c nfts e r :
  In e nfts -> parse_nft c e = Some r -> In r (parse_all c nfts).
Proof.
  induction nfts as [| e0 nfts IH]; intros Hin Hp; [contradiction |].
  cbn [parse_all]. destruct Hin as [-> | Hin].
  - rewrite Hp. left. reflexivity.
  - destruct (parse_nft c e0); [right |]; apply IH; assumption.
Qed.

(** C9.  Whatever the page and the coin, the two flags set together give
    no result; with neither flag set, a page that is an object with an array
    [nfts], parsed for a supported coin, yields the records of all its
    parsable elements, the spam ones and the others alike: its records are
    those obtained with [skip_spam] alone together with those obtained with
    [only_spam] alone. *)
Theorem spam_flags json_value c :
  ParseNFTsFromSimpleHash json_value c true true = None /\
  (forall dict nfts,
      c <> FIL -> json_value = JDict dict ->
      find_key "nfts" dict = Some (JList nfts) ->
      exists records,
        ParseNFTsFromSimpleHash json_value c false false
        = Some (FindString "next_cursor" dict, records) /\
        records = map fst (parse_all c nfts) /\
        (forall e r score,
            In e nfts -> parse_nft c e = Some (r, score) -> In r records) /\
        (forall r, In r records <->
           (exists cursor spam_free,
               ParseNFTsFromSimpleHash json_value c true false
               = Some (cursor, spam_free) /\ In r spam_free) \/
           (exists cursor spam_only,
               ParseNFTsFromSimpleHash json_value c false true
               = Some (cursor, spam_only) /\ In r spam_only))).
Proof.
  split.
  - unfold ParseNFTsFromSimpleHash. destruct c; reflexivity.
  - intros dict nfts Hc -> Hnfts.
    exists (map fst (parse_all c nfts)).
    assert (Hparse : forall skip only,
               skip && only = false ->
               ParseNFTsFromSimpleHash (JDict dict) c skip only
               = Some (FindString "next_cursor" dict,
                       map fst (List.filter (kept skip only)
                                  (parse_all c nfts)))).
    { intros skip only Hflags. unfold ParseNFTsFromSimpleHash.
      rewrite Hflags, Hnfts. destruct c; [reflexivity | reflexivity |].
      contradiction. }
    split; [| split; [reflexivity | split]].
    + rewrite Hparse by reflexivity.
      rewrite filter_all by apply kept_all. reflexivity.
    + intros e r score Hin Hp. apply in_map_iff.
      exists (r, score). split; [reflexivity |].
      eapply parse_all_In; eassumption.
    + intros r. rewrite !Hparse by reflexivity. split.
      * intros Hin. apply in_map_iff in Hin.
        destruct Hin as ([r' score] & <- & Hin).
        destruct (spam (r', score)) eqn:Hspam.
        -- right. eexists _, _. split; [reflexivity |].
           apply in_map_iff. exists (r', score). split; [reflexivity |].
           apply filter_In. split; [exact Hin |].
           unfold kept. rewrite Hspam. reflexivity.
        -- left. eexists _, _. split; [reflexivity |].
           apply in_map_iff. exists (r', score). split; [reflexivity |].
           apply filter_In. split; [exact Hin |].
           unfold kept. rewrite Hspam. reflexivity.
      * intros [(cursor & l & [= <- <-] & Hin) | (cursor & l & [= <- <-] & Hin)];
          apply in_map_iff in Hin; destruct Hin as (x & <- & Hin);
          apply filter_In in Hin; destruct Hin as [Hin _];
          apply in_map_iff; exists x; auto.
Qed.

(** [spam_flags] on the page of the unit test: with neither flag set both
    the spam NFT and the other one are returned, in the order of the
    page. *)
Lemma spam_flags_witness :
  option_map (fun r => map contract_address (snd r))
    (ParseNFTsFromSimpleHash spam_test_page SOL false false)
  = Some ["AvdAUsR4qgsT5HgyKCVeGjimmyu8xrG3RudFqm5txDDE";
          "BHWBJ7XtBqJJbg9SrAUH4moeF8VpJo3WXyDh6vc1qqLG"].
Proof.
  destruct (spam_flags spam_test_page SOL) as [_ Hboth].
  match type of Hboth with
  | forall dict nfts, _ -> spam_test_page = JDict dict -> _ =>
      match eval unfold spam_test_page in spam_test_page with
      | JDict ?d =>
          match eval vm_compute in (find_key "nfts" d) with
          | Some (JList ?n) =>
              destruct (Hboth d n) as (records & Hparse & Hrecords & _)
          end
      end
  end.
  - discriminate.
  - reflexivity.
  - vm_compute. reflexivity.
  - rewrite Hparse, Hrecords. vm_compute. reflexivity.
Defined.

(** The four calls of the unit test on that page (lines 696-732). *)
Example spam_test_replayed :
  let addresses skip only :=
    option_map (fun r => map contract_address (snd r))
      (ParseNFTsFromSimpleHash spam_test_page SOL skip only) in
  addresses true false
  = Some ["BHWBJ7XtBqJJbg9SrAUH4moeF8VpJo3WXyDh6vc1qqLG"] /\
  addresses false true
  = Some ["AvdAUsR4qgsT5HgyKCVeGjimmyu8xrG3RudFqm5txDDE"] /\
  addresses true true = None /\
  addresses false false
  = Some ["AvdAUsR4qgsT5HgyKCVeGjimmyu8xrG3RudFqm5txDDE";
          "BHWBJ7XtBqJJbg9SrAUH4moeF8VpJo3WXyDh6vc1qqLG"].
Proof. cbv zeta. repeat split; vm_compute; reflexivity. Qed.

End SimpleHashFacts.

(** ** The instruction builder: the other programs *)

Module ProgramFacts.
Import Builder.

(** The bytes between two offsets of a vector made of three parts, when
    the offsets are the ends of the middle part. *)
Lemma slice_app_mid (pre mid post : list byte) :
  slice (pre ++ mid ++ post) (vsize pre) (vsize pre + vsize mid) = mid.
Proof.
  unfold slice, vsize.
  replace (Z.of_nat (length pre) + Z.of_nat (length mid)
           - Z.of_nat (length pre)) with (Z.of_nat (length mid)) by lia.
  rewrite !Nat2Z.id.
  rewrite skipn_app, skipn_all, Nat.sub_diag, skipn_O. cbn [app].
  rewrite firstn_app, firstn_all, Nat.sub_diag. cbn [firstn].
  apply app_nil_r.
Qed.

Lemma empty_eq s : empty s = true <-> s = "".
Proof. destruct s; cbn; split; congruence. Qed.

Lemma le_value_UintToLEBytes n v :
  0 <= v < 256 ^ Z.of_nat n -> le_value (UintToLEBytes n v) = v.
Proof.
  intros Hv. rewrite BuilderFacts.UintToLEBytes_value.
  apply Z.mod_small. exact Hv.
Qed.

Lemma vsize_UintToLEBytes n v : vsize (UintToLEBytes n v) = Z.of_nat n.
Proof. unfold vsize. rewrite BuilderFacts.UintToLEBytes_length. reflexivity. Qed.

(** X1.  What [UintToLEBytes<uint32_t>] writes, [DecodeUint32] reads back,
    wherever the four bytes stand in the buffer, and it moves the offset
    past them. *)
Theorem DecodeUint32_reads_UintToLEBytes pre post v :
  0 <= v < 2 ^ 32 ->
  vsize (pre ++ UintToLEBytes 4 v ++ post) < 2 ^ 64 ->
  Decoder.DecodeUint32 (pre ++ UintToLEBytes 4 v ++ post) (vsize pre)
  = Some (v, vsize pre + 4).
Proof.
  intros Hv Hsz. unfold Decoder.DecodeUint32.
  pose proof (vsize_nonneg pre) as Hpre.
  pose proof (vsize_nonneg post) as Hpost.
  rewrite !vsize_app, vsize_UintToLEBytes in *.
  change (Z.of_nat 4) with 4 in *.
  destruct (vsize pre >=? vsize pre + (4 + vsize post)) eqn:E1;
    [rewrite Z.geb_leb in E1; apply Z.leb_le in E1; lia |].
  rewrite (wrap64_small (vsize pre + (4 + vsize post) - vsize pre)) by lia.
  destruct (vsize pre + (4 + vsize post) - vsize pre <? 4) eqn:E2;
    [apply Z.ltb_lt in E2; lia |].
  cbn [orb]. rewrite (wrap64_small (vsize pre + 4)) by lia.
  f_equal. f_equal. unfold Decoder.le_uint32.
  replace (vsize pre + 4) with (vsize pre + vsize (UintToLEBytes 4 v))
    by (rewrite vsize_UintToLEBytes; reflexivity).
  rewrite slice_app_mid. apply le_value_UintToLEBytes.
  change (256 ^ Z.of_nat 4) with (2 ^ 32). exact Hv.
Qed.

(** [DecodeUint32_reads_UintToLEBytes] on the instruction index 2 written
    after one byte and before two. *)
Lemma DecodeUint32_reads_UintToLEBytes_witness :
  Decoder.DecodeUint32 ([x07] ++ UintToLEBytes 4 2 ++ [x08; x09]) 1
  = Some (2, 5).
Proof.
  apply (DecodeUint32_reads_UintToLEBytes [x07] [x08; x09] 2).
  - lia.
  - vm_compute. reflexivity.
Defined.

Lemma slice_app_l (mid post : list byte) :
  slice (mid ++ post) 0 (vsize mid) = mid.
Proof. exact (slice_app_mid [] mid post). Qed.

Lemma slice_app_r (pre mid : list byte) :
  slice (pre ++ mid) (vsize pre) (vsize pre + vsize mid) = mid.
Proof.
  pose proof (slice_app_mid pre mid []) as H.
  rewrite app_nil_r in H. exact H.
Qed.

Lemma push_signers_app signer_pubkeys : forall metas,
  spl_token_program.push_signers signer_pubkeys metas
  = metas ++ map (fun k => account_meta k true false) signer_pubkeys.
Proof.
  unfold spl_token_program.push_signers.
  induction signer_pubkeys as [| k ks IH]; intros metas; cbn [fold_left map].
  - symmetry. apply app_nil_r.
  - rewrite IH, <- app_assoc. reflexivity.
Qed.

Lemma filter_signers ks :
  List.filter is_signer (map (fun k => account_meta k true false) ks)
  = map (fun k => account_meta k true false) ks.
Proof.
  induction ks as [| k ks IH]; cbn; [reflexivity | rewrite IH; reflexivity].
Qed.

Lemma filter_writable_signers ks :
  List.filter is_writable (map (fun k => account_meta k true false) ks) = [].
Proof. induction ks as [| k ks IH]; cbn; [reflexivity | exact IH]. Qed.

(** X2.  The system-program transfer is refused exactly for an empty sender or
    recipient.  Otherwise its data is 12 bytes, the instruction index as a
    little-endian [u32] and the lamports as a little-endian [u64]; the
    sender is the only signer, and sender and recipient are the writable
    accounts. *)
Theorem system_transfer_instruction from_pubkey to_pubkey lamport :
  0 <= lamport < 2 ^ 64 ->
  (system_program.Transfer from_pubkey to_pubkey lamport = None <->
   from_pubkey = "" \/ to_pubkey = "") /\
  (forall i,
      system_program.Transfer from_pubkey to_pubkey lamport = Some i ->
      program_id i = kSolanaSystemProgramId /\
      vsize (data i) = 12 /\
      le_value (slice (data i) 0 4) = system_program.kTransfer /\
      le_value (slice (data i) 4 12) = lamport /\
      signers i = [from_pubkey] /\
      writable i = [from_pubkey; to_pubkey]).
Proof.
  intros Hl. unfold system_program.Transfer. split.
  - destruct (empty from_pubkey) eqn:Ef; cbn [orb].
    + apply empty_eq in Ef. split; auto.
    + destruct (empty to_pubkey) eqn:Et.
      * apply empty_eq in Et. split; auto.
      * split; [discriminate |].
        intros [-> | ->]; discriminate.
  - intros i. destruct (empty from_pubkey || empty to_pubkey);
      [discriminate |].
    intros Hi.
    set (tag := UintToLEBytes 4 (wrap32 system_program.kTransfer)) in *.
    set (amount := UintToLEBytes 8 lamport) in *.
    assert (Hp : program_id i = kSolanaSystemProgramId)
      by (injection Hi as <-; reflexivity).
    assert (Hd : data i = tag ++ amount)
      by (injection Hi as <-; reflexivity).
    assert (Hacc : accounts i = [account_meta from_pubkey true true;
                                 account_meta to_pubkey false true])
      by (injection Hi as <-; reflexivity).
    clear Hi. unfold signers, writable. rewrite Hd, Hacc.
    assert (Ltag : vsize tag = 4) by apply vsize_UintToLEBytes.
    assert (Lamount : vsize amount = 8) by apply vsize_UintToLEBytes.
    split; [exact Hp |].
    split; [rewrite vsize_app, Ltag, Lamount; reflexivity |].
    split.
    { rewrite <- Ltag, slice_app_l. unfold tag.
      apply le_value_UintToLEBytes. vm_compute. split; congruence. }
    split.
    { replace 12 with (vsize tag + vsize amount) by lia.
      rewrite <- Ltag at 1. rewrite slice_app_r. unfold amount.
      apply le_value_UintToLEBytes.
      change (256 ^ Z.of_nat 8) with (2 ^ 64). exact Hl. }
    split; reflexivity.
Qed.

(** [system_transfer_instruction] on a transfer of 1000 lamports. *)
Lemma system_transfer_instruction_witness :
  exists i,
    system_program.Transfer "sender" "recipient" 1000 = Some i /\
    le_value (slice (data i) 4 12) = 1000 /\
    signers i = ["sender"].
Proof.
  destruct (system_program.Transfer "sender" "recipient" 1000) as [i |] eqn:E;
    [| vm_compute in E; discriminate].
  exists i. split; [reflexivity |].
  destruct (system_transfer_instruction "sender" "recipient" 1000)
    as [_ H]; [lia |].
  destruct (H i E) as (_ & _ & _ & Hv & Hs & _). split; assumption.
Defined.

(** X3.  The token-program transfer is refused exactly for an empty program id,
    source, destination or authority.  Otherwise its data is the
    instruction index in one byte and the amount as a little-endian
    [u64]; every given signer follows the three fixed accounts; the
    authority signs exactly when no signer is given, otherwise the given
    signers sign; only source and destination are writable. *)
Theorem token_transfer_instruction token_program_id source_pubkey
    destination_pubkey authority_pubkey signer_pubkeys amount :
  0 <= amount < 2 ^ 64 ->
  (spl_token_program.Transfer token_program_id source_pubkey
     destination_pubkey authority_pubkey signer_pubkeys amount = None <->
   token_program_id = "" \/ source_pubkey = "" \/
   destination_pubkey = "" \/ authority_pubkey = "") /\
  (forall i,
      spl_token_program.Transfer token_program_id source_pubkey
        destination_pubkey authority_pubkey signer_pubkeys amount = Some i ->
      program_id i = token_program_id /\
      vsize (data i) = 9 /\
      le_value (slice (data i) 0 1) = spl_token_program.kTransfer /\
      le_value (slice (data i) 1 9) = amount /\
      map pubkey (accounts i)
      = [source_pubkey; destination_pubkey; authority_pubkey]
        ++ signer_pubkeys /\
      signers i
      = match signer_pubkeys with
        | [] => [authority_pubkey]
        | _ :: _ => signer_pubkeys
        end /\
      writable i = [source_pubkey; destination_pubkey]).
Proof.
  intros Ha. unfold spl_token_program.Transfer. split.
  - destruct (empty token_program_id) eqn:E1; cbn [orb];
      [apply empty_eq in E1; split; auto |].
    destruct (empty source_pubkey) eqn:E2; cbn [orb];
      [apply empty_eq in E2; split; auto |].
    destruct (empty destination_pubkey) eqn:E3; cbn [orb];
      [apply empty_eq in E3; split; auto |].
    destruct (empty authority_pubkey) eqn:E4;
      [apply empty_eq in E4; split; auto |].
    split; [discriminate |].
    intros [-> | [-> | [-> | ->]]]; discriminate.
  - intros i.
    destruct (empty token_program_id || empty source_pubkey
              || empty destination_pubkey || empty authority_pubkey);
      [discriminate |].
    intros Hi.
    set (tag := [byte_of_Z spl_token_program.kTransfer]) in *.
    set (amount_bytes := UintToLEBytes 8 amount) in *.
    assert (Hp : program_id i = token_program_id)
      by (injection Hi as <-; reflexivity).
    assert (Hd : data i = tag ++ amount_bytes)
      by (injection Hi as <-; reflexivity).
    assert (Hacc : accounts i
                   = spl_token_program.push_signers signer_pubkeys
                       [account_meta source_pubkey false true;
                        account_meta destination_pubkey false true;
                        account_meta authority_pubkey
                          (match signer_pubkeys with
                           | [] => true
                           | _ :: _ => false
                           end) false])
      by (injection Hi as <-; reflexivity).
    clear Hi. unfold signers, writable. rewrite Hd, Hacc.
    assert (Ltag : vsize tag = 1) by reflexivity.
    assert (Lamount : vsize amount_bytes = 8) by apply vsize_UintToLEBytes.
    split; [exact Hp |].
    split; [rewrite vsize_app, Ltag, Lamount; reflexivity |].
    split; [rewrite <- Ltag, slice_app_l; vm_compute; reflexivity |].
    split.
    { replace 9 with (vsize tag + vsize amount_bytes) by lia.
      rewrite <- Ltag at 1. rewrite slice_app_r. unfold amount_bytes.
      apply le_value_UintToLEBytes.
      change (256 ^ Z.of_nat 8) with (2 ^ 64). exact Ha. }
    rewrite push_signers_app.
    split.
    { rewrite map_app, map_map. cbn [map account_meta pubkey].
      rewrite map_id. reflexivity. }
    rewrite !List.filter_app, filter_signers, filter_writable_signers.
    split.
    + destruct signer_pubkeys as [| k ks]; [reflexivity |].
      cbn [List.filter account_meta is_signer app].
      rewrite map_map. cbn [account_meta pubkey]. apply map_id.
    + rewrite app_nil_r. destruct signer_pubkeys; reflexivity.
Qed.

(** [token_transfer_instruction] on a transfer of 5 tokens signed by two
    multisignature signers. *)
Lemma token_transfer_instruction_witness :
  exists i,
    spl_token_program.Transfer kSolanaTokenProgramId "source" "destination"
      "authority" ["signer1"; "signer2"] 5 = Some i /\
    le_value (slice (data i) 1 9) = 5 /\
    signers i = ["signer1"; "signer2"].
Proof.
  destruct (spl_token_program.Transfer kSolanaTokenProgramId "source"
              "destination" "authority" ["signer1"; "signer2"] 5)
    as [i |] eqn:E; [| vm_compute in E; discriminate].
  exists i. split; [reflexivity |].
  destruct (token_transfer_instruction kSolanaTokenProgramId "source"
              "destination" "authority" ["signer1"; "signer2"] 5)
    as [_ H]; [lia |].
  destruct (H i E) as (_ & _ & _ & Hv & _ & Hs & _). split; assumption.
Defined.

Lemma filter_signer_readonly ks :
  List.filter is_signer (map readonly_meta ks) = [].
Proof. induction ks as [| k ks IH]; [reflexivity | exact IH]. Qed.

Lemma filter_writable_readonly ks :
  List.filter is_writable (map readonly_meta ks) = [].
Proof. induction ks as [| k ks IH]; [reflexivity | exact IH]. Qed.

(** The three outcomes of the compressed-NFT transfer. *)
Lemma bubblegum_transfer_cases arg tree_authority new_leaf_owner p :
  0 <= canopy_depth p < 2 ^ 64 -> vsize (proof p) < 2 ^ 64 ->
  (Transfer arg tree_authority new_leaf_owner p = Absent /\
   ~ hashes_decode p) \/
  (Transfer arg tree_authority new_leaf_owner p = OutOfBounds /\
   hashes_decode p /\ vsize (proof p) < canopy_depth p) \/
  (exists i,
      Transfer arg tree_authority new_leaf_owner p = Built i /\
      hashes_decode p /\ canopy_depth p <= vsize (proof p) /\
      signers i = [] /\ writable i = [merkle_tree p] /\
      program_id i = kSolanaBubbleGumProgramId).
Proof.
  intros Hcd Hlen.
  destruct (Base58.Base58Decode (root p) 32) as [r |] eqn:Hr.
  2:{ left. split; [unfold Transfer; rewrite Hr; reflexivity |].
      intros (r0 & d0 & c0 & H & _). congruence. }
  destruct (Base58.Base58Decode (data_hash p) 32) as [d |] eqn:Hd.
  2:{ left. split; [unfold Transfer; rewrite Hr, Hd; reflexivity |].
      intros (r0 & d0 & c0 & _ & H & _). congruence. }
  destruct (Base58.Base58Decode (creator_hash p) 32) as [c |] eqn:Hc.
  2:{ left. split; [unfold Transfer; rewrite Hr, Hd, Hc; reflexivity |].
      intros (r0 & d0 & c0 & _ & _ & H). congruence. }
  assert (Hy : hashes_decode p) by (exists r, d, c; auto).
  right. rewrite (BuilderFacts.Transfer_cases _ _ _ _ r d c) by assumption.
  destruct (canopy_depth p <=? vsize (proof p)) eqn:E.
  - apply Z.leb_le in E. right. eexists. split; [reflexivity |].
    split; [exact Hy |]. split; [exact E |].
    unfold signers, writable. cbn [accounts program_id].
    rewrite !List.filter_app, filter_signer_readonly,
      filter_writable_readonly.
    repeat split.
  - apply Z.leb_gt in E. left. auto.
Qed.

(** X4.  The compressed-NFT transfer has three outcomes, decided by the proof
    record alone: it is refused exactly when one of the three hashes does
    not decode to 32 bytes; it reads outside the proof path exactly when
    the hashes decode and the canopy depth exceeds the length of the path;
    it returns an instruction otherwise.  An instruction it returns has no
    signer, and its only writable account is the Merkle tree. *)
Theorem bubblegum_transfer_outcome arg tree_authority new_leaf_owner p :
  0 <= canopy_depth p < 2 ^ 64 -> vsize (proof p) < 2 ^ 64 ->
  (Transfer arg tree_authority new_leaf_owner p = Absent <->
   ~ hashes_decode p) /\
  (Transfer arg tree_authority new_leaf_owner p = OutOfBounds <->
   hashes_decode p /\ vsize (proof p) < canopy_depth p) /\
  ((exists i, Transfer arg tree_authority new_leaf_owner p = Built i) <->
   hashes_decode p /\ canopy_depth p <= vsize (proof p)) /\
  (forall i,
      Transfer arg tree_authority new_leaf_owner p = Built i ->
      signers i = [] /\ writable i = [merkle_tree p]).
Proof.
  intros Hcd Hlen.
  destruct (bubblegum_transfer_cases arg tree_authority new_leaf_owner p
              Hcd Hlen)
    as [(Ht & Hn) | [(Ht & Hy & Hgt) | (i & Ht & Hy & Hle & Hs & Hw & _)]];
    rewrite Ht; repeat apply conj; try tauto; try discriminate;
    try (intros _; reflexivity); try (intros [_ H]; lia);
    try (intros [i0 H]; discriminate H).
  - intros _. eauto.
  - intros i0 [= <-]. auto.
Qed.

(** [bubblegum_transfer_outcome] on [sample_proof]: an instruction is
    built, and it has no signer. *)
Lemma bubblegum_transfer_outcome_witness :
  exists i,
    Transfer 0 "authority" "new_owner" sample_proof = Built i /\
    signers i = [] /\ writable i = ["tree"].
Proof.
  destruct (Transfer 0 "authority" "new_owner" sample_proof)
    as [i | |] eqn:E; try (vm_compute in E; discriminate).
  exists i. split; [reflexivity |].
  destruct (bubblegum_transfer_outcome 0 "authority" "new_owner"
              sample_proof) as (_ & _ & _ & H).
  - vm_compute. split; [discriminate | reflexivity].
  - vm_compute. reflexivity.
  - exact (H i E).
Defined.

End ProgramFacts.
(** ** The Merkle-tree decoder: reads and results *)

Module ReaderFacts.
Import Decoder.

Lemma geb_false a b : a < b -> (a >=? b) = false.
Proof. intros H. rewrite Z.geb_leb. apply Z.leb_gt. exact H. Qed.

Lemma geb_true a b : b <= a -> (a >=? b) = true.
Proof. intros H. rewrite Z.geb_leb. apply Z.leb_le. exact H. Qed.

(** A read that has room succeeds. *)
Lemma DecodeUint8_room input offset :
  vsize input < 2 ^ 64 -> 0 <= offset < vsize input ->
  DecodeUint8 input offset
  = option_map (fun b => (byte_val b, offset + 1))
      (nth_error input (Z.to_nat offset)).
Proof.
  intros Hsz Hoff. unfold DecodeUint8.
  rewrite geb_false by lia.
  rewrite (wrap64_small (vsize input - offset)) by lia.
  destruct (vsize input - offset <? 1) eqn:E; [apply Z.ltb_lt in E; lia |].
  cbn [orb]. rewrite (wrap64_small (offset + 1)) by lia.
  rewrite (wrap64_small (offset + 1 - 1)) by lia.
  unfold at_index. replace (offset + 1 - 1) with offset by lia.
  destruct (offset <? 0) eqn:E3; [apply Z.ltb_lt in E3; lia |].
  destruct (nth_error input (Z.to_nat offset)); reflexivity.
Qed.

Lemma DecodeUint32_room input offset :
  vsize input < 2 ^ 64 -> 0 <= offset -> offset + 4 <= vsize input ->
  DecodeUint32 input offset
  = Some (le_uint32 (slice input offset (offset + 4)), offset + 4).
Proof.
  intros Hsz Hoff Hend. unfold DecodeUint32.
  rewrite geb_false by lia.
  rewrite (wrap64_small (vsize input - offset)) by lia.
  destruct (vsize input - offset <? 4) eqn:E; [apply Z.ltb_lt in E; lia |].
  cbn [orb]. rewrite (wrap64_small (offset + 4)) by lia. reflexivity.
Qed.

Lemma DecodePublicKey_room input offset :
  vsize input < 2 ^ 64 -> 0 <= offset -> offset + 32 <= vsize input ->
  DecodePublicKey input offset
  = Some (Base58.Base58Encode (slice input offset (offset + 32)),
          offset + 32).
Proof.
  intros Hsz Hoff Hend. unfold DecodePublicKey, kSolanaPubkeySize.
  rewrite geb_false by lia.
  rewrite (wrap64_small (vsize input - offset)) by lia.
  destruct (vsize input - offset <? 32) eqn:E; [apply Z.ltb_lt in E; lia |].
  cbn [orb]. rewrite (wrap64_small (offset + 32)) by lia.
  replace (offset + 32 - 32) with offset by lia. reflexivity.
Qed.

(** X5.  The three readers fail exactly when fewer bytes are left at the offset
    than they read, and a read that succeeds moves the offset by the
    width read. *)
Theorem reads_are_bounds_checked input offset :
  vsize input < 2 ^ 64 -> 0 <= offset < 2 ^ 64 ->
  (DecodeUint8 input offset = None <-> vsize input < offset + 1) /\
  (DecodeUint32 input offset = None <-> vsize input < offset + 4) /\
  (DecodePublicKey input offset = None <-> vsize input < offset + 32) /\
  (forall v offset', DecodeUint8 input offset = Some (v, offset') ->
                     offset' = offset + 1) /\
  (forall v offset', DecodeUint32 input offset = Some (v, offset') ->
                     offset' = offset + 4) /\
  (forall key offset', DecodePublicKey input offset = Some (key, offset') ->
                       offset' = offset + 32).
Proof.
  intros Hsz Hoff. repeat apply conj.
  - intros Hnone. destruct (Z.lt_ge_cases offset (vsize input)); [| lia].
    rewrite DecodeUint8_room in Hnone by lia.
    destruct (nth_error input (Z.to_nat offset)) eqn:E; [discriminate |].
    apply nth_error_None in E. unfold vsize in *. lia.
  - intros Hshort. unfold DecodeUint8. rewrite geb_true by lia. reflexivity.
  - intros Hnone. destruct (Z.lt_ge_cases (vsize input) (offset + 4));
      [assumption |].
    rewrite DecodeUint32_room in Hnone by lia. discriminate.
  - intros Hshort. unfold DecodeUint32.
    destruct (Z.lt_ge_cases offset (vsize input));
      [| rewrite geb_true by lia; reflexivity].
    rewrite geb_false by lia.
    rewrite (wrap64_small (vsize input - offset)) by lia.
    destruct (vsize input - offset <? 4) eqn:E; [reflexivity |].
    apply Z.ltb_ge in E. lia.
  - intros Hnone. destruct (Z.lt_ge_cases (vsize input) (offset + 32));
      [assumption |].
    rewrite DecodePublicKey_room in Hnone by lia. discriminate.
  - intros Hshort. unfold DecodePublicKey, kSolanaPubkeySize.
    destruct (Z.lt_ge_cases offset (vsize input));
      [| rewrite geb_true by lia; reflexivity].
    rewrite geb_false by lia.
    rewrite (wrap64_small (vsize input - offset)) by lia.
    destruct (vsize input - offset <? 32) eqn:E; [reflexivity |].
    apply Z.ltb_ge in E. lia.
  - intros v o H. apply DecoderFacts.DecodeUint8_checked in H; lia.
  - intros v o H. apply DecoderFacts.DecodeUint32_checked in H; lia.
  - intros k o H. apply DecoderFacts.DecodePublicKey_checked in H; lia.
Qed.

(** [reads_are_bounds_checked] on the 42-byte account cut after its
    header: a key is read at offset 10 and a [u32] at offset 38, but no
    [u32] at offset 39. *)
Lemma reads_are_bounds_checked_witness :
  DecodePublicKey truncated_account 10 <> None /\
  DecodeUint32 truncated_account 38 <> None /\
  DecodeUint32 truncated_account 39 = None.
Proof.
  split; [| split].
  - destruct (reads_are_bounds_checked truncated_account 10)
      as (_ & _ & H & _); [vm_compute; reflexivity | lia |].
    intros Hn. apply H in Hn. vm_compute in Hn. discriminate.
  - destruct (reads_are_bounds_checked truncated_account 38)
      as (_ & H & _); [vm_compute; reflexivity | lia |].
    intros Hn. apply H in Hn. vm_compute in Hn. discriminate.
  - destruct (reads_are_bounds_checked truncated_account 39)
      as (_ & H & _); [vm_compute; reflexivity | lia |].
    apply H. vm_compute. reflexivity.
Defined.

(** The depth computed from [n] canopy bytes is [d] exactly when [n] lies
    between the sizes of the full canopies of depth [d] and [d + 1], a
    full canopy of depth [d] having [2^(d+1) - 2] nodes of 32 bytes. *)
Lemma canopy_depth_of_range n d :
  0 <= n -> 0 <= d ->
  canopy_depth_of n = d <->
  32 * (2 ^ (d + 1) - 2) <= n < 32 * (2 ^ (d + 2) - 2).
Proof.
  intros Hn Hd. unfold canopy_depth_of, log2_canopy.
  assert (Hp1 : 2 <= 2 ^ (d + 1)).
  { change 2 with (2 ^ 1) at 1. apply Z.pow_le_mono_r; lia. }
  assert (Hp2 : 2 ^ (d + 2) = 2 * 2 ^ (d + 1)).
  { replace (d + 2) with (Z.succ (d + 1)) by lia.
    apply Z.pow_succ_r. lia. }
  pose proof (Z.div_mod n 32 ltac:(lia)) as Hdm.
  pose proof (Z.mod_pos_bound n 32 ltac:(lia)) as Hr.
  destruct (n =? 0) eqn:E.
  - apply Z.eqb_eq in E. subst n. split.
    + intros <-. change (2 ^ (0 + 1)) with 2. change (2 ^ (0 + 2)) with 4.
      lia.
    + intros [Hlo _]. assert (H2 : 2 ^ (d + 1) = 2) by lia.
      destruct (Z.eq_dec d 0) as [-> | Hne]; [reflexivity |].
      assert (2 ^ 2 <= 2 ^ (d + 1)) by (apply Z.pow_le_mono_r; lia).
      change (2 ^ 2) with 4 in *. lia.
  - apply Z.eqb_neq in E.
    set (m := n / 32 + 2) in *.
    assert (Hm : 0 < m) by (unfold m; pose proof (Z.div_pos n 32); lia).
    split.
    + intros Hlog. destruct (Z.log2_spec m Hm) as [Hlo Hhi].
      replace (Z.log2 m) with (d + 1) in * by lia.
      replace (Z.succ (d + 1)) with (d + 2) in Hhi by lia.
      unfold m in *. lia.
    + intros [Hlo Hhi].
      assert (Hlog : Z.log2 m = d + 1).
      { apply Z.log2_unique; [lia |].
        replace (Z.succ (d + 1)) with (d + 2) by lia. unfold m. lia. }
      lia.
Qed.

(** X6.  For an account below [2^32] bytes that decodes and holds the tree
    its header announces, the decoded depth is [d] exactly when the bytes
    left after the tree lie between the sizes of the full canopies of
    depth [d] and [d + 1]: a full canopy of depth [d] is decoded as [d],
    and a canopy cut short is rounded down.  The bytes left are counted
    from the layout: 42 bytes of header, 8 + 6 and 8 + 8 + 8 skipped
    bytes, [max_buffer_size] change logs and one path, with the two
    fields read from the bytes 2 to 5 and 6 to 9.  The decoded depth is
    what the double computation of the code yields under any arithmetic
    that meets [ieee]. *)
Theorem canopy_depth_range data decoded a d :
  vsize data < 2 ^ 32 ->
  DecodeMerkleTreeAuthorityAndDepth data = Some (decoded, a) ->
  let max_buffer_size := le_value (slice data 2 6) in
  let max_depth := le_value (slice data 6 10) in
  let remaining :=
    vsize data
    - (42 + (8 + 6) + (8 + 8 + 8)
       + max_buffer_size * (32 + 32 * max_depth + 4 + 4)
       + (32 * max_depth + 32 + 4 + 4)) in
  0 <= remaining ->
  0 <= d ->
  (decoded = d <->
   32 * (2 ^ (d + 1) - 2) <= remaining < 32 * (2 ^ (d + 2) - 2)) /\
  (0 < remaining ->
   forall fp, ieee fp -> double_canopy_depth fp remaining = decoded).
Proof.
  intros Hsz Hdec mbs md remaining Hrem Hd.
  pose proof (DecoderFacts.decoded_depth_of_remaining data decoded a Hsz Hdec
                Hrem)
    as Hdepth.
  fold mbs md remaining in Hdepth.
  assert (Hlt : remaining < 2 ^ 32).
  { pose proof (DecoderFacts.le_value_nonneg (slice data 2 6)).
    pose proof (DecoderFacts.le_value_nonneg (slice data 6 10)).
    unfold remaining, mbs, md. nia. }
  split.
  - rewrite <- (canopy_depth_of_range remaining d) by lia.
    rewrite Hdepth. reflexivity.
  - intros Hpos fp Hfp. rewrite Hdepth. unfold canopy_depth_of.
    destruct (remaining =? 0) eqn:E; [apply Z.eqb_eq in E; lia |].
    apply DecoderFacts.double_canopy_depth_exact; [exact Hfp | lia].
Qed.

(** [canopy_depth_range] on a complete account followed by a full canopy
    of depth 2, six nodes of 32 bytes: the decoded depth is 2. *)
Lemma canopy_depth_range_witness :
  exists a,
    DecodeMerkleTreeAuthorityAndDepth (small_account 192) = Some (2, a) /\
    double_canopy_depth exact_arithmetic 192 = 2.
Proof.
  destruct (DecodeMerkleTreeAuthorityAndDepth (small_account 192))
    as [[decoded a] |] eqn:Hdec; [| vm_compute in Hdec; discriminate].
  exists a.
  destruct (canopy_depth_range (small_account 192) decoded a 2)
    as [Hiff Hfp].
  - vm_compute. reflexivity.
  - exact Hdec.
  - vm_compute. discriminate.
  - lia.
  - assert (Hd : decoded = 2).
    { apply Hiff. vm_compute. split; [discriminate | reflexivity]. }
    subst decoded. split; [reflexivity |].
    apply (Hfp ltac:(vm_compute; reflexivity) exact_arithmetic).
    exact DecoderFacts.exact_arithmetic_ieee.
Defined.

(** *** What the decoder reads *)

Lemma at_index_app_l (hd rest : list byte) off :
  0 <= off < vsize hd -> at_index (hd ++ rest) off = at_index hd off.
Proof.
  intros H. unfold at_index, vsize in *.
  destruct (off <? 0); [reflexivity |].
  apply nth_error_app1. lia.
Qed.

Lemma slice_prefix (hd rest : list byte) first last :
  0 <= first -> first <= last -> last <= vsize hd ->
  slice (hd ++ rest) first last = slice hd first last.
Proof.
  intros H0 H1 H2. unfold slice, vsize in *.
  rewrite skipn_app.
  replace (Z.to_nat first - length hd)%nat with 0%nat by lia.
  rewrite skipn_O, firstn_app.
  rewrite length_skipn.
  replace (Z.to_nat (last - first) - (length hd - Z.to_nat first))%nat
    with 0%nat by lia.
  cbn [firstn]. apply app_nil_r.
Qed.

(** The header is read from the first 42 bytes. *)
Lemma DecodeHeader_prefix (hd rest : list byte) :
  vsize hd = 42 -> vsize (hd ++ rest) < 2 ^ 64 ->
  DecodeHeader (hd ++ rest) = DecodeHeader hd.
Proof.
  intros Hhd Hsz. pose proof (vsize_nonneg rest) as Hrest.
  rewrite vsize_app in Hsz.
  assert (Hsz' : vsize (hd ++ rest) < 2 ^ 64) by (rewrite vsize_app; lia).
  assert (Hlen : vsize (hd ++ rest) = 42 + vsize rest)
    by (rewrite vsize_app; lia).
  assert (H8 : forall off, 0 <= off < 42 ->
             DecodeUint8 (hd ++ rest) off = DecodeUint8 hd off).
  { intros off Hoff. rewrite !DecodeUint8_room by lia.
    f_equal. apply nth_error_app1. unfold vsize in Hhd. lia. }
  assert (H32 : forall off, 0 <= off -> off + 4 <= 42 ->
             DecodeUint32 (hd ++ rest) off = DecodeUint32 hd off).
  { intros off H0 H1. rewrite !DecodeUint32_room by lia.
    rewrite slice_prefix by lia. reflexivity. }
  assert (Hkey : DecodePublicKey (hd ++ rest) 10 = DecodePublicKey hd 10).
  { rewrite !DecodePublicKey_room by lia.
    rewrite slice_prefix by lia. reflexivity. }
  unfold DecodeHeader. rewrite (H8 0) by lia.
  rewrite (DecodeUint8_room hd 0) by lia.
  destruct (nth_error hd (Z.to_nat 0)) as [b0 |]; [| reflexivity].
  cbn [option_map]. destruct (negb (byte_val b0 =? 1)); [reflexivity |].
  rewrite (H8 (0 + 1)) by lia.
  rewrite (DecodeUint8_room hd (0 + 1)) by lia.
  destruct (nth_error hd (Z.to_nat (0 + 1))) as [b1 |]; [| reflexivity].
  cbn [option_map]. destruct (negb (byte_val b1 =? 0)); [reflexivity |].
  rewrite (H32 (0 + 1 + 1)) by lia.
  rewrite (DecodeUint32_room hd (0 + 1 + 1)) by lia.
  rewrite (H32 (0 + 1 + 1 + 4)) by lia.
  rewrite (DecodeUint32_room hd (0 + 1 + 1 + 4)) by lia.
  change (0 + 1 + 1 + 4 + 4) with 10. rewrite Hkey. reflexivity.
Qed.

Lemma firstn_42_size (data : list byte) :
  42 <= vsize data -> vsize (firstn 42 data) = 42.
Proof. unfold vsize. rewrite length_firstn. lia. Qed.

Lemma DecodeHeader_firstn (data : list byte) :
  42 <= vsize data -> vsize data < 2 ^ 64 ->
  DecodeHeader data = DecodeHeader (firstn 42 data).
Proof.
  intros Hlong Hsz.
  rewrite <- (firstn_skipn 42 data) at 1.
  apply DecodeHeader_prefix.
  - apply firstn_42_size. exact Hlong.
  - rewrite firstn_skipn. exact Hsz.
Qed.

(** X7.  The result depends on the first 42 bytes of the account and on its
    length only: the creation slot, the counters, the change logs, the
    rightmost path and the canopy nodes are never read. *)
Theorem tree_body_not_inspected data1 data2 :
  vsize data1 < 2 ^ 64 ->
  vsize data1 = vsize data2 ->
  firstn 42 data1 = firstn 42 data2 ->
  DecodeMerkleTreeAuthorityAndDepth data1
  = DecodeMerkleTreeAuthorityAndDepth data2.
Proof.
  intros Hsz Hlen Hhd.
  assert (Hh : DecodeHeader data1 = DecodeHeader data2).
  { destruct (Z.lt_ge_cases (vsize data1) 42) as [Hshort | Hlong].
    - rewrite !DecoderFacts.DecodeHeader_short by lia. reflexivity.
    - rewrite (DecodeHeader_firstn data1), (DecodeHeader_firstn data2)
        by lia.
      rewrite Hhd. reflexivity. }
  unfold DecodeMerkleTreeAuthorityAndDepth, canopy_byte_length.
  rewrite Hh, Hlen. reflexivity.
Qed.

(** [tree_body_not_inspected] on two complete accounts of the same length
    that differ after the header: one is followed by zero bytes, the
    other has all its bytes after the header replaced. *)
Lemma tree_body_not_inspected_witness :
  DecodeMerkleTreeAuthorityAndDepth (small_account 64)
  = DecodeMerkleTreeAuthorityAndDepth
      (firstn 42 (small_account 64) ++ repeat xff 246).
Proof.
  apply tree_body_not_inspected.
  - vm_compute. reflexivity.
  - vm_compute. reflexivity.
  - vm_compute. reflexivity.
Defined.

(** X8.  The authority returned is the 32 bytes at offsets 10 to 41 of the
    account. *)
Theorem decoded_authority_is_header_bytes data d a :
  vsize data < 2 ^ 64 ->
  DecodeMerkleTreeAuthorityAndDepth data = Some (d, a) ->
  a = slice data 10 42 /\ vsize a = 32.
Proof.
  intros Hsz Hdec.
  destruct (DecodeHeader data) as [h |] eqn:Hh.
  2:{ apply DecoderFacts.Decode_absent_iff in Hh. congruence. }
  rewrite (DecoderFacts.Decode_present_after_header data h Hh) in Hdec.
  injection Hdec as _ <-.
  pose proof (DecoderFacts.DecodeHeader_inv data h Hsz Hh) as (Hlen & _).
  assert (Hs : vsize (slice data 10 42) = 32)
    by (rewrite DecoderFacts.vsize_slice; lia).
  assert (Ha : authority_address h = slice data 10 42).
  { unfold DecodeHeader in Hh.
    rewrite (DecodeUint8_room data 0) in Hh by lia.
    destruct (nth_error data (Z.to_nat 0)) as [b0 |]; [| discriminate].
    cbn [option_map] in Hh.
    destruct (negb (byte_val b0 =? 1)); [discriminate |].
    rewrite (DecodeUint8_room data (0 + 1)) in Hh by lia.
    destruct (nth_error data (Z.to_nat (0 + 1))) as [b1 |]; [| discriminate].
    cbn [option_map] in Hh.
    destruct (negb (byte_val b1 =? 0)); [discriminate |].
    rewrite (DecodeUint32_room data (0 + 1 + 1)) in Hh by lia.
    rewrite (DecodeUint32_room data (0 + 1 + 1 + 4)) in Hh by lia.
    rewrite (DecodePublicKey_room data (0 + 1 + 1 + 4 + 4)) in Hh by lia.
    change (0 + 1 + 1 + 4 + 4) with 10 in Hh.
    change (10 + 32) with 42 in Hh.
    rewrite Base58Facts.FromBase58_Encode in Hh by exact Hs.
    injection Hh as <-. reflexivity. }
  rewrite Ha. split; [reflexivity | exact Hs].
Qed.

(** [decoded_authority_is_header_bytes] on the 42-byte account cut after
    its header, whose authority is 32 bytes of value 7. *)
Lemma decoded_authority_is_header_bytes_witness :
  option_map snd (DecodeMerkleTreeAuthorityAndDepth truncated_account)
  = Some (repeat x07 32).
Proof.
  destruct (DecodeMerkleTreeAuthorityAndDepth truncated_account)
    as [[d a] |] eqn:E.
  - destruct (decoded_authority_is_header_bytes truncated_account d a)
      as [-> _]; [vm_compute; reflexivity | exact E |].
    vm_compute. reflexivity.
  - apply DecoderFacts.Decode_absent_characterised in E;
      [| vm_compute; reflexivity].
    exfalso. destruct E as [E | [E | E]].
    + vm_compute in E. discriminate.
    + apply E. reflexivity.
    + apply E. reflexivity.
Defined.

End ReaderFacts.

(** ** The transaction manager: the lifecycle as a whole *)

Module LifecycleFacts.
Import Builder TxManager Submission TxManagerFacts.

(** *** What reconciliation does to the store *)

Lemma reconciled_refl m : reconciled m m.
Proof. unfold reconciled. tauto. Qed.

Lemma reconciled_trans m1 m2 m3 :
  reconciled m1 m2 -> reconciled m2 m3 -> reconciled m1 m3.
Proof.
  unfold reconciled.
  intros (? & ? & ? & ? & ? & ? & ? & H12) (? & ? & ? & ? & ? & ? & ? & H23).
  repeat split; try congruence.
  destruct H23 as [H23 | H23]; [rewrite H23; exact H12 | tauto].
Qed.

Lemma store_reconciled_refl s : store_reconciled s s.
Proof.
  intros k. destruct (s !! k) as [m |]; [| reflexivity].
  exists m. split; [reflexivity | apply reconciled_refl].
Qed.

Lemma store_reconciled_trans s1 s2 s3 :
  store_reconciled s1 s2 -> store_reconciled s2 s3 ->
  store_reconciled s1 s3.
Proof.
  intros H12 H23 k. specialize (H12 k). specialize (H23 k).
  destruct (s1 !! k) as [m1 |].
  - destruct H12 as (m2 & E2 & R12). rewrite E2 in H23.
    destruct H23 as (m3 & E3 & R23). exists m3.
    split; [exact E3 | exact (reconciled_trans _ _ _ R12 R23)].
  - rewrite H12 in H23. exact H23.
Qed.

Lemma store_reconciled_insert s meta meta' :
  s !! id meta = Some meta -> reconciled meta meta' ->
  store_reconciled s (<[id meta := meta']> s).
Proof.
  intros Hl Hr k. destruct (decide (id meta = k)) as [<- | Hne].
  - rewrite Hl. exists meta'. rewrite lookup_insert_eq. auto.
  - rewrite lookup_insert_ne by exact Hne.
    destruct (s !! k) as [m |] eqn:E; [| reflexivity].
    exists m. split; [reflexivity | apply reconciled_refl].
Qed.

(** One step of the loop rewrites at most the meta it examined, and
    reconciles it. *)
Lemma examine_reconciles env h k st w :
  keyed (store w) ->
  store_reconciled (store w) (store (snd (examine env h k st w))).
Proof.
  intros Hs. destruct (store w !! k) as [meta |] eqn:Hl.
  2:{ rewrite examine_missing by exact Hl. apply store_reconciled_refl. }
  rewrite (examine_found _ _ _ _ _ meta Hl). cbn [snd].
  pose proof (Hs _ _ Hl) as Hid.
  assert (Hwrite : forall meta',
             reconciled meta meta' ->
             store_reconciled (store w)
               (store (snd (AddOrUpdateTx env meta' w)))).
  { intros meta' Hr. cbn.
    destruct (storage_accepts env meta'); [| apply store_reconciled_refl].
    destruct Hr as (Hid' & Hrest). rewrite Hid'.
    apply store_reconciled_insert; [rewrite Hid; exact Hl |].
    split; [exact Hid' | exact Hrest]. }
  destruct st as [s |].
  - destruct (negb (empty (err s))).
    { apply Hwrite. unfold reconciled. cbn. tauto. }
    destruct (negb (empty (confirmation_status s)));
      [| apply store_reconciled_refl].
    destruct (String.eqb (confirmation_status s) "finalized");
      apply Hwrite; unfold reconciled; cbn; tauto.
  - destruct (negb (height_of meta =? 0) && (height_of meta <? h));
      [| apply store_reconciled_refl].
    apply Hwrite. unfold reconciled. cbn. tauto.
Qed.

Lemma examine_all_reconciles env h ids : forall sts w,
  keyed (store w) ->
  store_reconciled (store w) (store (snd (examine_all env h ids sts w))).
Proof.
  induction ids as [| k ids IH]; intros sts w Hs;
    [apply store_reconciled_refl |].
  destruct sts as [| s sts]; [apply store_reconciled_refl |].
  cbn [examine_all]. unfold bind.
  destruct (examine env h k s w) as [[] w1] eqn:E1.
  assert (Hw1 : w1 = snd (examine env h k s w)) by (rewrite E1; reflexivity).
  apply store_reconciled_trans with (store w1).
  - rewrite Hw1. apply examine_reconciles. exact Hs.
  - apply IH. rewrite Hw1. apply examine_keyed. exact Hs.
Qed.

Lemma OnGetSignatureStatuses_reconciles env chain ids h sts e msg w :
  keyed (store w) ->
  keyed (store (snd (OnGetSignatureStatuses env chain ids h sts e msg w))) /\
  store_reconciled (store w)
    (store (snd (OnGetSignatureStatuses env chain ids h sts e msg w))).
Proof.
  intros Hs. unfold OnGetSignatureStatuses.
  destruct (negb (is_success e));
    [split; [exact Hs | apply store_reconciled_refl] |].
  destruct (negb (length ids =? length sts)%nat);
    [split; [exact Hs | apply store_reconciled_refl] |].
  split; [apply examine_all_frame; exact Hs |].
  apply examine_all_reconciles. exact Hs.
Qed.

Lemma OnGetBlockHeight_reconciles env chain h e msg w :
  keyed (store w) ->
  keyed (store (snd (OnGetBlockHeight env chain h e msg w))) /\
  store_reconciled (store w)
    (store (snd (OnGetBlockHeight env chain h e msg w))).
Proof.
  intros Hs. unfold OnGetBlockHeight.
  destruct (negb (is_success e));
    [split; [exact Hs | apply store_reconciled_refl] |].
  unfold bind, GetTransactionsByStatus. cbn [emit].
  destruct (GetSolanaSignatureStatuses env chain _) as [[sts e'] msg'].
  apply (OnGetSignatureStatuses_reconciles env chain _ h sts e' msg'
           {| store := store w; trace := _; clock := clock w;
              generated_ids := generated_ids w |}).
  exact Hs.
Qed.

Lemma query_chain_reconciles env chain w :
  keyed (store w) ->
  keyed (store (snd (query_chain env chain w))) /\
  store_reconciled (store w) (store (snd (query_chain env chain w))).
Proof.
  intros Hs. unfold query_chain, bind. cbn [emit].
  destruct (GetSolanaBlockHeight env chain) as [[h e] msg].
  apply (OnGetBlockHeight_reconciles env chain h e msg
           {| store := store w; trace := _; clock := clock w;
              generated_ids := generated_ids w |}).
  exact Hs.
Qed.

Lemma query_pending_reconciles env pending : forall seen w,
  keyed (store w) ->
  keyed (store (snd (query_pending env pending seen w))) /\
  store_reconciled (store w)
    (store (snd (query_pending env pending seen w))).
Proof.
  induction pending as [| m pending IH]; intros seen w Hs;
    [split; [exact Hs | apply store_reconciled_refl] |].
  cbn [query_pending].
  destruct (existsb (String.eqb (chain_id m)) seen); [apply IH; exact Hs |].
  unfold bind. destruct (query_chain env (chain_id m) w) as [[] w1] eqn:E1.
  assert (Hw1 : w1 = snd (query_chain env (chain_id m) w))
    by (rewrite E1; reflexivity).
  destruct (query_chain_reconciles env (chain_id m) w Hs) as [Hk1 Hr1].
  rewrite <- Hw1 in Hk1, Hr1.
  destruct (IH (seen ++ [chain_id m]) w1 Hk1) as [Hk2 Hr2].
  split; [exact Hk2 |].
  exact (store_reconciled_trans _ _ _ Hr1 Hr2).
Qed.

Lemma UpdatePendingTransactions_reconciles env chain w :
  keyed (store w) ->
  keyed (store (snd (UpdatePendingTransactions env chain w))) /\
  store_reconciled (store w)
    (store (snd (UpdatePendingTransactions env chain w))).
Proof.
  intros Hs. unfold UpdatePendingTransactions, bind.
  destruct chain as [c |].
  - destruct (query_chain env c w) as [[] w1] eqn:E1. cbn [emit snd store].
    replace w1 with (snd (query_chain env c w)) by (rewrite E1; reflexivity).
    apply query_chain_reconciles. exact Hs.
  - unfold GetTransactionsByStatus.
    match goal with
    | |- context [query_pending env ?p ?s w] =>
        destruct (query_pending env p s w) as [[] w1] eqn:E1;
        pose proof (query_pending_reconciles env p s w Hs) as H1
    end.
    rewrite E1 in H1. exact H1.
Qed.

(** X9.  A reconciliation, and a signature-status answer handled on its own,
    neither adds nor removes a stored transaction; what they leave of a
    transaction has the same id, chain, account, creation and submission
    times, hash and message, and a lifecycle state that is the old one or
    one of Dropped, Error and Confirmed. *)
Theorem reconciliation_keeps_transactions env w :
  keyed (store w) ->
  (forall chain,
      store_reconciled (store w)
        (store (snd (UpdatePendingTransactions env chain w)))) /\
  (forall chain ids block_height statuses error message,
      store_reconciled (store w)
        (store (snd (OnGetSignatureStatuses env chain ids block_height
                       statuses error message w)))).
Proof.
  intros Hs. split.
  - intros chain. apply UpdatePendingTransactions_reconciles. exact Hs.
  - intros chain ids h sts e msg.
    apply OnGetSignatureStatuses_reconciles. exact Hs.
Qed.

(** [reconciliation_keeps_transactions] on a world with one submitted
    transaction whose last valid block height 700 is below the block
    height 1000: it is still stored, under the same hash, and Dropped. *)
Lemma reconciliation_keeps_transactions_witness :
  let meta := sample_meta "tx1" Submitted "blockhash" 700 [] in
  exists meta',
    store (snd (UpdatePendingTransactions sample_env None (world_of [meta])))
      !! "tx1" = Some meta' /\
    tx_hash meta' = tx_hash meta /\ tx meta' = tx meta /\
    status meta' = Dropped.
Proof.
  cbv zeta.
  destruct (reconciliation_keeps_transactions sample_env
              (world_of [sample_meta "tx1" Submitted "blockhash" 700 []]))
    as [H _]; [apply world_of_keyed |].
  specialize (H None "tx1").
  change (store (world_of [sample_meta "tx1" Submitted "blockhash" 700 []])
            !! "tx1")
    with (Some (sample_meta "tx1" Submitted "blockhash" 700 [])) in H.
  destruct H as (meta' & Hl & Hr). exists meta'.
  split; [exact Hl |].
  destruct Hr as (_ & _ & _ & _ & _ & Hhash & Htx & _).
  split; [exact Hhash |]. split; [exact Htx |].
  assert (Hc : option_map status
                 (store (snd (UpdatePendingTransactions sample_env None
                                (world_of [sample_meta "tx1" Submitted
                                             "blockhash" 700 []])))
                    !! "tx1") = Some Dropped)
    by (vm_compute; reflexivity).
  rewrite Hl in Hc. injection Hc as Hc. exact Hc.
Defined.

(** *** What reconciliation leaves alone *)

Lemma status_eqb_eq a b : status_eqb a b = true <-> a = b.
Proof. destruct a, b; cbn; split; congruence. Qed.

(** The ids handed to the loop by [OnGetBlockHeight] are those of the
    stored transactions that are Submitted on the chain. *)
Lemma pending_id_stored chain w k :
  keyed (store w) ->
  In k (map id (fst (GetTransactionsByStatus (Some chain) Submitted w))) ->
  exists m,
    store w !! k = Some m /\ status m = Submitted /\ chain_id m = chain.
Proof.
  intros Hs Hin. unfold GetTransactionsByStatus in Hin. cbn [fst] in Hin.
  apply in_map_iff in Hin. destruct Hin as (m & Hid & Hin).
  apply filter_In in Hin. destruct Hin as [Hin Hf].
  apply andb_true_iff in Hf. destruct Hf as [Hc Hst].
  apply String.eqb_eq in Hc. apply status_eqb_eq in Hst.
  apply in_map_iff in Hin. destruct Hin as ([k' m'] & Hm & Hin).
  cbn in Hm. subst m'.
  apply list_elem_of_In, elem_of_map_to_list in Hin.
  pose proof (Hs _ _ Hin) as Hk. exists m.
  rewrite <- Hid, Hk. auto.
Qed.

(** A transaction that is Submitted on the chain is among those
    [OnGetBlockHeight] collects. *)
Lemma stored_pending_id chain w k m :
  store w !! k = Some m -> status m = Submitted -> chain_id m = chain ->
  In (id m) (map id (fst (GetTransactionsByStatus (Some chain) Submitted w))).
Proof.
  intros Hl Hst Hc. unfold GetTransactionsByStatus. cbn [fst].
  apply in_map. apply filter_In. split.
  - apply in_map_iff. exists (k, m). split; [reflexivity |].
    apply list_elem_of_In, elem_of_map_to_list. exact Hl.
  - apply andb_true_iff. split.
    + apply String.eqb_eq. exact Hc.
    + apply status_eqb_eq. exact Hst.
Qed.

(** X10.  The answers of a round of reconciliation rewrite only the
    transactions collected when the block height came.  When the height
    of [chain] arrives, on the store [w0] of that moment,
    [OnGetBlockHeight] collects the ids of the transactions that are then
    Submitted on the chain and binds them to the status request.
    Whenever the status answer arrives, and whatever is stored by then
    ([w]), [OnGetSignatureStatuses] leaves every transaction whose id was
    not collected exactly as it is.  Nothing is assumed about the order
    in which the answers come. *)
Theorem status_answer_touches_collected_only env chain w0 :
  keyed (store w0) ->
  let pending := fst (GetTransactionsByStatus (Some chain) Submitted w0) in
  let ids := map id pending in
  (forall k,
      In k ids <->
      exists m,
        store w0 !! k = Some m /\ status m = Submitted /\
        chain_id m = chain) /\
  (forall height msg,
      OnGetBlockHeight env chain height kSuccess msg w0
      = (let '(statuses, e, m) :=
           GetSolanaSignatureStatuses env chain (map tx_hash pending) in
         OnGetSignatureStatuses env chain ids height statuses e m)
          (snd (emit (CallGetSolanaSignatureStatuses chain
                        (map tx_hash pending)) w0))) /\
  (forall w height statuses e msg k,
      keyed (store w) -> ~ In k ids ->
      store (snd (OnGetSignatureStatuses env chain ids height statuses e
                    msg w)) !! k
      = store w !! k).
Proof.
  intros Hs pending ids. split; [| split].
  - intros k. split.
    + apply pending_id_stored. exact Hs.
    + intros (m & Hl & Hst & Hc). rewrite <- (Hs k m Hl).
      exact (stored_pending_id chain w0 k m Hl Hst Hc).
  - intros height msg. reflexivity.
  - intros w height statuses e msg k Hw Hni.
    unfold OnGetSignatureStatuses.
    destruct (negb (is_success e)); [reflexivity |].
    destruct (negb (length ids =? length statuses)%nat); [reflexivity |].
    destruct (examine_all_frame env height ids statuses w Hw) as (_ & _ & Ho).
    apply Ho. intros Hin. apply Hni, list_elem_of_In. exact Hin.
Qed.

(** [status_answer_touches_collected_only] with a transaction Submitted
    and one Approved, both past their last valid block height: the first
    is collected, and the status answer, here arriving on the same store,
    leaves the second as it is. *)
Lemma status_answer_touches_collected_only_witness :
  let submitted := sample_meta "tx1" Submitted "blockhash" 700 [] in
  let approved := sample_meta "tx2" Approved "blockhash" 700 [] in
  let w := world_of [submitted; approved] in
  In "tx1" (map id (fst (GetTransactionsByStatus (Some "0x65") Submitted w)))
  /\ store (snd (OnGetSignatureStatuses sample_env "0x65" ["tx1"] 1000
                   [None] kSuccess "" w)) !! "tx2"
     = Some approved.
Proof.
  cbv zeta.
  destruct (status_answer_touches_collected_only sample_env "0x65"
              (world_of [sample_meta "tx1" Submitted "blockhash" 700 [];
                         sample_meta "tx2" Approved "blockhash" 700 []]))
    as (Hids & _ & Hframe).
  - apply world_of_keyed.
  - split.
    + apply Hids. eexists. split; [vm_compute; reflexivity |].
      split; reflexivity.
    + assert (Hl : map id (fst (GetTransactionsByStatus (Some "0x65")
                                  Submitted
                                  (world_of
                                     [sample_meta "tx1" Submitted "blockhash"
                                        700 [];
                                      sample_meta "tx2" Approved "blockhash"
                                        700 []])))
                   = ["tx1"]) by (vm_compute; reflexivity).
      rewrite Hl in Hframe. rewrite Hframe.
      * vm_compute. reflexivity.
      * apply world_of_keyed.
      * cbn. intros [H | []]. discriminate.
Defined.

(** A collected id is examined without a test of its status: a
    transaction that is no longer Submitted when the status answer
    arrives is rewritten all the same. *)
Example collected_id_rewritten_whatever_its_status :
  let approved := sample_meta "tx1" Approved "blockhash" 700 [] in
  option_map status
    (store (snd (OnGetSignatureStatuses sample_env "0x65" ["tx1"] 1000
                   [None] kSuccess "" (world_of [approved]))) !! "tx1")
  = Some Dropped.
Proof. vm_compute. reflexivity. Qed.

(** *** The calls a function makes *)

Lemma only_ret {A} (P : Event -> Prop) (a : A) :
  appends (List.Forall P) (ret a).
Proof. intros w. exists []. cbn. rewrite app_nil_r. auto. Qed.

Lemma only_bind {A B} (P : Event -> Prop) (m : M A) (k : A -> M B) :
  appends (List.Forall P) m -> (forall a, appends (List.Forall P) (k a)) ->
  appends (List.Forall P) (bind m k).
Proof.
  intros Hm Hk w. unfold bind.
  destruct (Hm w) as (e1 & H1 & F1). destruct (m w) as [a w1].
  destruct (Hk a w1) as (e2 & H2 & F2).
  exists (e1 ++ e2). cbn [snd] in *. rewrite H2, H1, app_assoc.
  split; [reflexivity |]. apply List.Forall_app. auto.
Qed.

Lemma only_emit (P : Event -> Prop) e :
  P e -> appends (List.Forall P) (emit e).
Proof. intros He w. exists [e]. cbn. auto. Qed.

Lemma only_Now (P : Event -> Prop) : appends (List.Forall P) Now.
Proof. intros w. exists []. cbn. rewrite app_nil_r. auto. Qed.

Lemma only_GetSolanaTx (P : Event -> Prop) k :
  appends (List.Forall P) (GetSolanaTx k).
Proof. intros w. exists []. cbn. rewrite app_nil_r. auto. Qed.

Lemma only_GetTransactionsByStatus (P : Event -> Prop) c s :
  appends (List.Forall P) (GetTransactionsByStatus c s).
Proof. intros w. exists []. cbn. rewrite app_nil_r. auto. Qed.

Lemma only_AddOrUpdateTx (P : Event -> Prop) env meta :
  (forall ok, P (CallAddOrUpdateTx meta ok)) ->
  appends (List.Forall P) (AddOrUpdateTx env meta).
Proof.
  intros HP w. exists [CallAddOrUpdateTx meta (storage_accepts env meta)].
  cbn. auto.
Qed.

Ltac only_step :=
  match goal with
  | |- appends _ (bind _ _) => apply only_bind; [| intros ?]
  | |- appends _ (ret _) => apply only_ret
  | |- appends _ Now => apply only_Now
  | |- appends _ (GetSolanaTx _) => apply only_GetSolanaTx
  | |- appends _ (GetTransactionsByStatus _ _) =>
      apply only_GetTransactionsByStatus
  | |- appends _ (AddOrUpdateTx _ _) =>
      apply only_AddOrUpdateTx; intros ?; reflexivity
  | |- appends _ (emit _) => apply only_emit; reflexivity
  | |- appends _ (match ?x with _ => _ end) => destruct x
  | |- appends _ (if ?b then _ else _) => destruct b
  | |- appends _ (let '(_, _) := ?x in _) => destruct x
  end.

(** The answer to a block-height query asks for no block height. *)
Lemma OnGetBlockHeight_asks_no_height env c h e msg :
  appends (List.Forall (fun e => asks_height e = false))
    (OnGetBlockHeight env c h e msg).
Proof.
  assert (Hex : forall bh k st,
             appends (List.Forall (fun e => asks_height e = false))
               (examine env bh k st))
    by (intros; unfold examine; repeat only_step).
  assert (Hall : forall bh ids sts,
             appends (List.Forall (fun e => asks_height e = false))
               (examine_all env bh ids sts)).
  { intros bh ids. induction ids as [| k ids IH]; intros sts;
      cbn [examine_all]; [apply only_ret |].
    destruct sts; [apply only_ret |].
    apply only_bind; [apply Hex | intros _; apply IH]. }
  unfold OnGetBlockHeight, OnGetSignatureStatuses. repeat only_step.
  apply Hall.
Qed.

Lemma height_queries_app a b :
  height_queries (a ++ b) = height_queries a ++ height_queries b.
Proof.
  induction a as [| e a IH]; [reflexivity |].
  destruct e; cbn; rewrite ?IH; reflexivity.
Qed.

Lemma height_queries_none evs :
  List.Forall (fun e => asks_height e = false) evs -> height_queries evs = [].
Proof.
  induction 1 as [| e evs He _ IH]; [reflexivity |].
  destruct e; cbn in *; try exact IH; discriminate.
Qed.

(** One round trip asks for the height of its chain, once. *)
Lemma query_chain_heights env c :
  appends (fun evs => height_queries evs = [c]) (query_chain env c).
Proof.
  intros w. unfold query_chain, bind. cbn [emit].
  destruct (GetSolanaBlockHeight env c) as [[h e] msg].
  match goal with
  | |- context [OnGetBlockHeight env c h e msg ?w1] =>
      destruct (OnGetBlockHeight_asks_no_height env c h e msg w1)
        as (evs & Htr & Hno)
  end.
  exists (CallGetSolanaBlockHeight c :: evs). rewrite Htr. cbn [trace].
  rewrite <- app_assoc. split; [reflexivity |].
  cbn. rewrite (height_queries_none evs Hno). reflexivity.
Qed.

Lemma existsb_eqb_In c seen :
  existsb (String.eqb c) seen = true <-> In c seen.
Proof.
  rewrite existsb_exists. split.
  - intros (x & Hin & Heq). apply String.eqb_eq in Heq. subst x. exact Hin.
  - intros Hin. exists c. split; [exact Hin | apply String.eqb_refl].
Qed.

(** The loop over the pending transactions asks for the height of every
    chain among them that was not seen before, once. *)
Lemma query_pending_heights env pending : forall seen,
  appends
    (fun evs =>
       List.NoDup (height_queries evs) /\
       forall c, In c (height_queries evs) <->
                 In c (map chain_id pending) /\ ~ In c seen)
    (query_pending env pending seen).
Proof.
  induction pending as [| m pending IH]; intros seen w.
  - exists []. cbn. rewrite app_nil_r. split; [reflexivity |].
    split; [constructor | tauto].
  - cbn [query_pending].
    destruct (existsb (String.eqb (chain_id m)) seen) eqn:Hseen.
    + apply existsb_eqb_In in Hseen.
      destruct (IH seen w) as (evs & Htr & Hnd & Hin).
      exists evs. split; [exact Htr |]. split; [exact Hnd |].
      intros c. rewrite Hin. cbn [map In]. split; [tauto |].
      intros [[<- | Hc] Hns]; tauto.
    + assert (Hns : ~ In (chain_id m) seen).
      { rewrite <- existsb_eqb_In, Hseen. discriminate. }
      unfold bind.
      destruct (query_chain_heights env (chain_id m) w) as (e1 & Htr1 & Hq1).
      destruct (query_chain env (chain_id m) w) as [[] w1].
      cbn [snd] in Htr1.
      destruct (IH (seen ++ [chain_id m]) w1) as (e2 & Htr2 & Hnd2 & Hin2).
      exists (e1 ++ e2). rewrite Htr2, Htr1, app_assoc.
      split; [reflexivity |].
      rewrite height_queries_app, Hq1. cbn [app]. split.
      * constructor; [| exact Hnd2].
        intros Hin. apply Hin2 in Hin. destruct Hin as [_ Hin].
        apply Hin, in_or_app. right. left. reflexivity.
      * intros c. cbn [In map]. rewrite Hin2, in_app_iff. cbn [In].
        destruct (string_dec (chain_id m) c) as [<- | Hne]; tauto.
Qed.

Lemma pending_chain_stored c w :
  In c (map chain_id (fst (GetTransactionsByStatus None Submitted w))) <->
  pending_on c w.
Proof.
  unfold GetTransactionsByStatus, pending_on. cbn [fst]. split.
  - intros Hin. apply in_map_iff in Hin. destruct Hin as (m & Hc & Hin).
    apply filter_In in Hin. destruct Hin as [Hin Hf].
    cbn [andb] in Hf. apply status_eqb_eq in Hf.
    apply in_map_iff in Hin. destruct Hin as ([k m'] & Hm & Hin).
    cbn in Hm. subst m'.
    apply list_elem_of_In, elem_of_map_to_list in Hin.
    exists k, m. auto.
  - intros (k & m & Hl & Hst & Hc). apply in_map_iff. exists m.
    split; [exact Hc |]. apply filter_In. split.
    + apply in_map_iff. exists (k, m). split; [reflexivity |].
      apply list_elem_of_In, elem_of_map_to_list. exact Hl.
    + cbn [andb]. apply status_eqb_eq. exact Hst.
Qed.

(** X11.  A reconciliation of all chains asks for the block height of exactly
    the chains on which a transaction is Submitted, and of each of them
    once; a reconciliation of one chain asks for the block height of that
    chain, once, whether or not a transaction is pending on it; and so
    does the notification of a new blockhash on a chain, whatever the
    blockhash. *)
Theorem each_pending_chain_queried_once env w :
  (exists evs,
      trace (snd (UpdatePendingTransactions env None w)) = trace w ++ evs /\
      List.NoDup (height_queries evs) /\
      forall c, In c (height_queries evs) <-> pending_on c w) /\
  (forall c, exists evs,
      trace (snd (UpdatePendingTransactions env (Some c) w))
      = trace w ++ evs /\
      height_queries evs = [c]) /\
  (forall c blockhash last_valid, exists evs,
      trace (snd (OnLatestBlockhashUpdated env c blockhash last_valid w))
      = trace w ++ evs /\
      height_queries evs = [c]).
Proof.
  assert (Hone : forall c, exists evs,
             trace (snd (UpdatePendingTransactions env (Some c) w))
             = trace w ++ evs /\
             height_queries evs = [c]).
  { intros c. unfold UpdatePendingTransactions, bind.
    destruct (query_chain_heights env c w) as (evs & Htr & Hq).
    destruct (query_chain env c w) as [[] w1]. cbn [snd] in Htr.
    exists (evs ++ [CallCheckIfBlockTrackerShouldRun]).
    cbn [emit snd trace]. rewrite Htr, app_assoc.
    split; [reflexivity |].
    rewrite height_queries_app, Hq. reflexivity. }
  split; [| split; [exact Hone | intros c b h; exact (Hone c)]].
  unfold UpdatePendingTransactions, bind.
  destruct (GetTransactionsByStatus None Submitted w) as [pending w0] eqn:E0.
    assert (Hw0 : w0 = w) by (unfold GetTransactionsByStatus in E0; congruence).
    assert (Hp : pending = fst (GetTransactionsByStatus None Submitted w))
      by (rewrite E0; reflexivity).
    subst w0.
    destruct (query_pending_heights env pending [] w) as (evs & Htr & Hnd & Hin).
    destruct (query_pending env pending [] w) as [[] w1]. cbn [snd] in Htr.
    exists (evs ++ [CallCheckIfBlockTrackerShouldRun]).
    cbn [emit snd trace]. rewrite Htr, app_assoc.
    split; [reflexivity |].
    rewrite height_queries_app. cbn [height_queries]. rewrite app_nil_r.
    split; [exact Hnd |].
    intros c. rewrite Hin, Hp, pending_chain_stored. cbn [In]. tauto.
Qed.

(** *** The answer to a send *)

(** X12.  What the answer of the network to a send does, for a stored
    transaction.  The callback is told the error and its message as they
    came, and its success flag says whether the message is empty, not
    whether the error is [kSuccess].  On an error the transaction is
    stored as Error, and no other entry changes.  On success it is stored as
    Submitted with the hash returned and the time of the answer, and the
    reconciliation that follows at once leaves it with that hash, time
    and message, in one of the states Submitted, Dropped, Error and
    Confirmed.  When the storage refuses the write, the callback is told
    an internal error and the store is unchanged. *)
Theorem send_outcome env k hash e msg w meta :
  keyed (store w) -> store w !! k = Some meta ->
  let sent :=
    if is_success e
    then set_tx_hash hash
           (set_submitted_time (clock w) (set_status Submitted meta))
    else set_status Error meta in
  let after := OnSendSolanaTransaction env k hash e msg w in
  (storage_accepts env sent = false ->
   fst after = (false, kInternalError, IDS_WALLET_INTERNAL_ERROR) /\
   store (snd after) = store w) /\
  (storage_accepts env sent = true ->
   fst after = (empty msg, e, msg) /\
   (e <> kSuccess -> store (snd after) = <[k := sent]> (store w)) /\
   (e = kSuccess ->
    exists meta', store (snd after) !! k = Some meta' /\
                  reconciled sent meta')).
Proof.
  intros Hs Hl sent after. pose proof (Hs _ _ Hl) as Hid.
  assert (Hsid : id sent = k)
    by (unfold sent; destruct (is_success e); exact Hid).
  assert (Hrun : after
                 = let (ok, w1) := AddOrUpdateTx env sent w in
                   (if negb ok
                    then ret (false, kInternalError,
                              IDS_WALLET_INTERNAL_ERROR)
                    else
                      bind (if is_success e
                            then UpdatePendingTransactions env
                                   (Some (chain_id sent))
                            else ret tt)
                        (fun _ => ret (empty msg, e, msg))) w1).
  { unfold after, OnSendSolanaTransaction, bind at 1, GetSolanaTx.
    rewrite Hl. reflexivity. }
  rewrite Hrun. clear Hrun. unfold AddOrUpdateTx. split.
  - intros Hno. rewrite Hno. cbn. auto.
  - intros Hok. rewrite Hok. cbn [negb]. unfold bind, ret.
    set (w1 := {| store := <[id sent := sent]> (store w);
                  trace := trace w ++ [CallAddOrUpdateTx sent true];
                  clock := clock w; generated_ids := generated_ids w |}).
    destruct (is_success e) eqn:He.
    + destruct (UpdatePendingTransactions env (Some (chain_id sent)) w1)
        as [[] w2] eqn:E2.
      cbn [fst snd]. split; [reflexivity |].
      split; [intros Habs; destruct e; try discriminate; contradiction |].
      intros _.
      assert (Hk1 : keyed (store w1))
        by (apply keyed_insert; exact Hs).
      destruct (UpdatePendingTransactions_reconciles env
                  (Some (chain_id sent)) w1 Hk1) as [_ Hr].
      rewrite E2 in Hr. cbn [snd] in Hr. specialize (Hr k).
      unfold w1 in Hr. cbn [store] in Hr.
      rewrite Hsid, lookup_insert_eq in Hr. exact Hr.
    + cbn [fst snd]. split; [reflexivity |]. split.
      * intros _. unfold w1. cbn [store]. rewrite Hsid. reflexivity.
      * intros ->. discriminate He.
Qed.

(** [send_outcome] on an approved transaction whose send is accepted under
    the hash "sig" at time 100: it is stored with that hash and time. *)
Lemma send_outcome_witness :
  let meta := sample_meta "tx1" Approved "blockhash" 0 [] in
  exists meta',
    store (snd (OnSendSolanaTransaction sample_env "tx1" "sig" kSuccess ""
                  (world_of [meta]))) !! "tx1" = Some meta' /\
    tx_hash meta' = "sig" /\ submitted_time meta' = 100.
Proof.
  cbv zeta.
  destruct (send_outcome sample_env "tx1" "sig" kSuccess ""
              (world_of [sample_meta "tx1" Approved "blockhash" 0 []])
              (sample_meta "tx1" Approved "blockhash" 0 []))
    as [_ H].
  - apply world_of_keyed.
  - vm_compute. reflexivity.
  - destruct H as (_ & _ & H); [reflexivity |].
    destruct (H eq_refl) as (meta' & Hl & Hr). exists meta'.
    split; [exact Hl |].
    destruct Hr as (_ & _ & _ & _ & Ht & Hh & _).
    split; [exact Hh | exact Ht].
Defined.

(** *** Transactions that are not stored *)

(** X13.  Asked about an id that is not stored, every entry point of the manager
    reports a failure to its callback and changes nothing: nothing is
    written, no call is made, no id is generated. *)
Theorem unknown_id_changes_nothing env {TxData} (signing : Signing TxData)
    w k :
  store w !! k = None ->
  ApproveTransaction env k w
  = ((false, kInternalError, IDS_BRAVE_WALLET_TRANSACTION_NOT_FOUND), w) /\
  RetryTransaction env k w
  = ((false, "", IDS_BRAVE_WALLET_TRANSACTION_NOT_FOUND), w) /\
  GetTransactionMessageToSign env k w = (None, w) /\
  GetEstimatedTxFee env k w
  = ((0, kInternalError, IDS_BRAVE_WALLET_TRANSACTION_NOT_FOUND), w) /\
  (forall signature,
      ProcessSolanaHardwareSignature env signing k signature w
      = ((false, kInternalError, IDS_BRAVE_WALLET_TRANSACTION_NOT_FOUND),
         w)) /\
  (forall hash e msg,
      OnSendSolanaTransaction env k hash e msg w
      = ((false, kInternalError, IDS_BRAVE_WALLET_TRANSACTION_NOT_FOUND),
         w)) /\
  (forall chain block_height status e msg,
      OnGetSignatureStatuses env chain [k] block_height [status] e msg w
      = (tt, w)).
Proof.
  intros Hl.
  unfold ApproveTransaction, RetryTransaction, GetTransactionMessageToSign,
    GetEstimatedTxFee, ProcessSolanaHardwareSignature,
    OnSendSolanaTransaction, bind, GetSolanaTx.
  rewrite Hl. repeat apply conj; try reflexivity.
  intros chain h st e msg. unfold OnGetSignatureStatuses.
  destruct (negb (is_success e)); [reflexivity |].
  cbn [length Nat.eqb negb examine_all]. unfold bind.
  rewrite examine_missing by exact Hl. reflexivity.
Qed.

(** [unknown_id_changes_nothing] on a world that stores "tx1" only, asked
    about "tx2". *)
Lemma unknown_id_changes_nothing_witness :
  let w := world_of [sample_meta "tx1" Unapproved "" 0 []] in
  ApproveTransaction sample_env "tx2" w
  = ((false, kInternalError, IDS_BRAVE_WALLET_TRANSACTION_NOT_FOUND), w) /\
  RetryTransaction sample_env "tx2" w
  = ((false, "", IDS_BRAVE_WALLET_TRANSACTION_NOT_FOUND), w).
Proof.
  cbv zeta.
  destruct (unknown_id_changes_nothing sample_env sample_signing
              (world_of [sample_meta "tx1" Unapproved "" 0 []]) "tx2")
    as (Ha & Hr & _).
  - vm_compute. reflexivity.
  - split; [exact Ha | exact Hr].
Defined.

(** *** Approval after a retry *)

Lemma retried_chain env new_id now meta :
  chain_id (retried env new_id now meta) = chain_id meta.
Proof.
  unfold retried. destruct (UsesDurableNonce env (message (tx meta)));
    reflexivity.
Qed.

(** X14.  Approving the transaction a retry has created.  When the message of
    the retried transaction does not use a durable nonce, the approval
    starts by fetching the latest blockhash.  When it uses one and has a
    blockhash, the approval starts by asking for the block height and
    fetches no blockhash at all: the nonce is what is sent again. *)
Theorem approve_after_retry env w k new_id msg w' meta :
  RetryTransaction env k w = ((true, new_id, msg), w') ->
  store w !! k = Some meta ->
  (UsesDurableNonce env (message (tx meta)) = false ->
   exists rest,
     trace (snd (ApproveTransaction env new_id w'))
     = trace w' ++ CallGetLatestBlockhash (chain_id meta) true :: rest) /\
  (UsesDurableNonce env (message (tx meta)) = true ->
   blockhash_of meta <> "" ->
   exists rest,
     trace (snd (ApproveTransaction env new_id w'))
     = trace w' ++ CallGetSolanaBlockHeight (chain_id meta) :: rest /\
     List.Forall (fun e => fetches_blockhash e = false) rest).
Proof.
  intros Hretry Hl.
  destruct (RetryTransaction_success env w k new_id msg w' Hretry)
    as (meta0 & Hl0 & _ & _ & Hstore).
  rewrite Hl in Hl0. injection Hl0 as <-.
  set (fresh := retried env new_id (clock w) meta) in *.
  assert (Hnew : store w' !! new_id = Some fresh)
    by (rewrite Hstore; apply lookup_insert_eq).
  pose proof (retried_message env new_id (clock w) meta) as [_ Hb].
  pose proof (retried_chain env new_id (clock w) meta) as Hc.
  fold fresh in Hb, Hc.
  split.
  - intros Hd. rewrite Hd in Hb.
    unfold ApproveTransaction, bind at 1, GetSolanaTx. rewrite Hnew, Hb.
    cbn [empty]. unfold bind at 1. cbn [emit].
    destruct (GetLatestBlockhash env (chain_id fresh))
      as [[[latest last_valid] e] m].
    match goal with
    | |- context [OnGetLatestBlockhash env fresh latest last_valid e m ?w1] =>
        destruct (quiet_OnGetLatestBlockhash env fresh latest last_valid e m
                    w1) as (rest & Hrest & _)
    end.
    exists rest. rewrite Hrest. cbn [trace]. rewrite Hc, <- app_assoc.
    reflexivity.
  - intros Hd Hne. rewrite Hd in Hb.
    unfold ApproveTransaction, bind at 1, GetSolanaTx. rewrite Hnew, Hb.
    apply empty_false in Hne. rewrite Hne. unfold bind at 1. cbn [emit].
    destruct (GetSolanaBlockHeight env (chain_id fresh)) as [[height e] m].
    match goal with
    | |- context [OnGetBlockHeightForBlockhash env fresh ?b height e m ?w1] =>
        destruct (quiet_OnGetBlockHeightForBlockhash env fresh b height e m
                    w1) as (rest & Hrest & Hquiet)
    end.
    exists rest. rewrite Hrest. cbn [trace]. rewrite Hc, <- app_assoc.
    split; [reflexivity | exact Hquiet].
Qed.

(** [approve_after_retry] on a failed transaction with a durable nonce:
    the approval of its retry asks for the block height first. *)
Lemma approve_after_retry_witness :
  let w := world_of [sample_meta "tx1" Error "nonce" 700 [advance_nonce]] in
  let w' := snd (RetryTransaction sample_env "tx1" w) in
  exists rest,
    trace (snd (ApproveTransaction sample_env "A" w'))
    = trace w' ++ CallGetSolanaBlockHeight "0x65" :: rest.
Proof.
  cbv zeta.
  destruct (approve_after_retry sample_env
              (world_of [sample_meta "tx1" Error "nonce" 700 [advance_nonce]])
              "tx1" "A" ""
              (snd (RetryTransaction sample_env "tx1"
                      (world_of [sample_meta "tx1" Error "nonce" 700
                                   [advance_nonce]])))
              (sample_meta "tx1" Error "nonce" 700 [advance_nonce]))
    as [_ H].
  - vm_compute. reflexivity.
  - vm_compute. reflexivity.
  - destruct H as (rest & Hrest & _).
    + vm_compute. reflexivity.
    + vm_compute. discriminate.
    + exists rest. exact Hrest.
Defined.

(** *** Signing with a hardware wallet *)

Lemma GetTransactionMessageToSign_sends_nothing env k :
  appends (List.Forall (fun e => sends_transaction e = false))
    (GetTransactionMessageToSign env k).
Proof.
  unfold GetTransactionMessageToSign, OnGetBlockHeightForBlockhashHardware,
    OnGetLatestBlockhashHardware.
  repeat only_step.
Qed.

(** What the message-to-sign path did when it returns a message: it stored
    the meta with a blockhash and a last valid block height, under its
    id, and returns the serialization of the transaction it stored.  The
    blockhash is the one the meta had when it had one. *)
Lemma GetTransactionMessageToSign_success env k w bytes w1 :
  GetTransactionMessageToSign env k w = (Some bytes, w1) ->
  exists meta blockhash last_valid,
    let signed := set_blockhash_and_height blockhash last_valid meta in
    store w !! k = Some meta /\
    (blockhash_of meta <> "" -> blockhash = blockhash_of meta) /\
    store w1 = <[id meta := signed]> (store w) /\
    GetSerializedMessage env (tx signed) = Some bytes.
Proof.
  unfold GetTransactionMessageToSign, bind at 1, GetSolanaTx.
  destruct (store w !! k) as [meta |] eqn:Hl; [| discriminate].
  assert (Hstep : forall b h e m w0,
             store w0 = store w ->
             OnGetLatestBlockhashHardware env meta b h e m w0
             = (Some bytes, w1) ->
             store w1 = <[id meta := set_blockhash_and_height b h meta]>
                          (store w) /\
             GetSerializedMessage env
               (tx (set_blockhash_and_height b h meta)) = Some bytes).
  { intros b h e m w0 Hw0. unfold OnGetLatestBlockhashHardware.
    destruct (negb (is_success e)); [discriminate |].
    unfold bind, AddOrUpdateTx.
    destruct (storage_accepts env (set_blockhash_and_height b h meta));
      cbn [negb]; [| discriminate].
    unfold ret. intros [= Hb <-]. cbn [store]. rewrite Hw0. auto. }
  destruct (empty (blockhash_of meta)) eqn:Hempty.
  - unfold bind at 1. cbn [emit].
    destruct (GetLatestBlockhash env (chain_id meta))
      as [[[latest last_valid] e] m].
    intros Hrun. apply Hstep in Hrun; [| reflexivity].
    exists meta, latest, last_valid. cbv zeta.
    split; [reflexivity |]. split; [| exact Hrun].
    apply empty_true in Hempty. congruence.
  - unfold bind at 1. cbn [emit].
    destruct (GetSolanaBlockHeight env (chain_id meta)) as [[height e] m].
    unfold OnGetBlockHeightForBlockhashHardware.
    destruct (negb (is_success e)); [discriminate |].
    intros Hrun. apply Hstep in Hrun; [| reflexivity].
    exists meta, (blockhash_of meta),
      (wrap64 (height + kValidBlockHeightThreshold)). cbv zeta.
    split; [reflexivity |]. split; [reflexivity | exact Hrun].
Qed.

(** X15.  Asking for the message a hardware wallet is to sign never sends a
    transaction, whatever the collaborators answer.  When a message is
    returned, the transaction has been stored with a blockhash and a last
    valid block height, in the lifecycle state it was in, and the message
    is the serialization of the transaction as stored. *)
Theorem message_to_sign_stores_without_sending env k w :
  (exists evs,
      trace (snd (GetTransactionMessageToSign env k w)) = trace w ++ evs /\
      List.Forall (fun e => sends_transaction e = false) evs) /\
  (forall bytes,
      keyed (store w) ->
      fst (GetTransactionMessageToSign env k w) = Some bytes ->
      exists meta signed,
        store w !! k = Some meta /\
        store (snd (GetTransactionMessageToSign env k w)) !! k
        = Some signed /\
        status signed = status meta /\
        (blockhash_of meta <> "" -> blockhash_of signed = blockhash_of meta) /\
        GetSerializedMessage env (tx signed) = Some bytes).
Proof.
  split; [apply GetTransactionMessageToSign_sends_nothing |].
  intros bytes Hs Hfst.
  destruct (GetTransactionMessageToSign env k w) as [r w1] eqn:Hrun.
  cbn [fst snd] in *. subst r.
  destruct (GetTransactionMessageToSign_success env k w bytes w1 Hrun)
    as (meta & b & h & Hl & Hb & Hstore & Hser).
  exists meta, (set_blockhash_and_height b h meta).
  split; [exact Hl |]. split.
  { rewrite Hstore, (Hs _ _ Hl). apply lookup_insert_eq. }
  split; [reflexivity |]. split; [| exact Hser].
  intros Hne. rewrite <- (Hb Hne). reflexivity.
Qed.

(** [message_to_sign_stores_without_sending] on an unapproved transaction
    without blockhash: it is stored with the blockhash "latest" and is
    still Unapproved. *)
Lemma message_to_sign_stores_without_sending_witness :
  let w := world_of [sample_meta "tx1" Unapproved "" 0 []] in
  exists signed,
    store (snd (GetTransactionMessageToSign sample_env "tx1" w)) !! "tx1"
    = Some signed /\
    status signed = Unapproved.
Proof.
  cbv zeta.
  destruct (message_to_sign_stores_without_sending sample_env "tx1"
              (world_of [sample_meta "tx1" Unapproved "" 0 []]))
    as [_ H].
  destruct (H []) as (meta & signed & Hl & Hs & Hst & _).
  - apply world_of_keyed.
  - vm_compute. reflexivity.
  - exists signed. split; [exact Hs |]. rewrite Hst.
    assert (Hm : Some meta = Some (sample_meta "tx1" Unapproved "" 0 []))
      by (rewrite <- Hl; vm_compute; reflexivity).
    injection Hm as ->. reflexivity.
Defined.

(** X16.  The hardware signature of the message returned by the message-to-sign
    path is processed without any further fetch: the transaction that was
    serialized for signing is the one that is signed, it is stored as
    Approved, and then it is sent; no blockhash is fetched on the way or
    after. *)
Theorem hardware_signature_sends_what_was_signed env {TxData}
    (signing : Signing TxData) k w bytes w1 signature :
  keyed (store w) ->
  GetTransactionMessageToSign env k w = (Some bytes, w1) ->
  exists signed,
    store w1 !! k = Some signed /\
    GetSerializedMessage env (tx signed) = Some bytes /\
    forall transaction_bytes,
      GetSignedTransactionBytes signing (tx signed) (from signed) signature
      = Some transaction_bytes ->
      storage_accepts env (set_status Approved signed) = true ->
      exists rest,
        trace (snd (ProcessSolanaHardwareSignature env signing k signature
                      w1))
        = trace w1
          ++ [CallAddOrUpdateTx (set_status Approved signed) true;
              CallSendSolanaTransaction (chain_id signed)
                (Base64Encode signing transaction_bytes)]
          ++ rest /\
        List.Forall (fun e => fetches_blockhash e = false) rest.
Proof.
  intros Hs Hrun.
  destruct (GetTransactionMessageToSign_success env k w bytes w1 Hrun)
    as (meta & b & h & Hl & _ & Hstore & Hser).
  set (signed := set_blockhash_and_height b h meta) in *.
  assert (Hl1 : store w1 !! k = Some signed)
    by (rewrite Hstore, (Hs _ _ Hl); apply lookup_insert_eq).
  exists signed. split; [exact Hl1 |]. split; [exact Hser |].
  intros transaction_bytes Hsig Hok.
  unfold ProcessSolanaHardwareSignature, bind at 1, GetSolanaTx.
  rewrite Hl1, Hsig. unfold bind at 1, AddOrUpdateTx. rewrite Hok.
  cbn [negb]. unfold bind at 1. cbn [emit].
  destruct (SendSolanaTransaction env _ _) as [[hash e] m].
  match goal with
  | |- context [OnSendSolanaTransaction env ?i hash e m ?w2] =>
      destruct (quiet_OnSendSolanaTransaction env i hash e m w2)
        as (rest & Hrest & Hquiet)
  end.
  exists rest. split; [| exact Hquiet].
  rewrite Hrest. cbn [trace]. rewrite <- !app_assoc. reflexivity.
Qed.

(** [hardware_signature_sends_what_was_signed] on an unapproved
    transaction without blockhash, signed with a two-byte signature. *)
Lemma hardware_signature_sends_what_was_signed_witness :
  let w := world_of [sample_meta "tx1" Unapproved "" 0 []] in
  let w1 := snd (GetTransactionMessageToSign sample_env "tx1" w) in
  exists signed rest,
    store w1 !! "tx1" = Some signed /\
    trace (snd (ProcessSolanaHardwareSignature sample_env sample_signing
                  "tx1" [x01; x02] w1))
    = trace w1
      ++ [CallAddOrUpdateTx (set_status Approved signed) true;
          CallSendSolanaTransaction (chain_id signed) "AAAAAAAA"]
      ++ rest.
Proof.
  cbv zeta.
  destruct (hardware_signature_sends_what_was_signed sample_env
              sample_signing "tx1"
              (world_of [sample_meta "tx1" Unapproved "" 0 []]) []
              (snd (GetTransactionMessageToSign sample_env "tx1"
                      (world_of [sample_meta "tx1" Unapproved "" 0 []])))
              [x01; x02])
    as (signed & Hl & _ & H).
  - apply world_of_keyed.
  - vm_compute. reflexivity.
  - assert (Hm : Some signed
                 = Some (sample_meta "tx1" Unapproved "latest" 1150 []))
      by (rewrite <- Hl; vm_compute; reflexivity).
    injection Hm as Hm.
    destruct (H (map byte_of_Z [1; 2; 0; 0; 0; 0; 0; 0]))
      as (rest & Hrest & _).
    + rewrite Hm. vm_compute. reflexivity.
    + reflexivity.
    + exists signed, rest. split; [exact Hl | exact Hrest].
Defined.

(** *** Adding a transaction *)



End LifecycleFacts.

(** ** The transaction manager: building transaction data *)

Module TxDataFacts.
Import Builder TxManager TxData.

Lemma sample_services_keep : keeps_arguments sample_services.
Proof.
  intros b h p l m Hm. cbn in Hm. injection Hm as <-. cbn. auto.
Qed.

(** *** Transfers of lamports and of tokens *)

(** X18.  The data of a system-program transfer.  A sanctioned recipient is
    refused with [kInvalidParams] before anything is built, and an empty
    sender or recipient with an internal error.  Data that is returned
    comes with [kSuccess], names the recipient and the lamports, and,
    when the message constructor keeps what it is given, its message has
    no blockhash and no last valid block height yet, is paid for by the
    sender, and consists of one instruction that the sender alone
    signs. *)
Theorem system_transfer_tx_data services from_account to lamports_to_send :
  let made :=
    MakeSystemProgramTransferTxData services from_account to
      lamports_to_send in
  (IsOfacAddress services to = true ->
   made = Ran None kInvalidParams IDS_WALLET_OFAC_RESTRICTION) /\
  (IsOfacAddress services to = false ->
   from_account = "" \/ to = "" -> made = internal_error) /\
  (forall d e m,
      made = Ran (Some d) e m ->
      e = kSuccess /\ m = "" /\
      IsOfacAddress services to = false /\
      to_wallet_address d = to /\
      tx_type d = SolanaSystemTransfer /\
      lamports d = Some lamports_to_send /\
      (keeps_arguments services ->
       recent_blockhash (msg d) = "" /\
       last_valid_block_height (msg d) = 0 /\
       fee_payer (msg d) = from_account /\
       exists i,
         instructions (msg d) = [i] /\
         program_id i = kSolanaSystemProgramId /\
         signers i = [from_account])).
Proof.
  intros made. unfold made, MakeSystemProgramTransferTxData.
  split; [intros ->; reflexivity |]. split.
  - intros -> Hempty.
    assert (Hnone : system_program.Transfer from_account to lamports_to_send
                    = None).
    { unfold system_program.Transfer.
      destruct Hempty as [-> | ->]; [reflexivity |].
      destruct (empty from_account); reflexivity. }
    rewrite Hnone. reflexivity.
  - intros d e m. destruct (IsOfacAddress services to); [discriminate |].
    destruct (system_program.Transfer from_account to lamports_to_send)
      as [i |] eqn:Hi; [| discriminate].
    destruct (CreateLegacyMessage services "" 0 from_account [i])
      as [message |] eqn:Hm; [| discriminate].
    intros [= <- <- <-]. cbn [to_wallet_address tx_type lamports msg].
    repeat (split; [reflexivity |]).
    intros Hkeep. destruct (Hkeep _ _ _ _ _ Hm) as (Hb & Hh & Hp & Hins).
    split; [exact Hb |]. split; [exact Hh |]. split; [exact Hp |].
    exists i. split; [exact Hins |].
    unfold system_program.Transfer in Hi.
    destruct (empty from_account || empty to); [discriminate |].
    injection Hi as <-. split; reflexivity.
Qed.

(** [system_transfer_tx_data] on a transfer of 1000 lamports. *)
Lemma system_transfer_tx_data_witness :
  exists d,
    MakeSystemProgramTransferTxData sample_services "sender" "recipient" 1000
    = Ran (Some d) kSuccess "" /\
    recent_blockhash (msg d) = "" /\ fee_payer (msg d) = "sender".
Proof.
  destruct (MakeSystemProgramTransferTxData sample_services "sender"
              "recipient" 1000) as [[d |] e m |] eqn:E;
    try (vm_compute in E; discriminate).
  destruct (system_transfer_tx_data sample_services "sender" "recipient"
              1000) as (_ & _ & H).
  destruct (H d e m E) as (-> & -> & _ & _ & _ & _ & Hk).
  destruct (Hk sample_services_keep) as (Hb & _ & Hp & _).
  exists d. split; [reflexivity |]. split; [exact Hb | exact Hp].
Defined.

(** X19.  The requests of a token transfer.  For a sanctioned recipient, and
    when an associated token account cannot be derived, no request is
    sent at all; otherwise exactly one is sent, for the account
    information of the recipient's associated token account on the chain
    given. *)
Theorem token_transfer_requests services chain mint from_wallet_address
    to_wallet amount_to_send :
  let made :=
    MakeTokenProgramTransferTxData services chain mint from_wallet_address
      to_wallet amount_to_send in
  (IsOfacAddress services to_wallet = true ->
   made = (Ran None kInvalidParams IDS_WALLET_OFAC_RESTRICTION, [])) /\
  (IsOfacAddress services to_wallet = false ->
   GetAssociatedTokenAccount services mint from_wallet_address = None \/
   GetAssociatedTokenAccount services mint to_wallet = None ->
   made = (internal_error, [])) /\
  (forall from_ata to_ata,
      IsOfacAddress services to_wallet = false ->
      GetAssociatedTokenAccount services mint from_wallet_address
      = Some from_ata ->
      GetAssociatedTokenAccount services mint to_wallet = Some to_ata ->
      snd made = [CallGetSolanaAccountInfo chain to_ata]).
Proof.
  intros made. unfold made, MakeTokenProgramTransferTxData.
  split; [intros ->; reflexivity |]. split.
  - intros -> [-> | ->]; [reflexivity |].
    destruct (GetAssociatedTokenAccount services mint from_wallet_address);
      reflexivity.
  - intros from_ata to_ata -> -> ->.
    destruct (GetSolanaAccountInfo services chain to_ata) as [[info e] m].
    reflexivity.
Qed.

(** [token_transfer_requests] on the sample services. *)
Lemma token_transfer_requests_witness :
  snd (MakeTokenProgramTransferTxData sample_services "0x65" "mint" "sender"
         "recipient" 5)
  = [CallGetSolanaAccountInfo "0x65" "mintrecipient"].
Proof.
  destruct (token_transfer_requests sample_services "0x65" "mint" "sender"
              "recipient" 5) as (_ & _ & H).
  apply (H "mintsender" "mintrecipient"); reflexivity.
Defined.

(** X20.  The data of a token transfer, once the account information of the
    recipient's associated token account has come.  An error of the RPC
    is handed on as it is.  On success, the account is created first
    exactly when no account information came or its owner is not the
    token program; the type of the transaction says whether it is; and,
    when the message constructor keeps what it is given, the message has
    no blockhash and no last valid block height yet, is paid for by the
    sender, and each of its instructions is signed by the sender
    alone. *)
Theorem token_transfer_tx_data services mint from_wallet_address to_wallet
    from_ata to_ata amount_to_send account_info :
  (forall e m,
      e <> kSuccess ->
      OnGetAccountInfo services mint from_wallet_address to_wallet from_ata
        to_ata amount_to_send account_info e m
      = Ran None e m) /\
  (forall d e m m0,
      OnGetAccountInfo services mint from_wallet_address to_wallet from_ata
        to_ata amount_to_send account_info kSuccess m0
      = Ran (Some d) e m ->
      let create :=
        match account_info with
        | None => true
        | Some info =>
            negb (String.eqb (AccountInfo.owner info) kSolanaTokenProgramId)
        end in
      e = kSuccess /\ m = "" /\
      to_wallet_address d = to_wallet /\
      spl_token_mint_address d = Some mint /\
      amount d = Some amount_to_send /\
      tx_type d
      = (if create
         then SolanaSPLTokenTransferWithAssociatedTokenAccountCreation
         else SolanaSPLTokenTransfer) /\
      (keeps_arguments services ->
       recent_blockhash (msg d) = "" /\
       last_valid_block_height (msg d) = 0 /\
       fee_payer (msg d) = from_wallet_address /\
       map program_id (instructions (msg d))
       = (if create
          then [kSolanaAssociatedTokenProgramId; kSolanaTokenProgramId]
          else [kSolanaTokenProgramId]) /\
       List.Forall (fun i => signers i = [from_wallet_address])
         (instructions (msg d)))).
Proof.
  split.
  - intros e m He. unfold OnGetAccountInfo.
    destruct e; [contradiction | | |]; reflexivity.
  - intros d e m m0. unfold OnGetAccountInfo. cbn [is_success negb].
    set (create := match account_info with
                   | None => true
                   | Some info =>
                       negb (String.eqb (AccountInfo.owner info)
                               kSolanaTokenProgramId)
                   end).
    destruct (spl_token_program.Transfer kSolanaTokenProgramId from_ata
                to_ata from_wallet_address [] amount_to_send)
      as [transfer |] eqn:Ht.
    2:{ destruct create;
          [destruct (spl_associated_token_account_program.CreateAssociatedTokenAccount
                       from_wallet_address to_wallet to_ata mint) |];
          discriminate. }
    assert (Htransfer : program_id transfer = kSolanaTokenProgramId /\
                        signers transfer = [from_wallet_address]).
    { unfold spl_token_program.Transfer in Ht.
      destruct (empty kSolanaTokenProgramId || empty from_ata
                || empty to_ata || empty from_wallet_address);
        [discriminate |].
      injection Ht as <-. split; reflexivity. }
    destruct Htransfer as [Htp Hts].
    destruct create.
    + destruct (spl_associated_token_account_program.CreateAssociatedTokenAccount
                  from_wallet_address to_wallet to_ata mint)
        as [created |] eqn:Hc; [| discriminate].
      assert (Hcreated : program_id created = kSolanaAssociatedTokenProgramId
                         /\ signers created = [from_wallet_address]).
      { unfold spl_associated_token_account_program.CreateAssociatedTokenAccount
          in Hc.
        destruct (empty from_wallet_address || empty to_wallet
                  || empty to_ata || empty mint); [discriminate |].
        injection Hc as <-. split; reflexivity. }
      destruct Hcreated as [Hcp Hcs].
      cbn [app].
      destruct (CreateLegacyMessage services "" 0 from_wallet_address
                  [created; transfer]) as [message |] eqn:Hm;
        [| discriminate].
      intros [= <- <- <-].
      cbn [to_wallet_address tx_type spl_token_mint_address amount msg].
      repeat (split; [reflexivity |]).
      intros Hkeep. destruct (Hkeep _ _ _ _ _ Hm) as (Hb & Hh & Hp & Hins).
      rewrite Hins. cbn [map]. rewrite Hcp, Htp.
      repeat (split; [assumption || reflexivity |]).
      repeat constructor; assumption.
    + cbn [app].
      destruct (CreateLegacyMessage services "" 0 from_wallet_address
                  [transfer]) as [message |] eqn:Hm; [| discriminate].
      intros [= <- <- <-].
      cbn [to_wallet_address tx_type spl_token_mint_address amount msg].
      repeat (split; [reflexivity |]).
      intros Hkeep. destruct (Hkeep _ _ _ _ _ Hm) as (Hb & Hh & Hp & Hins).
      rewrite Hins. cbn [map]. rewrite Htp.
      repeat (split; [assumption || reflexivity |]).
      repeat constructor; assumption.
Qed.

(** [token_transfer_tx_data] when no account information came: the
    account is created and the tokens are transferred, in that order. *)
Lemma token_transfer_tx_data_witness :
  exists d,
    OnGetAccountInfo sample_services "mint" "sender" "recipient"
      "mintsender" "mintrecipient" 5 None kSuccess ""
    = Ran (Some d) kSuccess "" /\
    map program_id (instructions (msg d))
    = [kSolanaAssociatedTokenProgramId; kSolanaTokenProgramId].
Proof.
  destruct (OnGetAccountInfo sample_services "mint" "sender" "recipient"
              "mintsender" "mintrecipient" 5 None kSuccess "")
    as [[d |] e m |] eqn:E; try (vm_compute in E; discriminate).
  destruct (token_transfer_tx_data sample_services "mint" "sender"
              "recipient" "mintsender" "mintrecipient" 5 None) as [_ H].
  destruct (H d e m "" E) as (-> & -> & _ & _ & _ & _ & Hk).
  destruct (Hk sample_services_keep) as (_ & _ & _ & Hp & _).
  exists d. split; [reflexivity | exact Hp].
Defined.

(** *** Transfers of compressed NFTs *)

(** The canopy depth decoded from the Merkle-tree account is handed to the
    builder, which does not read it. *)
Lemma Transfer_ignores_depth depth1 depth2 tree_authority new_leaf_owner p :
  Transfer depth1 tree_authority new_leaf_owner p
  = Transfer depth2 tree_authority new_leaf_owner p.
Proof. reflexivity. Qed.

(** X21.  The data of a compressed-NFT transfer, once the Merkle-tree account
    has come.  An error of the RPC is handed on as it is.  A success
    without an account is read through the empty optional.  With an
    account whose data is base64, the function reads outside the proof
    path exactly when the account decodes, the three hashes of the proof
    decode and the canopy depth recorded in the proof exceeds the length
    of its path.  Data that is returned comes with [kSuccess], has the
    type of a compressed-NFT transfer and no lamports, and, when the
    message constructor keeps what it is given, its message has no
    blockhash and no last valid block height yet, is paid for by the owner
    recorded in the proof, and consists of one instruction that nobody
    signs. *)
Theorem compressed_nft_transfer_outcomes services to_wallet p account_info :
  0 <= canopy_depth p < 2 ^ 64 -> vsize (proof p) < 2 ^ 64 ->
  (forall e m,
      e <> kSuccess ->
      OnGetMerkleTreeAccountInfo services to_wallet p account_info e m
      = Ran None e m) /\
  (forall m,
      account_info = None ->
      OnGetMerkleTreeAccountInfo services to_wallet p account_info kSuccess m
      = Undefined) /\
  (forall info bytes m,
      account_info = Some info ->
      Base64Decode services (AccountInfo.data info) = Some bytes ->
      (OnGetMerkleTreeAccountInfo services to_wallet p account_info
         kSuccess m = Undefined <->
       Decoder.DecodeMerkleTreeAuthorityAndDepth bytes <> None /\
       hashes_decode p /\ vsize (proof p) < canopy_depth p)) /\
  (forall d e m m0,
      OnGetMerkleTreeAccountInfo services to_wallet p account_info
        kSuccess m0 = Ran (Some d) e m ->
      e = kSuccess /\ m = "" /\
      to_wallet_address d = to_wallet /\
      tx_type d = SolanaCompressedNftTransfer /\
      lamports d = None /\
      (keeps_arguments services ->
       recent_blockhash (msg d) = "" /\
       last_valid_block_height (msg d) = 0 /\
       fee_payer (msg d) = owner p /\
       exists i,
         instructions (msg d) = [i] /\
         program_id i = kSolanaBubbleGumProgramId /\
         signers i = [] /\ writable i = [merkle_tree p])).
Proof.
  intros Hcd Hlen. repeat apply conj.
  - intros e m He. unfold OnGetMerkleTreeAccountInfo.
    destruct e; [contradiction | | |]; reflexivity.
  - intros m ->. reflexivity.
  - intros info bytes m -> Hbytes.
    unfold OnGetMerkleTreeAccountInfo. cbn [is_success negb].
    rewrite Hbytes.
    destruct (Decoder.DecodeMerkleTreeAuthorityAndDepth bytes)
      as [[depth authority] |].
    2:{ split; [discriminate | intros [H _]; contradiction]. }
    cbn [fst snd].
    destruct (ProgramFacts.bubblegum_transfer_cases depth
                (ToBase58 authority) to_wallet p Hcd Hlen)
      as [(Ht & Hn) | [(Ht & Hy & Hgt) | (i & Ht & Hy & Hle & _)]];
      rewrite Ht.
    + split; [discriminate | tauto].
    + split; [intros _; repeat split; [discriminate | | ]; assumption
             | reflexivity].
    + split.
      * destruct (CreateLegacyMessage services "" 0 (owner p) [i]);
          discriminate.
      * intros (_ & _ & Hgt). lia.
  - intros d e m m0. unfold OnGetMerkleTreeAccountInfo.
    cbn [is_success negb].
    destruct account_info as [info |]; [| discriminate].
    destruct (Base64Decode services (AccountInfo.data info))
      as [bytes |]; [| discriminate].
    destruct (Decoder.DecodeMerkleTreeAuthorityAndDepth bytes)
      as [[depth authority] |]; [| discriminate].
    cbn [fst snd].
    destruct (ProgramFacts.bubblegum_transfer_cases depth
                (ToBase58 authority) to_wallet p Hcd Hlen)
      as [(Ht & Hn) | [(Ht & Hy & Hgt) | (i & Ht & Hy & Hle & Hs & Hw & Hp)]];
      rewrite Ht; try discriminate.
    destruct (CreateLegacyMessage services "" 0 (owner p) [i])
      as [message |] eqn:Hm; [| discriminate].
    intros [= <- <- <-]. cbn [to_wallet_address tx_type lamports msg].
    repeat (split; [reflexivity |]).
    intros Hkeep. destruct (Hkeep _ _ _ _ _ Hm) as (Hb & Hh & Hpay & Hins).
    split; [exact Hb |]. split; [exact Hh |]. split; [exact Hpay |].
    exists i. auto.
Qed.

(** [compressed_nft_transfer_outcomes] on [sample_proof] and a complete
    Merkle-tree account: the data is returned, and the owner recorded in
    the proof pays. *)
Lemma compressed_nft_transfer_outcomes_witness :
  let info := {| AccountInfo.owner := compression_program;
                 AccountInfo.data := "" |} in
  exists d,
    OnGetMerkleTreeAccountInfo sample_services "recipient" sample_proof
      (Some info) kSuccess ""
    = Ran (Some d) kSuccess "" /\
    fee_payer (msg d) = "owner".
Proof.
  cbv zeta.
  destruct (OnGetMerkleTreeAccountInfo sample_services "recipient"
              sample_proof
              (Some {| AccountInfo.owner := compression_program;
                       AccountInfo.data := "" |}) kSuccess "")
    as [[d |] e m |] eqn:E; try (vm_compute in E; discriminate).
  destruct (compressed_nft_transfer_outcomes sample_services "recipient"
              sample_proof
              (Some {| AccountInfo.owner := compression_program;
                       AccountInfo.data := "" |}))
    as (_ & _ & _ & H).
  - vm_compute. split; [discriminate | reflexivity].
  - vm_compute. reflexivity.
  - destruct (H d e m "" E) as (-> & -> & _ & _ & _ & Hk).
    destruct (Hk sample_services_keep) as (_ & _ & Hp & _).
    exists d. split; [reflexivity | exact Hp].
Defined.

(** X22.  Of the Merkle-tree account only the 42 bytes of its header reach the
    transaction: two accounts that begin with the same 42 bytes give the
    same result, whatever follows and however long they are. *)
Theorem only_the_header_of_the_tree_matters services to_wallet p
    info1 info2 bytes1 bytes2 m :
  Base64Decode services (AccountInfo.data info1) = Some bytes1 ->
  Base64Decode services (AccountInfo.data info2) = Some bytes2 ->
  vsize bytes1 < 2 ^ 64 -> vsize bytes2 < 2 ^ 64 ->
  42 <= vsize bytes1 -> 42 <= vsize bytes2 ->
  firstn 42 bytes1 = firstn 42 bytes2 ->
  OnGetMerkleTreeAccountInfo services to_wallet p (Some info1) kSuccess m
  = OnGetMerkleTreeAccountInfo services to_wallet p (Some info2) kSuccess m.
Proof.
  intros H1 H2 Hs1 Hs2 Hl1 Hl2 Hhd.
  unfold OnGetMerkleTreeAccountInfo. cbn [is_success negb].
  rewrite H1, H2. unfold Decoder.DecodeMerkleTreeAuthorityAndDepth.
  rewrite (ReaderFacts.DecodeHeader_firstn bytes1),
    (ReaderFacts.DecodeHeader_firstn bytes2) by assumption.
  rewrite Hhd.
  destruct (Decoder.DecodeHeader (firstn 42 bytes2)) as [h |];
    [| reflexivity].
  cbn [fst snd].
  rewrite (Transfer_ignores_depth _
             (Decoder.canopy_depth_of (Decoder.canopy_byte_length bytes2 h))).
  reflexivity.
Qed.

(** [only_the_header_of_the_tree_matters] on a complete account without
    canopy and the same account followed by a canopy of 64 bytes. *)
Lemma only_the_header_of_the_tree_matters_witness :
  let info1 := {| AccountInfo.owner := compression_program;
                  AccountInfo.data := "" |} in
  let info2 := {| AccountInfo.owner := compression_program;
                  AccountInfo.data :=
                    string_of_list_ascii (repeat "A"%char 64) |} in
  OnGetMerkleTreeAccountInfo sample_services "recipient" sample_proof
    (Some info1) kSuccess ""
  = OnGetMerkleTreeAccountInfo sample_services "recipient" sample_proof
      (Some info2) kSuccess "".
Proof.
  cbv zeta.
  apply (only_the_header_of_the_tree_matters sample_services "recipient"
           sample_proof _ _ (Decoder.small_account 0)
           (Decoder.small_account 64)).
  - reflexivity.
  - reflexivity.
  - vm_compute. reflexivity.
  - vm_compute. reflexivity.
  - vm_compute. discriminate.
  - vm_compute. discriminate.
  - vm_compute. reflexivity.
Defined.

(** X23.  The path from a token address to the data of a compressed-NFT
    transfer.  The proof is asked for first; without a proof the callback
    is told an internal error and nothing else is asked; with a proof the
    Merkle-tree account it names is asked for, always on the Solana main
    network.  The chain and the sender given by the caller are not used,
    and the registry of sanctioned addresses and the derivation of
    associated token accounts are not consulted. *)
Theorem compressed_nft_pipeline services chain token_address
    from_wallet_address to_wallet :
  snd (MakeBubbleGumProgramTransferTxData services chain token_address
         from_wallet_address to_wallet)
  = CallFetchSolCompressedNftProofData token_address
    :: match FetchSolCompressedNftProofData services token_address with
       | None => []
       | Some p => [CallGetSolanaAccountInfo kSolanaMainnet (merkle_tree p)]
       end /\
  (FetchSolCompressedNftProofData services token_address = None ->
   fst (MakeBubbleGumProgramTransferTxData services chain token_address
          from_wallet_address to_wallet) = internal_error) /\
  (forall chain' from_wallet_address' is_ofac derive,
      MakeBubbleGumProgramTransferTxData
        {| IsOfacAddress := is_ofac;
           GetAssociatedTokenAccount := derive;
           GetSolanaAccountInfo := GetSolanaAccountInfo services;
           FetchSolCompressedNftProofData :=
             FetchSolCompressedNftProofData services;
           Base64Decode := Base64Decode services;
           CreateLegacyMessage := CreateLegacyMessage services |}
        chain' token_address from_wallet_address' to_wallet
      = MakeBubbleGumProgramTransferTxData services chain token_address
          from_wallet_address to_wallet).
Proof.
  unfold MakeBubbleGumProgramTransferTxData, OnFetchCompressedNftProof.
  destruct (FetchSolCompressedNftProofData services token_address)
    as [p |] eqn:Hp.
  - destruct (GetSolanaAccountInfo services kSolanaMainnet (merkle_tree p))
      as [[info e] m] eqn:Hi.
    split; [reflexivity |]. split; [discriminate |].
    intros chain' from' is_ofac derive.
    cbn [FetchSolCompressedNftProofData GetSolanaAccountInfo].
    rewrite Hp, Hi. reflexivity.
  - split; [reflexivity |]. split; [reflexivity |].
    intros chain' from' is_ofac derive.
    cbn [FetchSolCompressedNftProofData]. rewrite Hp. reflexivity.
Qed.

End TxDataFacts.
